(** * zip-zap: a shallow embedding of the ZIP writer and reader

    The development follows the TypeScript sources:
    - [crc32.ts]  : the table-driven CRC-32 update function;
    - [write.ts]  : [ZipEntry], [ZipSource] and [ZipWriter];
    - [read.ts]   : [ZipData], [ZipFooter], [ZipDirectory],
                    [ZipDirectoryEntry], [ZipLocalHeader], [ZipEntry], [ZipReader];
    - [createZip.ts] (example application): [createZip], the caller of the
                    writer, with [fetch] as a parameter.

    JavaScript numbers are modelled by [Z] (the sources only compute with
    integers, which a number holds exactly below 2^53); the 32-bit
    conversions that the bit operators and the typed arrays perform are
    written out.  Byte buffers ([Uint8Array], [ArrayBuffer], [Blob]) are
    lists of bytes.  A stream is the list of chunks that flow through it.
    Exceptions are results in a sum type.  Functions of the host platform
    ([TextEncoder], [TextDecoder], [Blob.stream], [CompressionStream],
    [DecompressionStream], [parseInt]) are the fields of the class [Host]. *)

From Stdlib Require Import Ascii String ZArith Lia Bool Sorted List.
From coqutil Require Import Byte Word.LittleEndianList.
Import ListNotations.
Local Open Scope Z_scope.

(** ** JavaScript integer operators *)

Module JS.

(** [ToUint32] and [ToInt32] of ECMAScript, on integral values. *)
Definition ToUint32 (z : Z) : Z := z mod 2 ^ 32.

Definition ToInt32 (z : Z) : Z :=
  let u := z mod 2 ^ 32 in
  if u <? 2 ^ 31 then u else u - 2 ^ 32.

(** [~ x] *)
Definition bnot (x : Z) : Z := ToInt32 (Z.lnot (ToInt32 x)).

(** [a ^ b] *)
Definition bxor (a b : Z) : Z := ToInt32 (Z.lxor (ToInt32 a) (ToInt32 b)).

(** [a & b] *)
Definition band (a b : Z) : Z := ToInt32 (Z.land (ToInt32 a) (ToInt32 b)).

(** [a >>> n] *)
Definition ushr (a n : Z) : Z := Z.shiftr (ToUint32 a) (ToUint32 n mod 32).

(** Truthiness of a number that is not NaN. *)
Definition truthy (x : Z) : bool := negb (x =? 0).

(** [Math.max] on two integral numbers. *)
Definition Math_max (a b : Z) : Z := Z.max a b.

End JS.

(** ** crc32.ts *)

Module Crc32.

(** One round of the inner loop that fills the table. *)
Definition table_round (t : Z) : Z :=
  if JS.truthy (JS.band t 1)
  then JS.bxor (JS.ushr t 1) 0xedb88320
  else JS.ushr t 1.

(** [table[i] = t] stores into a [Uint32Array], hence the [ToUint32]. *)
Definition table_entry (i : Z) : Z :=
  JS.ToUint32 (Nat.iter 8 table_round i).

Definition table : list Z :=
  map (fun i => table_entry (Z.of_nat i)) (seq 0 256).

(** [table[k]]: the index is always masked with [0xff] in the source. *)
Definition table_get (k : Z) : Z := nth (Z.to_nat k) table 0.

(** The body of the loop over [data]. *)
Definition crc32_step (x : Z) (b : byte) : Z :=
  JS.bxor (JS.ushr x 8)
          (table_get (JS.band (JS.bxor x (byte.unsigned b)) 0xff)).

Definition crc32 (crc : Z) (data : list byte) : Z :=
  JS.bnot (fold_left crc32_step data (JS.bnot crc)).

(** The CRC-32/ISO-HDLC checksum as the standard defines it: reflected
    polynomial [0xEDB88320], initial register and final xor [0xFFFFFFFF],
    one bit at a time.  This definition follows the standard's words, not
    the source; [crc32] above is compared with it. *)
Definition reference_bit (r : Z) : Z :=
  if Z.odd r then Z.lxor (Z.shiftr r 1) 0xEDB88320 else Z.shiftr r 1.

Definition reference_byte (r : Z) (b : byte) : Z :=
  Nat.iter 8 reference_bit (Z.lxor r (byte.unsigned b)).

Definition reference_crc32 (data : list byte) : Z :=
  Z.lxor (fold_left reference_byte data 0xFFFFFFFF) 0xFFFFFFFF.

End Crc32.

(** ** Errors and results *)

Inductive Error : Type :=
| TypeError                    (* raised by the engine, e.g. a property read on [undefined] *)
| RangeError                   (* raised by [DataView] and typed-array constructors *)
| JsError (message : string).  (* [new Error(message)] thrown by the sources *)

Definition Result (A : Type) : Type := (Error + A)%type.
Definition Ok {A} (a : A) : Result A := inr a.
Definition Throw {A} (e : Error) : Result A := inl e.

Definition rbind {A B} (r : Result A) (k : A -> Result B) : Result B :=
  match r with
  | inl e => inl e
  | inr a => k a
  end.

Declare Scope result_scope.
Delimit Scope result_scope with result.
Notation "x <- r ;; k" :=
  (rbind r (fun x => k))
  (at level 61, r at next level, right associativity) : result_scope.

Definition chunk : Type := list byte.

(** ** DataView over an ArrayBuffer; every access in the sources is little-endian *)

Module DataView.

Record t : Type := mk {
  buffer : list byte;
  byteOffset : Z;
  byteLength : Z
}.

(** [new DataView(buffer)] *)
Definition of_buffer (b : list byte) : t :=
  {| buffer := b; byteOffset := 0; byteLength := Z.of_nat (length b) |}.

(** [new DataView(new ArrayBuffer(n))]: a zero-filled buffer. *)
Definition alloc (n : nat) : t := of_buffer (repeat Byte.x00 n).

Definition in_range (v : t) (offset : Z) (n : nat) : bool :=
  (0 <=? offset) && (offset + Z.of_nat n <=? byteLength v).

Definition read (v : t) (offset : Z) (n : nat) : list byte :=
  firstn n (skipn (Z.to_nat (byteOffset v + offset)) (buffer v)).

Definition write (v : t) (offset : Z) (bs : list byte) : t :=
  let k := Z.to_nat (byteOffset v + offset) in
  {| buffer := firstn k (buffer v) ++ bs ++ skipn (k + length bs) (buffer v);
     byteOffset := byteOffset v;
     byteLength := byteLength v |}.

Definition getUint (n : nat) (v : t) (offset : Z) : Result Z :=
  if in_range v offset n then Ok (le_combine (read v offset n))
  else Throw RangeError.

Definition setUint (n : nat) (v : t) (offset : Z) (value : Z) : Result t :=
  if in_range v offset n then Ok (write v offset (le_split n value))
  else Throw RangeError.

Definition getUint16 := getUint 2.
Definition getUint32 := getUint 4.
Definition setUint16 := setUint 2.
Definition setUint32 := setUint 4.

(** The bytes a view contributes when it is used as a [BlobPart]. *)
Definition bytes (v : t) : list byte :=
  firstn (Z.to_nat (byteLength v)) (skipn (Z.to_nat (byteOffset v)) (buffer v)).

End DataView.

(** [new Uint8Array(buffer, byteOffset, length)] *)
Definition Uint8Array_view (buffer : list byte) (byteOffset length : Z)
  : Result (list byte) :=
  if (0 <=? byteOffset) && (0 <=? length)
     && (byteOffset + length <=? Z.of_nat (List.length buffer))
  then Ok (firstn (Z.to_nat length) (skipn (Z.to_nat byteOffset) buffer))
  else Throw RangeError.

(** [array[i]]: [None] is [undefined]. *)
Definition Uint8Array_get (a : list byte) (i : Z) : option byte :=
  if i <? 0 then None else nth_error a (Z.to_nat i).

(** [blob.slice(start, end)] of the File API. *)
Definition Blob_slice (blob : list byte) (start end_ : Z) : list byte :=
  let size := Z.of_nat (length blob) in
  let relativeStart := if start <? 0 then Z.max (size + start) 0 else Z.min start size in
  let relativeEnd := if end_ <? 0 then Z.max (size + end_) 0 else Z.min end_ size in
  let span := Z.max (relativeEnd - relativeStart) 0 in
  firstn (Z.to_nat span) (skipn (Z.to_nat relativeStart) blob).

(** ** The host platform

    Functions of the runtime that the sources call but do not define. *)

Class Host : Type := {
  (** JavaScript strings *)
  jsstring : Type;
  (** [new TextEncoder().encode(str)]; also the bytes of [new Blob([str])] *)
  TextEncoder_encode : jsstring -> list byte;
  (** [new TextDecoder().decode(data)] *)
  TextDecoder_decode : list byte -> jsstring;
  (** the chunks in which [blob.stream()] delivers a blob *)
  Blob_stream : list byte -> list chunk;
  (** a stream piped through [new CompressionStream("deflate-raw")] *)
  CompressionStream : list chunk -> list chunk;
  (** a stream piped through [new DecompressionStream("deflate-raw")];
      [None] when the transform rejects its input *)
  DecompressionStream : list chunk -> option (list chunk);
  (** [parseInt(s)]; [None] is [NaN] *)
  parseInt : string -> option Z
}.

(** What the runtime guarantees about streams and the deflate transforms. *)
Record HostLaws (H : Host) : Prop := {
  Blob_stream_concat : forall b, concat (Blob_stream b) = b;
  inflate_deflate : forall source compressed,
      concat compressed = concat (CompressionStream source) ->
      exists out, DecompressionStream compressed = Some out
                  /\ concat out = concat source
}.

(** ** write.ts *)

Module Write.

Module ZipEntryOptions.
Record t : Type := mk { compressed : option bool }.
End ZipEntryOptions.

(** The two callbacks of [BuildOptions] are supplied by the caller; the model
    records whether each is present and logs every invocation as a [Call]. *)
Module BuildOptions.
Record t : Type := mk { progress : bool; entryProgress : bool }.
End BuildOptions.

Inductive Call : Type :=
| call_progress (bytesWritten totalBytes : Z)
| call_entryProgress (index : nat) (bytesWritten totalBytes : Z).

(** An element of the array [entryProgress] that [build] allocates. *)
Module Progress.
Record t : Type := mk { bytesWritten : Z; totalBytes : Z }.
End Progress.

(** What the closures created by [build] share: the local [entryProgress]
    ([None] is [undefined]) and the log of the caller's callbacks. *)
Record BuildState : Type := mkBuildState {
  entryProgress : option (list Progress.t);
  calls : list Call
}.

(** Computations that read and write the [BuildState] and may throw; the
    state survives a throw, so that the calls made before it stay logged. *)
Definition M (A : Type) : Type := BuildState -> BuildState * Result A.

Definition ret {A} (a : A) : M A := fun st => (st, Ok a).
Definition throw {A} (e : Error) : M A := fun st => (st, Throw e).
Definition bind {A B} (m : M A) (k : A -> M B) : M B :=
  fun st =>
    match m st with
    | (st', inl e) => (st', inl e)
    | (st', inr a) => k a st'
    end.
Definition lift {A} (r : Result A) : M A := fun st => (st, r).
Definition log (c : Call) : M unit :=
  fun st => ({| entryProgress := entryProgress st; calls := calls st ++ [c] |}, Ok tt).

Declare Scope build_scope.
Delimit Scope build_scope with build.
Notation "x <~ m ;; k" :=
  (bind m (fun x => k))
  (at level 61, m at next level, right associativity) : build_scope.
Notation "' p <~ m ;; k" :=
  (bind m (fun x => match x with p => k end))
  (at level 61, p pattern, m at next level, right associativity) : build_scope.

(** The pipeline stored in [compressedStream].  [Pending source deflate] is
    [source] piped through the measurement transform, through the
    compression transform when [deflate] holds, and through the accounting
    transform; [Disturbed] is a stream that has been read. *)
Inductive Pipeline : Type :=
| Pending (source : list chunk) (deflate : bool)
| Disturbed.

Inductive BlobPart : Type :=
| part_view (v : DataView.t)
| part_bytes (a : list byte)
| part_blob (b : list byte).

Definition BlobPart_bytes (p : BlobPart) : list byte :=
  match p with
  | part_view v => DataView.bytes v
  | part_bytes a => a
  | part_blob b => b
  end.

(** [new Blob(parts)] *)
Definition Blob_of_parts (parts : list BlobPart) : list byte :=
  concat (map BlobPart_bytes parts).

Record ZipEntry : Type := mkZipEntry {
  rawName : list byte;
  flags : Z;
  method : Z;
  compressedSize : Z;
  uncompressedSize : Z;
  streamSizeGuess : Z;
  crc32 : Z;
  compressedStream : Pipeline;
  progressCallback : option (Z -> Z -> M unit)
}.

Definition set_uncompressedSize (e : ZipEntry) (v : Z) : ZipEntry :=
  mkZipEntry (rawName e) (flags e) (method e) (compressedSize e) v
             (streamSizeGuess e) (crc32 e) (compressedStream e) (progressCallback e).
Definition set_compressedSize (e : ZipEntry) (v : Z) : ZipEntry :=
  mkZipEntry (rawName e) (flags e) (method e) v (uncompressedSize e)
             (streamSizeGuess e) (crc32 e) (compressedStream e) (progressCallback e).
Definition set_crc32 (e : ZipEntry) (v : Z) : ZipEntry :=
  mkZipEntry (rawName e) (flags e) (method e) (compressedSize e) (uncompressedSize e)
             (streamSizeGuess e) v (compressedStream e) (progressCallback e).
Definition set_compressedStream (e : ZipEntry) (p : Pipeline) : ZipEntry :=
  mkZipEntry (rawName e) (flags e) (method e) (compressedSize e) (uncompressedSize e)
             (streamSizeGuess e) (crc32 e) p (progressCallback e).
Definition set_progressCallback (e : ZipEntry) (f : option (Z -> Z -> M unit)) : ZipEntry :=
  mkZipEntry (rawName e) (flags e) (method e) (compressedSize e) (uncompressedSize e)
             (streamSizeGuess e) (crc32 e) (compressedStream e) f.

Definition chunk_length (c : chunk) : Z := Z.of_nat (length c).

(** [transform] of the first [TransformStream] (measurement). *)
Definition measure (entry : ZipEntry) (c : chunk) : M ZipEntry :=
  (let entry := set_uncompressedSize entry (uncompressedSize entry + chunk_length c) in
   let totalBytes := JS.Math_max (streamSizeGuess entry) (uncompressedSize entry) in
   _ <~ match progressCallback entry with
        | Some callback => callback (uncompressedSize entry) totalBytes
        | None => ret tt
        end ;;
   ret (set_crc32 entry (Crc32.crc32 (crc32 entry) c)))%build.

(** [transform] of the last [TransformStream] (accounting). *)
Definition account (entry : ZipEntry) (c : chunk) : ZipEntry :=
  set_compressedSize entry (compressedSize entry + chunk_length c).

Fixpoint measure_all (entry : ZipEntry) (source : list chunk) : M ZipEntry :=
  match source with
  | [] => ret entry
  | c :: rest => (entry <~ measure entry c ;; measure_all entry rest)%build
  end.

(** The record header that [entryParts] fills in. *)
Definition localHeader (e : ZipEntry) : Result DataView.t :=
  (let pathLength := Z.of_nat (length (rawName e)) in
   let header := DataView.alloc 30 in
   header <- DataView.setUint32 header 0 0x04034b50 ;;
   header <- DataView.setUint16 header 4 0x0014 ;;
   header <- DataView.setUint16 header 6 (flags e) ;;
   header <- DataView.setUint16 header 8 (method e) ;;
   header <- DataView.setUint16 header 10 0x0000 ;;
   header <- DataView.setUint16 header 12 0x0000 ;;
   header <- DataView.setUint32 header 14 (crc32 e) ;;
   header <- DataView.setUint32 header 18 (compressedSize e) ;;
   header <- DataView.setUint32 header 22 (uncompressedSize e) ;;
   header <- DataView.setUint16 header 26 pathLength ;;
   header <- DataView.setUint16 header 28 0x0000 ;;
   Ok header)%result.

Definition entrySize (e : ZipEntry) : Z :=
  30 + Z.of_nat (length (rawName e)) + compressedSize e.

Definition directorySize (e : ZipEntry) : Z :=
  46 + Z.of_nat (length (rawName e)).

Definition directoryParts (e : ZipEntry) (entryHeaderOffset : Z)
  : Result (list BlobPart) :=
  (let header := DataView.alloc 46 in
   header <- DataView.setUint32 header 0 0x02014b50 ;;
   header <- DataView.setUint16 header 4 0x0014 ;;
   header <- DataView.setUint16 header 6 0x0014 ;;
   header <- DataView.setUint16 header 8 (flags e) ;;
   header <- DataView.setUint16 header 10 (method e) ;;
   header <- DataView.setUint16 header 12 0x0000 ;;
   header <- DataView.setUint16 header 14 0x0000 ;;
   header <- DataView.setUint32 header 16 (crc32 e) ;;
   header <- DataView.setUint32 header 20 (compressedSize e) ;;
   header <- DataView.setUint32 header 24 (uncompressedSize e) ;;
   header <- DataView.setUint16 header 28 (Z.of_nat (length (rawName e))) ;;
   header <- DataView.setUint16 header 30 0x0000 ;;
   header <- DataView.setUint16 header 32 0x0000 ;;
   header <- DataView.setUint16 header 34 0x0000 ;;
   header <- DataView.setUint16 header 36 0x0000 ;;
   header <- DataView.setUint32 header 38 0x00000000 ;;
   header <- DataView.setUint32 header 42 entryHeaderOffset ;;
   Ok [part_view header; part_bytes (rawName e)])%result.

(** The end of central directory record that [build] appends. *)
Definition footerRecord (entries_length directorySize offset : Z)
  : Result DataView.t :=
  (let footer := DataView.alloc 22 in
   footer <- DataView.setUint32 footer 0 0x06054b50 ;;
   footer <- DataView.setUint16 footer 4 0x0000 ;;
   footer <- DataView.setUint16 footer 6 0x0000 ;;
   footer <- DataView.setUint16 footer 8 entries_length ;;
   footer <- DataView.setUint16 footer 10 entries_length ;;
   footer <- DataView.setUint32 footer 12 directorySize ;;
   footer <- DataView.setUint32 footer 16 offset ;;
   footer <- DataView.setUint16 footer 20 0x0000 ;;
   Ok footer)%result.

(** The second loop of [build]: directory parts, [offset], [directorySize]. *)
Fixpoint directoryLoop (es : list ZipEntry) (offset directorySize_ : Z)
  : Result (list BlobPart * Z * Z) :=
  match es with
  | [] => Ok ([], offset, directorySize_)
  | entry :: rest =>
      (ps <- directoryParts entry offset ;;
       r <- directoryLoop rest (offset + entrySize entry)
                          (directorySize_ + directorySize entry) ;;
       let '(parts, offset', directorySize') := r in
       Ok (ps ++ parts, offset', directorySize'))%result
  end.

(** [Object.assign(entryProgress![index], { bytesWritten, totalBytes })] *)
Definition assignProgress (index : nat) (bytesWritten totalBytes : Z) : M unit :=
  fun st =>
    match entryProgress st with
    | None => (st, Throw TypeError)
    | Some table =>
        match nth_error table index with
        | None => (st, Throw TypeError)
        | Some _ =>
            ({| entryProgress :=
                  Some (firstn index table
                          ++ Progress.mk bytesWritten totalBytes
                          :: skipn (S index) table);
                calls := calls st |}, Ok tt)
        end
    end.

(** The two [reduce] calls; [entryProgress!] throws on [undefined]. *)
Definition progressTotals : M (Z * Z) :=
  fun st =>
    match entryProgress st with
    | None => (st, Throw TypeError)
    | Some table =>
        (st, Ok (fold_left (fun sum p => sum + Progress.bytesWritten p) table 0,
                 fold_left (fun sum p => sum + Progress.totalBytes p) table 0))
    end.

(** The closure that [build] stores in [entry.progressCallback]. *)
Definition buildProgressCallback (options : option BuildOptions.t) (index : nat)
           (bytesWritten totalBytes : Z) : M unit :=
  (_ <~ match options with
        | Some o => if BuildOptions.entryProgress o
                    then log (call_entryProgress index bytesWritten totalBytes)
                    else ret tt
        | None => ret tt
        end ;;
   _ <~ assignProgress index bytesWritten totalBytes ;;
   ' (totalBytesWritten, totalBytesExpected) <~ progressTotals ;;
   match options with
   | Some o => if BuildOptions.progress o
               then log (call_progress totalBytesWritten totalBytesExpected)
               else ret tt
   | None => ret tt
   end)%build.

Definition wants (options : option BuildOptions.t) (f : BuildOptions.t -> bool) : bool :=
  match options with
  | Some o => f o
  | None => false
  end.

Record ZipSource : Type := mkZipSource {
  stream : list chunk;
  expectedSize : option Z
}.

Record Response : Type := mkResponse {
  ok : bool;
  body : option (list chunk);
  headers_get : string -> option string
}.

Record ZipWriter : Type := mkZipWriter { entries : list ZipEntry }.

Section WithHost.
Context {host : Host}.

Definition toUtf8 (str : jsstring) : list byte := TextEncoder_encode str.

(** [new ZipEntry(name, stream, streamSizeGuess, options)] *)
Definition newZipEntry (name : jsstring) (stream_ : list chunk)
           (streamSizeGuess_ : option Z) (options : option ZipEntryOptions.t)
  : ZipEntry :=
  let streamSizeGuess_ := match streamSizeGuess_ with Some n => n | None => 0 end in
  let compressed :=
    match options with
    | Some o => match ZipEntryOptions.compressed o with Some b => b | None => true end
    | None => true
    end in
  {| rawName := toUtf8 name;
     flags := 0x0800;
     method := if compressed then 8 else 0;
     compressedSize := 0;
     uncompressedSize := 0;
     streamSizeGuess := streamSizeGuess_;
     crc32 := 0;
     compressedStream := Pending stream_ compressed;
     progressCallback := None |}.

(** [await new Response(this.compressedStream).blob()]: the whole pipeline
    runs, the entry's counters are updated, the stream is left disturbed. *)
Definition drain (entry : ZipEntry) : M (ZipEntry * list byte) :=
  match compressedStream entry with
  | Disturbed => throw TypeError
  | Pending source deflate =>
      (entry <~ measure_all entry source ;;
       let out := if deflate then CompressionStream source else source in
       let entry := fold_left account out entry in
       ret (set_compressedStream entry Disturbed, concat out))%build
  end.

Definition entryParts (entry : ZipEntry) : M (ZipEntry * list BlobPart) :=
  (' (entry, data) <~ drain entry ;;
   header <~ lift (localHeader entry) ;;
   ret (entry, [part_view header; part_bytes (rawName entry); part_blob data]))%build.

Definition ZipSource_fromBlob (blob : list byte) : ZipSource :=
  {| stream := Blob_stream blob; expectedSize := Some (Z.of_nat (length blob)) |}.

Definition ZipSource_fromString (data : jsstring) : ZipSource :=
  ZipSource_fromBlob (TextEncoder_encode data).

Definition ZipSource_fromResponse (response : Response) : Result ZipSource :=
  match body response with
  | None => Throw (JsError "Response body is missing")
  | Some body_ =>
      let contentLength := headers_get response "Content-Length"%string in
      match contentLength with
      | Some contentLength_ =>
          if negb (String.eqb contentLength_ "")
          then
            match parseInt contentLength_ with
            | None => Throw (JsError "Invalid Content-Length header")
            | Some contentLengthInt =>
                if contentLengthInt <? 0
                then Throw (JsError "Content-Length header is negative")
                else Ok {| stream := body_; expectedSize := Some contentLengthInt |}
            end
          else Ok {| stream := body_; expectedSize := None |}
      | None => Ok {| stream := body_; expectedSize := None |}
      end
  end.

Definition add (w : ZipWriter) (name : jsstring) (data : ZipSource)
           (options : option ZipEntryOptions.t) : ZipWriter :=
  {| entries := entries w
                ++ [newZipEntry name (stream data) (expectedSize data) options] |}.

Definition addString (w : ZipWriter) (name data : jsstring)
           (options : option ZipEntryOptions.t) : ZipWriter :=
  add w name (ZipSource_fromString data) options.

Definition addBlob (w : ZipWriter) (name : jsstring) (blob : list byte)
           (options : option ZipEntryOptions.t) : ZipWriter :=
  add w name (ZipSource_fromBlob blob) options.

Definition addResponse (w : ZipWriter) (name : jsstring) (response : Response)
           (options : option ZipEntryOptions.t) : Result ZipWriter :=
  (source <- ZipSource_fromResponse response ;;
   Ok (add w name source options))%result.

(** The first loop of [build]: every entry gets its callback and is
    drained.  The pipelines only share the [BuildState]; they are run one
    after the other in entry order, which is one of the interleavings that
    [Promise.all] admits, and the parts are collected in entry order. *)
Fixpoint entryPartsLoop (options : option BuildOptions.t) (index : nat)
         (es : list ZipEntry) : M (list ZipEntry * list BlobPart) :=
  match es with
  | [] => ret ([], [])
  | entry :: rest =>
      (let entry :=
         if wants options BuildOptions.progress
            || wants options BuildOptions.entryProgress
         then set_progressCallback entry (Some (buildProgressCallback options index))
         else entry in
       ' (entry, ps) <~ entryParts entry ;;
       ' (rest, parts) <~ entryPartsLoop options (S index) rest ;;
       ret (entry :: rest, ps ++ parts))%build
  end.

Definition build (w : ZipWriter) (options : option BuildOptions.t)
  : M (ZipWriter * list byte) :=
  fun st =>
    let entryProgress_ :=
      if wants options BuildOptions.progress
      then Some (map (fun entry => Progress.mk 0 (streamSizeGuess entry)) (entries w))
      else None in
    (' (es, parts) <~ entryPartsLoop options 0 (entries w) ;;
     ' (dirParts, offset, directorySize_) <~ lift (directoryLoop es 0 0) ;;
     footer <~ lift (footerRecord (Z.of_nat (length es)) directorySize_ offset) ;;
     ret ({| entries := es |},
          Blob_of_parts (parts ++ dirParts ++ [part_view footer])))%build
      {| entryProgress := entryProgress_; calls := calls st |}.

(** [await writer.build(options)] from a fresh log. *)
Definition runBuild (w : ZipWriter) (options : option BuildOptions.t)
  : BuildState * Result (ZipWriter * list byte) :=
  build w options {| entryProgress := None; calls := [] |}.

End WithHost.

End Write.

(** ** read.ts *)

(** JavaScript's rendering of an integral number inside a template string. *)
Definition Number_toString (n : Z) : string :=
  DecimalString.NilZero.string_of_int (Z.to_int n).

Module Read.

Definition fromUtf8 {host : Host} (data : list byte) : jsstring :=
  TextDecoder_decode data.

(** What a generator has produced when its consumer has run it to the end:
    the values yielded, in order, and the exception that ended it, if any. *)
Record Generated (A : Type) : Type := mkGenerated {
  yielded : list A;
  thrown : option Error
}.
Arguments mkGenerated {A}.
Arguments yielded {A}.
Arguments thrown {A}.

Definition yield {A} (a : A) (g : Generated A) : Generated A :=
  {| yielded := a :: yielded g; thrown := thrown g |}.

Module ZipData.
Record t : Type := mk { blob : list byte }.

Definition size (d : t) : Z := Z.of_nat (length (blob d)).

Definition slice (d : t) (offset size_ : Z) : list byte :=
  Blob_slice (blob d) offset (offset + size_).

Definition bytes (d : t) (offset size_ : Z) : list byte :=
  slice d offset size_.

Definition view (d : t) (offset size_ : Z) : DataView.t :=
  DataView.of_buffer (slice d offset size_).
End ZipData.

Module ZipFooter.
Definition SIGNATURE : Z := 0x06054b50.
Definition SIZE : Z := 22.

Record t : Type := mk {
  diskNumber : Z;
  diskStart : Z;
  diskEntries : Z;
  totalEntries : Z;
  directorySize : Z;
  directoryOffset : Z;
  commentLength : Z
}.

(** [new ZipFooter(view)] *)
Definition new (view : DataView.t) : Result t :=
  (signature <- DataView.getUint32 view 0 ;;
   if negb (signature =? SIGNATURE)
   then Throw (JsError "Invalid ZIP footer signature")
   else
     diskNumber_ <- DataView.getUint16 view 4 ;;
     diskStart_ <- DataView.getUint16 view 6 ;;
     diskEntries_ <- DataView.getUint16 view 8 ;;
     totalEntries_ <- DataView.getUint16 view 10 ;;
     directorySize_ <- DataView.getUint32 view 12 ;;
     directoryOffset_ <- DataView.getUint32 view 16 ;;
     commentLength_ <- DataView.getUint16 view 20 ;;
     Ok (mk diskNumber_ diskStart_ diskEntries_ totalEntries_
            directorySize_ directoryOffset_ commentLength_))%result.

(** The view that [read] hands to the constructor. *)
Definition footerView (data : ZipData.t) : DataView.t :=
  ZipData.view data (ZipData.size data - SIZE) SIZE.

Definition read (data : ZipData.t) : Result t :=
  new (footerView data).
End ZipFooter.

Module ZipDirectoryEntry.
Definition SIGNATURE : Z := 0x02014b50.
Definition SIZE : Z := 46.

Record t : Type := mk {
  versionCreated : Z;
  versionNeeded : Z;
  flags : Z;
  compressionMethod : Z;
  dosTime : Z;
  dosDate : Z;
  crc32 : Z;
  compressedSize : Z;
  uncompressedSize : Z;
  diskNumberStart : Z;
  internalFileAttributes : Z;
  externalFileAttributes : Z;
  relativeOffset : Z;
  rawName : list byte;
  rawExtraField : list byte;
  rawComment : list byte
}.

(** [new ZipDirectoryEntry(data, offset)] *)
Definition new (data : DataView.t) (offset : Z) : Result t :=
  (signature <- DataView.getUint32 data offset ;;
   if negb (signature =? SIGNATURE)
   then Throw (JsError ("Invalid ZIP directory entry signature at "
                          ++ Number_toString offset)%string)
   else
     versionCreated_ <- DataView.getUint16 data (offset + 4) ;;
     versionNeeded_ <- DataView.getUint16 data (offset + 6) ;;
     flags_ <- DataView.getUint16 data (offset + 8) ;;
     compressionMethod_ <- DataView.getUint16 data (offset + 10) ;;
     dosTime_ <- DataView.getUint16 data (offset + 12) ;;
     dosDate_ <- DataView.getUint16 data (offset + 14) ;;
     crc32_ <- DataView.getUint32 data (offset + 16) ;;
     compressedSize_ <- DataView.getUint32 data (offset + 20) ;;
     uncompressedSize_ <- DataView.getUint32 data (offset + 24) ;;
     fileNameLength <- DataView.getUint16 data (offset + 28) ;;
     extraFieldLength <- DataView.getUint16 data (offset + 30) ;;
     fileCommentLength <- DataView.getUint16 data (offset + 32) ;;
     diskNumberStart_ <- DataView.getUint16 data (offset + 34) ;;
     internalFileAttributes_ <- DataView.getUint16 data (offset + 36) ;;
     externalFileAttributes_ <- DataView.getUint32 data (offset + 38) ;;
     relativeOffset_ <- DataView.getUint32 data (offset + 42) ;;
     let sliceStart := DataView.byteOffset data + offset + SIZE in
     rawName_ <- Uint8Array_view (DataView.buffer data) sliceStart fileNameLength ;;
     let sliceStart := sliceStart + fileNameLength in
     rawExtraField_ <- Uint8Array_view (DataView.buffer data) sliceStart extraFieldLength ;;
     let sliceStart := sliceStart + extraFieldLength in
     rawComment_ <- Uint8Array_view (DataView.buffer data) sliceStart fileCommentLength ;;
     Ok (mk versionCreated_ versionNeeded_ flags_ compressionMethod_
            dosTime_ dosDate_ crc32_ compressedSize_ uncompressedSize_
            diskNumberStart_ internalFileAttributes_ externalFileAttributes_
            relativeOffset_ rawName_ rawExtraField_ rawComment_))%result.

Definition isDirectory (e : t) : bool :=
  match Uint8Array_get (rawName e) (Z.of_nat (length (rawName e)) - 1) with
  | Some b => byte.unsigned b =? 0x2f
  | None => false
  end
  && (uncompressedSize e =? 0).

Definition name {host : Host} (e : t) : jsstring := fromUtf8 (rawName e).

Definition comment {host : Host} (e : t) : jsstring := fromUtf8 (rawComment e).

Definition directoryEntrySize (e : t) : Z :=
  SIZE + Z.of_nat (length (rawName e)) + Z.of_nat (length (rawExtraField e))
  + Z.of_nat (length (rawComment e)).
End ZipDirectoryEntry.

Module ZipDirectory.
Record t : Type := mk {
  footer : ZipFooter.t;
  data : DataView.t
}.

Definition read (d : ZipData.t) : Result t :=
  (footer_ <- ZipFooter.read d ;;
   let dirView := ZipData.view d (ZipFooter.directoryOffset footer_)
                               (ZipFooter.directorySize footer_) in
   Ok (mk footer_ dirView))%result.

(** The [for] loop of [entries], from the cursor [dataOffset] on.  Every
    round moves the cursor forward by at least [SIZE], so the loop's rounds
    are bounded by the bytes left; [fuel] counts them, and [None] is only
    returned when it runs out (see [entriesFrom_total]). *)
Fixpoint entriesFrom (fuel : nat) (data_ : DataView.t) (dataOffset : Z)
  : option (Generated ZipDirectoryEntry.t) :=
  if dataOffset <? DataView.byteLength data_ then
    match fuel with
    | O => None
    | S fuel =>
        match ZipDirectoryEntry.new data_ dataOffset with
        | inl e => Some {| yielded := []; thrown := Some e |}
        | inr entry =>
            let dataOffset :=
              dataOffset + ZipDirectoryEntry.directoryEntrySize entry in
            option_map (yield entry) (entriesFrom fuel data_ dataOffset)
        end
    end
  else Some {| yielded := []; thrown := None |}.

Definition entries (dir : t) : option (Generated ZipDirectoryEntry.t) :=
  entriesFrom (Z.to_nat (DataView.byteLength (data dir))) (data dir) 0.
End ZipDirectory.

Module ZipLocalHeader.
Definition SIGNATURE : Z := 0x04034b50.
Definition SIZE : Z := 30.

Record t : Type := mk {
  versionNeeded : Z;
  flags : Z;
  method : Z;
  dosTime : Z;
  dosDate : Z;
  crc32 : Z;
  compressedSize : Z;
  uncompressedSize : Z;
  fileNameLength : Z;
  extraFieldLength : Z
}.

Definition fromData (data : DataView.t) (offset : Z) : Result t :=
  (signature <- DataView.getUint32 data offset ;;
   if negb (signature =? SIGNATURE)
   then Throw (JsError ("Invalid ZIP local header signature at "
                          ++ Number_toString offset)%string)
   else
     versionNeeded_ <- DataView.getUint16 data (offset + 4) ;;
     flags_ <- DataView.getUint16 data (offset + 6) ;;
     method_ <- DataView.getUint16 data (offset + 8) ;;
     dosTime_ <- DataView.getUint16 data (offset + 10) ;;
     dosDate_ <- DataView.getUint16 data (offset + 12) ;;
     crc32_ <- DataView.getUint32 data (offset + 14) ;;
     compressedSize_ <- DataView.getUint32 data (offset + 18) ;;
     uncompressedSize_ <- DataView.getUint32 data (offset + 22) ;;
     fileNameLength_ <- DataView.getUint16 data (offset + 26) ;;
     extraFieldLength_ <- DataView.getUint16 data (offset + 28) ;;
     Ok (mk versionNeeded_ flags_ method_ dosTime_ dosDate_ crc32_
            compressedSize_ uncompressedSize_ fileNameLength_ extraFieldLength_))%result.

Definition fromDirectoryEntry (entry : ZipDirectoryEntry.t) : t :=
  {| versionNeeded := ZipDirectoryEntry.versionNeeded entry;
     flags := ZipDirectoryEntry.flags entry;
     method := ZipDirectoryEntry.compressionMethod entry;
     dosTime := ZipDirectoryEntry.dosTime entry;
     dosDate := ZipDirectoryEntry.dosDate entry;
     crc32 := ZipDirectoryEntry.crc32 entry;
     compressedSize := ZipDirectoryEntry.compressedSize entry;
     uncompressedSize := ZipDirectoryEntry.uncompressedSize entry;
     fileNameLength := Z.of_nat (length (ZipDirectoryEntry.rawName entry));
     extraFieldLength := Z.of_nat (length (ZipDirectoryEntry.rawExtraField entry)) |}.

Definition size (h : t) : Z := SIZE + fileNameLength h + extraFieldLength h.
End ZipLocalHeader.

Module ZipEntry.
Record t : Type := mk {
  header : ZipLocalHeader.t;
  rawName : list byte;
  rawExtraField : list byte;
  compressedData : list byte
}.

Definition fromDirectoryEntry (data : ZipData.t) (entry : ZipDirectoryEntry.t) : t :=
  let header_ := ZipLocalHeader.fromDirectoryEntry entry in
  let compressedDataOffset :=
    ZipDirectoryEntry.relativeOffset entry + ZipLocalHeader.SIZE
    + Z.of_nat (length (ZipDirectoryEntry.rawName entry))
    + Z.of_nat (length (ZipDirectoryEntry.rawExtraField entry)) in
  let compressedData_ :=
    ZipData.slice data compressedDataOffset (ZipDirectoryEntry.compressedSize entry) in
  mk header_ (ZipDirectoryEntry.rawName entry)
     (ZipDirectoryEntry.rawExtraField entry) compressedData_.

Definition fromHeader (data : ZipData.t) (relativeOffset : Z)
           (header_ : ZipLocalHeader.t) : t :=
  let compressedDataOffset := relativeOffset + ZipLocalHeader.size header_ in
  let compressedData_ :=
    ZipData.slice data compressedDataOffset (ZipLocalHeader.compressedSize header_) in
  let rawPath :=
    ZipData.bytes data relativeOffset (ZipLocalHeader.fileNameLength header_) in
  let extraField :=
    ZipData.bytes data (relativeOffset + ZipLocalHeader.fileNameLength header_)
                  (ZipLocalHeader.extraFieldLength header_) in
  mk header_ rawPath extraField compressedData_.

Definition name {host : Host} (e : t) : jsstring := fromUtf8 (rawName e).

Definition compressedStream {host : Host} (e : t) : list chunk :=
  Blob_stream (compressedData e).

(** [None] is a stream that fails when it is read. *)
Definition uncompressedStream {host : Host} (e : t) : option (list chunk) :=
  if ZipLocalHeader.method (header e) =? 0
  then Some (Blob_stream (compressedData e))
  else DecompressionStream (Blob_stream (compressedData e)).
End ZipEntry.

Module ZipReader.
Record t : Type := mk { data : ZipData.t }.

(** [new ZipReader(data)] *)
Definition new (blob : list byte) : t := mk (ZipData.mk blob).

(** The asynchronous generator [entries], run to its end. *)
Definition entries (r : t) : option (Generated ZipEntry.t) :=
  match ZipDirectory.read (data r) with
  | inl e => Some {| yielded := []; thrown := Some e |}
  | inr dir =>
      option_map
        (fun g => {| yielded := map (ZipEntry.fromDirectoryEntry (data r)) (yielded g);
                     thrown := thrown g |})
        (ZipDirectory.entries dir)
  end.
End ZipReader.

End Read.

(** ** A small host, to run the model on concrete inputs

    Strings are given by their UTF-8 bytes, a blob is streamed as one chunk,
    the deflate transforms are the "stored block" identity, and [parseInt]
    reads an optionally signed decimal prefix. *)

Module SmallHost.

Definition is_digit (a : Ascii.ascii) : bool :=
  let n := Z.of_N (Ascii.N_of_ascii a) in (48 <=? n) && (n <=? 57).

Definition is_space (a : Ascii.ascii) : bool :=
  let n := Z.of_N (Ascii.N_of_ascii a) in (n =? 32) || ((9 <=? n) && (n <=? 13)).

Fixpoint digits (s : string) (acc : option Z) : option Z :=
  match s with
  | String a rest =>
      if is_digit a
      then digits rest
             (Some (10 * match acc with Some n => n | None => 0 end
                    + (Z.of_N (Ascii.N_of_ascii a) - 48)))
      else acc
  | EmptyString => acc
  end.

Fixpoint trimStart (s : string) : string :=
  match s with
  | String a rest => if is_space a then trimStart rest else s
  | EmptyString => s
  end.

Definition parseDecimal (s : string) : option Z :=
  match trimStart s with
  | String "-"%char rest => option_map Z.opp (digits rest None)
  | String "+"%char rest => digits rest None
  | t => digits t None
  end.

Definition stream_of (b : list byte) : list chunk :=
  match b with
  | [] => []
  | _ => [b]
  end.

#[export] Instance host : Host := {|
  jsstring := string;
  TextEncoder_encode := list_byte_of_string;
  TextDecoder_decode := string_of_list_byte;
  Blob_stream := stream_of;
  CompressionStream := fun source => source;
  DecompressionStream := fun compressed => Some compressed;
  parseInt := parseDecimal
|}.

End SmallHost.

(** The host of the snapshot test of [write.test.ts]: the platform's raw
    deflate turns the five bytes of ["World"] into [0b cf 2f ca 49 01 00]. *)
Module SnapshotHost.

Definition deflated_World : list byte :=
  [Byte.x0b; Byte.xcf; Byte.x2f; Byte.xca; Byte.x49; Byte.x01; Byte.x00].

#[export] Instance host : Host := {|
  jsstring := string;
  TextEncoder_encode := list_byte_of_string;
  TextDecoder_decode := string_of_list_byte;
  Blob_stream := SmallHost.stream_of;
  CompressionStream := fun source =>
    if list_eq_dec Byte.byte_eq_dec (concat source) (list_byte_of_string "World")
    then [deflated_World] else source;
  DecompressionStream := fun compressed =>
    if list_eq_dec Byte.byte_eq_dec (concat compressed) deflated_World
    then Some [list_byte_of_string "World"] else Some compressed;
  parseInt := SmallHost.parseDecimal
|}.

Definition expectedHex : string :=
  ("504b030414000008080000000000473eb6fb070000000500000005000000" ++
   "68656c6c6f0bcf2fca490100504b0102140014000008080000000000473e" ++
   "b6fb07000000050000000500000000000000000000000000000000006865" ++
   "6c6c6f504b05060000000001000100330000002a0000000000")%string.

Definition hexdigit (a : Ascii.ascii) : Z :=
  let n := Z.of_N (Ascii.N_of_ascii a) in
  if n <? 58 then n - 48 else n - 87.

Fixpoint parseHex (s : string) : list byte :=
  match s with
  | String hi (String lo rest) =>
      byte.of_Z (16 * hexdigit hi + hexdigit lo) :: parseHex rest
  | _ => []
  end.

Definition expected : list byte := parseHex expectedHex.

End SnapshotHost.

Definition empty_writer : Write.ZipWriter := {| Write.entries := [] |}.

(** ** The records as flat byte sequences

    The three headers are filled field by field in the sources; the fields
    tile the buffers, so each header is the concatenation of its fields
    (lemmas [localHeader_layout], [directoryParts_layout], [footerRecord_layout]). *)

Definition localHeaderBytes (e : Write.ZipEntry) : list byte :=
  le_split 4 0x04034b50 ++ le_split 2 0x0014 ++ le_split 2 (Write.flags e)
  ++ le_split 2 (Write.method e) ++ le_split 2 0 ++ le_split 2 0
  ++ le_split 4 (Write.crc32 e) ++ le_split 4 (Write.compressedSize e)
  ++ le_split 4 (Write.uncompressedSize e)
  ++ le_split 2 (Z.of_nat (length (Write.rawName e))) ++ le_split 2 0.

Definition directoryHeaderBytes (e : Write.ZipEntry) (entryHeaderOffset : Z) : list byte :=
  le_split 4 0x02014b50 ++ le_split 2 0x0014 ++ le_split 2 0x0014
  ++ le_split 2 (Write.flags e) ++ le_split 2 (Write.method e)
  ++ le_split 2 0 ++ le_split 2 0
  ++ le_split 4 (Write.crc32 e) ++ le_split 4 (Write.compressedSize e)
  ++ le_split 4 (Write.uncompressedSize e)
  ++ le_split 2 (Z.of_nat (length (Write.rawName e)))
  ++ le_split 2 0 ++ le_split 2 0 ++ le_split 2 0 ++ le_split 2 0
  ++ le_split 4 0 ++ le_split 4 entryHeaderOffset.

Definition footerBytes (entries_length directorySize offset : Z) : list byte :=
  le_split 4 0x06054b50 ++ le_split 2 0 ++ le_split 2 0
  ++ le_split 2 entries_length ++ le_split 2 entries_length
  ++ le_split 4 directorySize ++ le_split 4 offset ++ le_split 2 0.

(** Sums of [entrySize] and [directorySize] over a list of entries. *)
Definition sumEntrySize (es : list Write.ZipEntry) : Z :=
  fold_right (fun e sum => Write.entrySize e + sum) 0 es.

Definition sumDirectorySize (es : list Write.ZipEntry) : Z :=
  fold_right (fun e sum => Write.directorySize e + sum) 0 es.

(** The number of bytes that flow through a stream. *)
Definition totalLength (cs : list chunk) : Z := Z.of_nat (length (concat cs)).

(** The fields of an entry that no pipeline stage writes. *)
Definition sameIdentity (e e' : Write.ZipEntry) : Prop :=
  Write.rawName e' = Write.rawName e
  /\ Write.flags e' = Write.flags e
  /\ Write.method e' = Write.method e
  /\ Write.streamSizeGuess e' = Write.streamSizeGuess e.

(** The chunks that leave the pipeline of an entry. *)
Definition pipelineOutput {host : Host} (source : list chunk) (deflate : bool)
  : list chunk :=
  if deflate then CompressionStream source else source.

(** ** Sample inputs *)

Definition freshState : Write.BuildState :=
  {| Write.entryProgress := None; Write.calls := [] |}.

Definition storedOption : option Write.ZipEntryOptions.t :=
  Some {| Write.ZipEntryOptions.compressed := Some false |}.

(** The entry that [addString("hello", "World", options)] creates on [SmallHost]. *)
Definition helloEntry (options : option Write.ZipEntryOptions.t) : Write.ZipEntry :=
  Write.newZipEntry (host := SmallHost.host) "hello"%string
                    [list_byte_of_string "World"] (Some 5) options.

(** The last [n] bytes of a byte source. *)
Definition lastBytes (n : nat) (src : list byte) : list byte :=
  skipn (length src - n) src.

(** A directory entry whose name is empty and whose size is zero. *)
Definition namelessEntry : Read.ZipDirectoryEntry.t :=
  Read.ZipDirectoryEntry.mk 20 20 0x0800 0 0 0 0 0 0 0 0 0 0 [] [] [].

(** Twenty-two zero bytes: a source that ends without a footer signature. *)
Definition zeroSource : list byte := repeat Byte.x00 22.

(** ** The central directory as a byte layout *)

(** The little-endian field of [n] bytes at byte [k] of a header. *)
Definition field (n : nat) (header : list byte) (k : nat) : Z :=
  le_combine (firstn n (skipn k header)).

(** The entry that a 46-byte header and the three byte strings after it
    stand for. *)
Definition decodeDirectoryEntry (header name extra comment : list byte)
  : Read.ZipDirectoryEntry.t :=
  Read.ZipDirectoryEntry.mk
    (field 2 header 4) (field 2 header 6) (field 2 header 8) (field 2 header 10)
    (field 2 header 12) (field 2 header 14) (field 4 header 16)
    (field 4 header 20) (field 4 header 24) (field 2 header 34)
    (field 2 header 36) (field 4 header 38) (field 4 header 42)
    name extra comment.

(** [DirectoryLayout blob es]: [blob] is the concatenation of the records of
    [es]; every record is a 46-byte header that starts with the signature,
    followed by the name, the extra field and the comment, whose lengths
    the header gives at bytes 28, 30 and 32. *)
Inductive DirectoryLayout : list byte -> list Read.ZipDirectoryEntry.t -> Prop :=
| layout_end : DirectoryLayout [] []
| layout_entry header name extra comment rest es :
    length header = 46%nat ->
    field 4 header 0 = Read.ZipDirectoryEntry.SIGNATURE ->
    field 2 header 28 = Z.of_nat (length name) ->
    field 2 header 30 = Z.of_nat (length extra) ->
    field 2 header 32 = Z.of_nat (length comment) ->
    DirectoryLayout rest es ->
    DirectoryLayout (header ++ name ++ extra ++ comment ++ rest)
                    (decodeDirectoryEntry header name extra comment :: es).

(** A well-formed central directory blob. *)
Definition WellFormedDirectory (blob : list byte) : Prop :=
  exists es, DirectoryLayout blob es.

(** The cursor after the entries [es] have been read. *)
Definition cursorAfter (es : list Read.ZipDirectoryEntry.t) : Z :=
  fold_right (fun e sum => Read.ZipDirectoryEntry.directoryEntrySize e + sum) 0 es.

(** The central directory of the snapshot archive: one record for ["hello"]. *)
Definition snapshotDirectoryHeader : list byte :=
  firstn 46 (skipn 42 SnapshotHost.expected).

Definition snapshotDirectory : list byte :=
  snapshotDirectoryHeader ++ list_byte_of_string "hello" ++ [] ++ [] ++ [].

Definition anyFooter : Read.ZipFooter.t :=
  Read.ZipFooter.mk 0 0 1 1 51 42 0.

(** ** Conditions and inputs for [ZipSource.fromResponse] and [build] *)

(** [fromResponse] throws. *)
Definition raises {A} (r : Result A) : Prop := exists e, r = Throw e.

(** The specification's condition for [fromResponse] to raise, in its words:
    the body is missing, or the Content-Length header is present but
    unparsable or negative, or the response indicates failure. *)
Definition specifiedToRaise {host : Host} (response : Write.Response) : Prop :=
  Write.body response = None
  \/ (exists s, Write.headers_get response "Content-Length"%string = Some s
                /\ (parseInt s = None \/ exists n, parseInt s = Some n /\ n < 0))
  \/ Write.ok response = false.

(** The condition that the code of [fromResponse] tests. *)
Definition rejectedByFromResponse {host : Host} (response : Write.Response) : Prop :=
  Write.body response = None
  \/ (exists s, Write.headers_get response "Content-Length"%string = Some s
                /\ s <> ""%string
                /\ (parseInt s = None \/ exists n, parseInt s = Some n /\ n < 0)).

(** A 404 response with a body and no Content-Length header. *)
Definition notFoundResponse : Write.Response :=
  {| Write.ok := false;
     Write.body := Some [list_byte_of_string "Not Found"];
     Write.headers_get := fun _ => None |}.

(** A successful response that declares 5 bytes. *)
Definition worldResponse : Write.Response :=
  {| Write.ok := true;
     Write.body := Some [list_byte_of_string "World"];
     Write.headers_get := fun name =>
       if String.eqb name "Content-Length" then Some "5"%string else None |}.

Definition entryProgressOnly : option Write.BuildOptions.t :=
  Some {| Write.BuildOptions.progress := false;
          Write.BuildOptions.entryProgress := true |}.

(** [writer.addString("a", "x")] on [SmallHost]. *)
Definition oneEntryWriter : Write.ZipWriter :=
  Write.addString (host := SmallHost.host) empty_writer "a"%string "x"%string None.

(** ** Archives as byte layouts *)

(** One call of [add]: a name, a source and the entry options. *)
Record Item {host : Host} : Type := mkItem {
  item_name : jsstring;
  item_source : Write.ZipSource;
  item_options : option Write.ZipEntryOptions.t
}.

(** The value of [options?.compressed ?? true]. *)
Definition isCompressed (options : option Write.ZipEntryOptions.t) : bool :=
  match options with
  | Some o => match Write.ZipEntryOptions.compressed o with
              | Some b => b
              | None => true
              end
  | None => true
  end.

Definition newEntryOf {host : Host} (it : Item) : Write.ZipEntry :=
  Write.newZipEntry (item_name it) (Write.stream (item_source it))
                    (Write.expectedSize (item_source it)) (item_options it).

(** The writer after [add] has been called for every item, in order. *)
Definition writerOf {host : Host} (items : list Item) : Write.ZipWriter :=
  fold_left (fun w it => Write.add w (item_name it) (item_source it) (item_options it))
            items empty_writer.

(** The bytes that the source of an item holds, and the bytes its pipeline emits. *)
Definition itemContent {host : Host} (it : Item) : list byte :=
  concat (Write.stream (item_source it)).

Definition itemData {host : Host} (it : Item) : list byte :=
  concat (pipelineOutput (Write.stream (item_source it)) (isCompressed (item_options it))).

(** Local header, name and data of every entry, in order. *)
Fixpoint entriesBytes (es : list Write.ZipEntry) (datas : list (list byte)) : list byte :=
  match es, datas with
  | e :: es, data :: datas =>
      (localHeaderBytes e ++ Write.rawName e ++ data) ++ entriesBytes es datas
  | _, _ => []
  end.

(** The central directory written for [es] when the first entry is at [offset]. *)
Fixpoint directoryBytes (es : list Write.ZipEntry) (offset : Z) : list byte :=
  match es with
  | [] => []
  | e :: es =>
      directoryHeaderBytes e offset ++ Write.rawName e
      ++ directoryBytes es (offset + Write.entrySize e)
  end.

Definition archiveBytes (es : list Write.ZipEntry) (datas : list (list byte)) : list byte :=
  entriesBytes es datas ++ directoryBytes es 0
  ++ footerBytes (Z.of_nat (length es)) (sumDirectorySize es) (sumEntrySize es).

(** What draining leaves in the entry created for an item. *)
Definition drainedFrom {host : Host} (it : Item) (e : Write.ZipEntry) : Prop :=
  Write.rawName e = Write.toUtf8 (item_name it)
  /\ Write.flags e = 0x0800
  /\ Write.method e = (if isCompressed (item_options it) then 8 else 0)
  /\ Write.compressedSize e = Z.of_nat (length (itemData it))
  /\ Write.uncompressedSize e = Z.of_nat (length (itemContent it))
  /\ Write.crc32 e = Crc32.crc32 0 (itemContent it).

(** The entry's [compressedSize] is the length of its data. *)
Definition sizedAs (e : Write.ZipEntry) (data : list byte) : Prop :=
  Write.compressedSize e = Z.of_nat (length data).

(** The two entries of the round-trip test of [round-trip.test.ts]. *)
Definition twoFiles : list (Item (host := SmallHost.host)) :=
  [ @mkItem SmallHost.host "file1.txt"%string
      (Write.ZipSource_fromString (host := SmallHost.host) "Hello, world!"%string)
      None;
    @mkItem SmallHost.host "file2.txt"%string
      (Write.ZipSource_fromString (host := SmallHost.host) "Goodbye, world!"%string)
      None ].

(** What [build] returns for them. *)
Definition twoFilesBuilt
  : Write.BuildState * Result (Write.ZipWriter * list byte) :=
  Eval vm_compute in
    Write.build (host := SmallHost.host) (writerOf twoFiles) None freshState.

(** Four gibibytes of zeros, and an archive that stores them before a second,
    empty entry. *)
Definition fourGiB : list byte := repeat Byte.x00 (Z.to_nat 4294967296).

Definition hugeItems : list (Item (host := SmallHost.host)) :=
  [ @mkItem SmallHost.host "a"%string
      {| Write.stream := [fourGiB]; Write.expectedSize := None |} storedOption;
    @mkItem SmallHost.host "b"%string
      {| Write.stream := []; Write.expectedSize := None |} storedOption ].

(** ** Reading back what was written *)

(** The directory entry that the reader decodes from the record written for
    [e] with local-header offset [offset]. *)
Definition readBack (e : Write.ZipEntry) (offset : Z) : Read.ZipDirectoryEntry.t :=
  decodeDirectoryEntry (directoryHeaderBytes e offset) (Write.rawName e) [] [].

Fixpoint readBackAll (es : list Write.ZipEntry) (offset : Z)
  : list Read.ZipDirectoryEntry.t :=
  match es with
  | [] => []
  | e :: es => readBack e offset :: readBackAll es (offset + Write.entrySize e)
  end.

(** What a consumer of the reader keeps of an entry: its name and the bytes
    of its uncompressed stream ([None] when that stream fails). *)
Definition collectEntry {host : Host} (e : Read.ZipEntry.t)
  : jsstring * option (list byte) :=
  (Read.ZipEntry.name e, option_map (@concat byte) (Read.ZipEntry.uncompressedStream e)).

Definition collected {host : Host} (g : Read.Generated Read.ZipEntry.t)
  : list (jsstring * option (list byte)) :=
  map collectEntry (Read.yielded g).

(** The (name, content) pairs that were written. *)
Definition written {host : Host} (items : list Item)
  : list (jsstring * option (list byte)) :=
  map (fun it => (item_name it, Some (itemContent it))) items.

(** A name survives the host's UTF-8 encoder and decoder, and its encoding
    fits the 16-bit length field. *)
Definition nameFits {host : Host} (it : Item) : Prop :=
  TextDecoder_decode (TextEncoder_encode (item_name it)) = item_name it
  /\ Z.of_nat (length (TextEncoder_encode (item_name it))) < 2 ^ 16.

(** An entry whose name takes 65536 bytes, one more than the 16-bit name
    length field can hold. *)
Definition longName : string := string_of_list_byte (repeat Byte.x61 (Z.to_nat 65536)).

Definition longNameItems : list (Item (host := SmallHost.host)) :=
  [ @mkItem SmallHost.host longName
      (Write.ZipSource_fromString (host := SmallHost.host) ""%string) None ].

(** The archive that [build] returns for it. *)
Definition longNameArchive : list byte :=
  match snd (Write.runBuild (host := SmallHost.host) (writerOf longNameItems) None) with
  | inr (_, blob) => blob
  | inl _ => []
  end.

(** The bytes of [localEntryBytes] in [read.test.ts]. *)
Definition localEntryBytes : list byte :=
  SnapshotHost.parseHex
    ("504b0304" ++ "1400" ++ "0000" ++ "0800" ++ "1c7d" ++ "4b35" ++ "a6e1907d"
     ++ "45000000" ++ "4a000000" ++ "0500" ++ "1500" ++ "66696c6531"
     ++ "5554090003c7482d45c7482d45" ++ "55780400f501f501")%string.

(** ** Records that the reader decodes from a written archive *)

(** The footer that 22 bytes stand for. *)
Definition decodeFooter (bytes : list byte) : Read.ZipFooter.t :=
  Read.ZipFooter.mk (field 2 bytes 4) (field 2 bytes 6) (field 2 bytes 8)
                    (field 2 bytes 10) (field 4 bytes 12) (field 4 bytes 16)
                    (field 2 bytes 20).

(** The local header that [entryParts] writes for a drained entry, as
    [ZipLocalHeader.fromData] decodes it. *)
Definition localHeaderOf (e : Write.ZipEntry) : Read.ZipLocalHeader.t :=
  {| Read.ZipLocalHeader.versionNeeded := 0x14;
     Read.ZipLocalHeader.flags := Write.flags e mod 2 ^ 16;
     Read.ZipLocalHeader.method := Write.method e mod 2 ^ 16;
     Read.ZipLocalHeader.dosTime := 0;
     Read.ZipLocalHeader.dosDate := 0;
     Read.ZipLocalHeader.crc32 := Write.crc32 e mod 2 ^ 32;
     Read.ZipLocalHeader.compressedSize := Write.compressedSize e mod 2 ^ 32;
     Read.ZipLocalHeader.uncompressedSize := Write.uncompressedSize e mod 2 ^ 32;
     Read.ZipLocalHeader.fileNameLength := Z.of_nat (length (Write.rawName e)) mod 2 ^ 16;
     Read.ZipLocalHeader.extraFieldLength := 0 |}.

(** The encoded name of an item fits the 16-bit length field. *)
Definition nameIsShort {host : Host} (it : Item) : Prop :=
  Z.of_nat (length (TextEncoder_encode (item_name it))) < 2 ^ 16.

(** The directory entry [d] that the reader decodes describes the item [it]. *)
Definition catalogues {host : Host} (it : Item) (d : Read.ZipDirectoryEntry.t) : Prop :=
  Read.ZipDirectoryEntry.versionCreated d = 0x14
  /\ Read.ZipDirectoryEntry.versionNeeded d = 0x14
  /\ Read.ZipDirectoryEntry.flags d = 0x0800
  /\ Read.ZipDirectoryEntry.compressionMethod d
     = (if isCompressed (item_options it) then 8 else 0)
  /\ Read.ZipDirectoryEntry.dosTime d = 0
  /\ Read.ZipDirectoryEntry.dosDate d = 0
  /\ Read.ZipDirectoryEntry.crc32 d = Crc32.reference_crc32 (itemContent it)
  /\ Read.ZipDirectoryEntry.compressedSize d = Z.of_nat (length (itemData it))
  /\ Read.ZipDirectoryEntry.uncompressedSize d
     = Z.of_nat (length (itemContent it)) mod 2 ^ 32
  /\ Read.ZipDirectoryEntry.diskNumberStart d = 0
  /\ Read.ZipDirectoryEntry.internalFileAttributes d = 0
  /\ Read.ZipDirectoryEntry.externalFileAttributes d = 0
  /\ Read.ZipDirectoryEntry.rawName d = TextEncoder_encode (item_name it)
  /\ Read.ZipDirectoryEntry.rawExtraField d = []
  /\ Read.ZipDirectoryEntry.rawComment d = [].

(** A source of 22 bytes that is a footer with a comment length, disk numbers
    and counts that no archive written here has. *)
Definition oddFooter : list byte :=
  le_split 4 0x06054b50 ++ le_split 2 7 ++ le_split 2 9 ++ le_split 2 3
  ++ le_split 2 5 ++ le_split 4 1000 ++ le_split 4 2000 ++ le_split 2 11.

(** ** Bytes that are no central directory record *)

(** [bytes] starts with a complete record: at least 46 bytes that begin
    with the signature, and as many more as the three lengths at bytes 28,
    30 and 32 declare. *)
Definition recordFits (bytes : list byte) : bool :=
  (46 <=? Z.of_nat (length bytes))
  && (field 4 bytes 0 =? Read.ZipDirectoryEntry.SIGNATURE)
  && (46 + field 2 bytes 28 + field 2 bytes 30 + field 2 bytes 32
      <=? Z.of_nat (length bytes)).

(** What the constructor of [ZipDirectoryEntry] throws at [offset] when
    [bytes], the bytes from there on, hold no complete record. *)
Definition recordError (offset : Z) (bytes : list byte) : Error :=
  if (4 <=? Z.of_nat (length bytes))
     && negb (field 4 bytes 0 =? Read.ZipDirectoryEntry.SIGNATURE)
  then JsError ("Invalid ZIP directory entry signature at "
                  ++ Number_toString offset)%string
  else RangeError.

(** The first two bytes of a record, cut off. *)
Definition cutRecord : list byte := [Byte.x50; Byte.x4b].

(** ** The reports that [build] makes to the caller's callbacks *)

(** The value of the parameter [streamSizeGuess] for an item. *)
Definition guessOf {host : Host} (it : Item) : Z :=
  match Write.expectedSize (item_source it) with
  | Some n => n
  | None => 0
  end.

(** The table [entryProgress] with element [index] replaced. *)
Definition setProgress (index : nat) (p : Write.Progress.t)
           (table : list Write.Progress.t) : list Write.Progress.t :=
  firstn index table ++ p :: skipn (S index) table.

Definition writtenSum (table : list Write.Progress.t) : Z :=
  fold_left (fun sum p => sum + Write.Progress.bytesWritten p) table 0.

Definition expectedSum (table : list Write.Progress.t) : Z :=
  fold_left (fun sum p => sum + Write.Progress.totalBytes p) table 0.

(** The calls that the chunks of one entry cause, and the table after them. *)
Fixpoint chunkReports (o : Write.BuildOptions.t) (index : nat) (guess written : Z)
         (table : list Write.Progress.t) (source : list chunk)
  : list Write.Call * list Write.Progress.t :=
  match source with
  | [] => ([], table)
  | c :: rest =>
      let written := written + Write.chunk_length c in
      let total := Z.max guess written in
      let table := setProgress index (Write.Progress.mk written total) table in
      let r := chunkReports o index guess written table rest in
      ((if Write.BuildOptions.entryProgress o
        then [Write.call_entryProgress index written total]
        else [])
       ++ Write.call_progress (writtenSum table) (expectedSum table) :: fst r,
       snd r)
  end.

(** The calls that the entries from [index] on cause, one entry after the other. *)
Fixpoint itemReports {host : Host} (o : Write.BuildOptions.t) (index : nat)
         (table : list Write.Progress.t) (items : list Item) : list Write.Call :=
  match items with
  | [] => []
  | it :: rest =>
      let r := chunkReports o index (guessOf it) 0 table
                            (Write.stream (item_source it)) in
      fst r ++ itemReports o (S index) (snd r) rest
  end.

Definition progressReports {host : Host} (o : Write.BuildOptions.t)
           (items : list Item) : list Write.Call :=
  itemReports o 0 (map (fun it => Write.Progress.mk 0 (guessOf it)) items) items.

(** The options of a caller that passes both callbacks. *)
Definition bothCallbacks : Write.BuildOptions.t :=
  {| Write.BuildOptions.progress := true; Write.BuildOptions.entryProgress := true |}.




(** The bytes that the sources of the items hold, and their chunks in order. *)
Definition contentSize {host : Host} (items : list Item) : Z :=
  fold_right (fun it sum => Z.of_nat (length (itemContent it)) + sum) 0 items.



(** ** When [build] fails *)

(** The source of the item delivers at least one chunk. *)
Definition hasChunk {host : Host} (it : Item) : bool :=
  match Write.stream (item_source it) with
  | [] => false
  | _ :: _ => true
  end.

(** [entryProgress] is given without [progress], and some source delivers
    a chunk. *)
Definition buildFails {host : Host} (options : option Write.BuildOptions.t)
           (items : list Item) : bool :=
  negb (Write.wants options Write.BuildOptions.progress)
  && Write.wants options Write.BuildOptions.entryProgress
  && existsb hasChunk items.



(** ** examples: createZip.ts

    The caller of the writer in the example application.  [fetch] is the
    host's function, a rejected promise being a [Throw]; [failedToFetch url
    res] is the text of the template string
    [`Failed to fetch ${entry.content}: ${res.statusText}`]. *)

Module CreateZip.

Inductive Entry {host : Host} : Type :=
| FileEntry (id : Z) (path : jsstring) (content : option (list byte)) (compressed : bool)
| TextEntry (id : Z) (path : jsstring) (content : jsstring) (compressed : bool)
| UrlEntry (id : Z) (path : jsstring) (content : jsstring) (compressed : bool).

Section WithHost.
Context {host : Host}.
Variable fetch : jsstring -> Result Write.Response.
Variable failedToFetch : jsstring -> Write.Response -> string.

(** [{ compressed: entry.compressed }] *)
Definition entryOptions (compressed : bool) : option Write.ZipEntryOptions.t :=
  Some {| Write.ZipEntryOptions.compressed := Some compressed |}.

(** One round of the [for] loop. *)
Definition addEntry (writer : Write.ZipWriter) (entry : Entry)
  : Result Write.ZipWriter :=
  match entry with
  | FileEntry _ path content compressed =>
      Ok (Write.addBlob writer path
                        (match content with Some blob => blob | None => [] end)
                        (entryOptions compressed))
  | TextEntry _ path content compressed =>
      Ok (Write.addString writer path content (entryOptions compressed))
  | UrlEntry _ path content compressed =>
      (res <- fetch content ;;
       if negb (Write.ok res)
       then Throw (JsError (failedToFetch content res))
       else Write.addResponse writer path res (entryOptions compressed))%result
  end.

Fixpoint addEntries (writer : Write.ZipWriter) (entries : list Entry)
  : Result Write.ZipWriter :=
  match entries with
  | [] => Ok writer
  | entry :: rest =>
      (writer <- addEntry writer entry ;; addEntries writer rest)%result
  end.

Definition createZip (entries : list Entry) (options : option Write.BuildOptions.t)
  : Write.M (list byte) :=
  fun st =>
    match addEntries empty_writer entries with
    | inl e => (st, Throw e)
    | inr writer =>
        let (st', r) := Write.build writer options st in
        (st', (built <- r ;; Ok (snd built))%result)
    end.

End WithHost.
End CreateZip.

(** The path of an entry, and the bytes that it asks to be archived. *)
Definition entryPath {host : Host} (e : CreateZip.Entry) : jsstring :=
  match e with
  | CreateZip.FileEntry _ path _ _ => path
  | CreateZip.TextEntry _ path _ _ => path
  | CreateZip.UrlEntry _ path _ _ => path
  end.

Definition entryCompressed {host : Host} (e : CreateZip.Entry) : bool :=
  match e with
  | CreateZip.FileEntry _ _ _ compressed => compressed
  | CreateZip.TextEntry _ _ _ compressed => compressed
  | CreateZip.UrlEntry _ _ _ compressed => compressed
  end.

Definition entryContent {host : Host} (fetch : jsstring -> Result Write.Response)
           (e : CreateZip.Entry) : list byte :=
  match e with
  | CreateZip.FileEntry _ _ (Some blob) _ => blob
  | CreateZip.FileEntry _ _ None _ => []
  | CreateZip.TextEntry _ _ content _ => TextEncoder_encode content
  | CreateZip.UrlEntry _ _ url _ =>
      match fetch url with
      | inr res => match Write.body res with
                   | Some body => concat body
                   | None => []
                   end
      | inl _ => []
      end
  end.

(** The source that the writer is given for an entry. *)
Definition entrySource {host : Host} (fetch : jsstring -> Result Write.Response)
           (e : CreateZip.Entry) : Write.ZipSource :=
  match e with
  | CreateZip.FileEntry _ _ (Some blob) _ => Write.ZipSource_fromBlob blob
  | CreateZip.FileEntry _ _ None _ => Write.ZipSource_fromBlob []
  | CreateZip.TextEntry _ _ content _ => Write.ZipSource_fromString content
  | CreateZip.UrlEntry _ _ url _ =>
      match fetch url with
      | inr res => match Write.ZipSource_fromResponse res with
                   | inr source => source
                   | inl _ => {| Write.stream := []; Write.expectedSize := None |}
                   end
      | inl _ => {| Write.stream := []; Write.expectedSize := None |}
      end
  end.

Definition itemOfEntry {host : Host} (fetch : jsstring -> Result Write.Response)
           (e : CreateZip.Entry) : Item :=
  @mkItem host (entryPath e) (entrySource fetch e)
          (CreateZip.entryOptions (entryCompressed e)).

(** The fetch of a URL entry succeeds with a response that the writer accepts. *)
Definition fetched {host : Host} (fetch : jsstring -> Result Write.Response)
           (e : CreateZip.Entry) : Prop :=
  match e with
  | CreateZip.UrlEntry _ _ url _ =>
      exists res source,
        fetch url = Ok res /\ Write.ok res = true
        /\ Write.ZipSource_fromResponse res = Ok source
  | _ => True
  end.

(** The exception that a URL causes: the one of [fetch], the report of a
    response that is not ok, or the one of [ZipSource.fromResponse]. *)
Definition rejectedWith {host : Host} (fetch : jsstring -> Result Write.Response)
           (failedToFetch : jsstring -> Write.Response -> string)
           (url : jsstring) (err : Error) : Prop :=
  match fetch url with
  | inl e => err = e
  | inr res =>
      if Write.ok res
      then Write.ZipSource_fromResponse res = Throw err
      else err = JsError (failedToFetch url res)
  end.

(** Sample entries on [SmallHost]: a text, a missing file and a URL, with a
    [fetch] that answers every URL with [worldResponse], and one that
    answers with [notFoundResponse]. *)
Definition sampleEntries : list (CreateZip.Entry (host := SmallHost.host)) :=
  [ CreateZip.TextEntry (host := SmallHost.host) 1 "a.txt"%string "hello"%string true;
    CreateZip.FileEntry (host := SmallHost.host) 2 "b.bin"%string None false;
    CreateZip.UrlEntry (host := SmallHost.host) 3 "c.txt"%string "/world"%string true ].

Definition fetchWorld (url : string) : Result Write.Response := Ok worldResponse.

Definition fetchNotFound (url : string) : Result Write.Response := Ok notFoundResponse.

Definition sampleMessage (url : string) (res : Write.Response) : string :=
  ("Failed to fetch " ++ url ++ ": Not Found")%string.

(** * Properties *)

(** ** 32-bit conversions *)

Lemma ToInt32_range z : - 2 ^ 31 <= JS.ToInt32 z < 2 ^ 31.
Proof.
  unfold JS.ToInt32.
  pose proof (Z.mod_pos_bound z (2 ^ 32) eq_refl).
  destruct (Z.ltb_spec (z mod 2 ^ 32) (2 ^ 31)); lia.
Qed.

Lemma ToInt32_small z : - 2 ^ 31 <= z < 2 ^ 31 -> JS.ToInt32 z = z.
Proof.
  intros Hz. unfold JS.ToInt32.
  destruct (Z.ltb_spec (z mod 2 ^ 32) (2 ^ 31)) as [H | H].
  - destruct (Z.lt_ge_cases z 0).
    + rewrite <- (Z.mod_add z 1 (2 ^ 32)) in H by lia.
      rewrite Z.mod_small in H; lia.
    + apply Z.mod_small; lia.
  - destruct (Z.lt_ge_cases z 0).
    + rewrite <- (Z.mod_add z 1 (2 ^ 32)) by lia.
      rewrite Z.mod_small; lia.
    + rewrite Z.mod_small in H; lia.
Qed.

Lemma ToUint32_ToInt32 z : JS.ToUint32 (JS.ToInt32 z) = JS.ToUint32 z.
Proof.
  unfold JS.ToUint32, JS.ToInt32.
  destruct (Z.ltb_spec (z mod 2 ^ 32) (2 ^ 31)).
  - apply Z.mod_mod; lia.
  - rewrite <- (Z.mod_add _ 1 (2 ^ 32)) by lia.
    replace (z mod 2 ^ 32 - 2 ^ 32 + 1 * 2 ^ 32) with (z mod 2 ^ 32) by lia.
    apply Z.mod_mod; lia.
Qed.

Lemma ToUint32_range z : 0 <= JS.ToUint32 z < 2 ^ 32.
Proof. apply Z.mod_pos_bound. reflexivity. Qed.

Lemma ToUint32_small z : 0 <= z < 2 ^ 32 -> JS.ToUint32 z = z.
Proof. apply Z.mod_small. Qed.

Lemma ToUint32_testbit z i :
  Z.testbit (JS.ToUint32 z) i = (i <? 32) && Z.testbit z i.
Proof.
  unfold JS.ToUint32.
  destruct (Z.ltb_spec i 32).
  - destruct (Z.lt_ge_cases i 0).
    + now rewrite !Z.testbit_neg_r.
    + rewrite Z.mod_pow2_bits_low; auto.
  - rewrite Z.mod_pow2_bits_high; auto. lia.
Qed.

Lemma ToUint32_inj_int32 a b :
  - 2 ^ 31 <= a < 2 ^ 31 -> - 2 ^ 31 <= b < 2 ^ 31 ->
  JS.ToUint32 a = JS.ToUint32 b -> a = b.
Proof.
  intros Ha Hb H.
  rewrite <- (ToInt32_small a Ha), <- (ToInt32_small b Hb).
  unfold JS.ToInt32. unfold JS.ToUint32 in H. now rewrite H.
Qed.

Lemma bnot_range x : - 2 ^ 31 <= JS.bnot x < 2 ^ 31.
Proof. apply ToInt32_range. Qed.

Lemma bxor_range a b : - 2 ^ 31 <= JS.bxor a b < 2 ^ 31.
Proof. apply ToInt32_range. Qed.

Lemma ToInt32_testbit_low z i :
  i < 32 -> Z.testbit (JS.ToInt32 z) i = Z.testbit z i.
Proof.
  intros Hi.
  pose proof (ToUint32_testbit (JS.ToInt32 z) i) as H1.
  rewrite ToUint32_ToInt32, ToUint32_testbit in H1.
  apply Z.ltb_lt in Hi. rewrite Hi in H1. simpl in H1. congruence.
Qed.

Lemma ToUint32_bxor a b :
  JS.ToUint32 (JS.bxor a b) = Z.lxor (JS.ToUint32 a) (JS.ToUint32 b).
Proof.
  unfold JS.bxor. rewrite ToUint32_ToInt32.
  apply Z.bits_inj'. intros i Hi.
  rewrite Z.lxor_spec, !ToUint32_testbit, Z.lxor_spec.
  destruct (Z.ltb_spec i 32); [|reflexivity].
  now rewrite !ToInt32_testbit_low.
Qed.

Lemma ToUint32_bnot x :
  JS.ToUint32 (JS.bnot x) = Z.lxor (JS.ToUint32 x) 0xFFFFFFFF.
Proof.
  unfold JS.bnot. rewrite ToUint32_ToInt32.
  apply Z.bits_inj'. intros i Hi.
  rewrite Z.lxor_spec, !ToUint32_testbit, Z.lnot_spec by assumption.
  change 0xFFFFFFFF with (Z.ones 32).
  destruct (Z.ltb_spec i 32).
  - rewrite Z.ones_spec_low, ToInt32_testbit_low by lia.
    simpl. now rewrite xorb_true_r.
  - rewrite Z.ones_spec_high by lia. reflexivity.
Qed.

Lemma bnot_involutive x : JS.bnot (JS.bnot x) = JS.ToInt32 x.
Proof.
  apply ToUint32_inj_int32; try apply ToInt32_range.
  rewrite !ToUint32_bnot, ToUint32_ToInt32.
  rewrite Z.lxor_assoc, Z.lxor_nilpotent. apply Z.lxor_0_r.
Qed.

(** ** crc32.ts: the register and the chunking law *)

Lemma crc32_register_range data x :
  - 2 ^ 31 <= x < 2 ^ 31 ->
  - 2 ^ 31 <= fold_left Crc32.crc32_step data x < 2 ^ 31.
Proof.
  revert x. induction data as [|b data IH]; intros x Hx; simpl.
  - assumption.
  - apply IH. apply bxor_range.
Qed.

Lemma crc32_nil crc : - 2 ^ 31 <= crc < 2 ^ 31 -> Crc32.crc32 crc [] = crc.
Proof.
  intros H. unfold Crc32.crc32. simpl.
  now rewrite bnot_involutive, ToInt32_small.
Qed.

Lemma crc32_app crc a b :
  Crc32.crc32 (Crc32.crc32 crc a) b = Crc32.crc32 crc (a ++ b).
Proof.
  unfold Crc32.crc32.
  rewrite bnot_involutive, ToInt32_small, fold_left_app.
  - reflexivity.
  - apply crc32_register_range, bnot_range.
Qed.

Lemma crc32_chunks chunks crc data :
  fold_left Crc32.crc32 chunks (Crc32.crc32 crc data)
  = Crc32.crc32 crc (data ++ concat chunks).
Proof.
  revert data. induction chunks as [|c chunks IH]; intros data; simpl.
  - now rewrite app_nil_r.
  - rewrite crc32_app, IH, app_assoc. reflexivity.
Qed.

(** ** crc32.ts against the bit-at-a-time definition *)

Lemma reference_bit_lxor a c :
  Crc32.reference_bit (Z.lxor a c)
  = Z.lxor (Crc32.reference_bit a) (Crc32.reference_bit c).
Proof.
  unfold Crc32.reference_bit.
  assert (Hodd : Z.odd (Z.lxor a c) = xorb (Z.odd a) (Z.odd c))
    by now rewrite <- !Z.bit0_odd, Z.lxor_spec.
  rewrite Hodd, Z.shiftr_lxor.
  set (A := Z.shiftr a 1). set (C := Z.shiftr c 1). set (P := 0xEDB88320).
  destruct (Z.odd a), (Z.odd c); simpl;
    apply Z.bits_inj'; intros i _; rewrite ?Z.lxor_spec;
    destruct (Z.testbit A i), (Z.testbit C i), (Z.testbit P i); reflexivity.
Qed.

Lemma reference_bits_lxor n a c :
  Nat.iter n Crc32.reference_bit (Z.lxor a c)
  = Z.lxor (Nat.iter n Crc32.reference_bit a) (Nat.iter n Crc32.reference_bit c).
Proof.
  induction n as [|n IH]; simpl.
  - reflexivity.
  - now rewrite IH, reference_bit_lxor.
Qed.

Lemma reference_bits_shift n hi :
  (forall i, 0 <= i < Z.of_nat n -> Z.testbit hi i = false) ->
  Nat.iter n Crc32.reference_bit hi = Z.shiftr hi (Z.of_nat n).
Proof.
  induction n as [|n IH]; intros Hlow.
  - simpl. now rewrite Z.shiftr_0_r.
  - rewrite Nat.iter_succ, IH by (intros; apply Hlow; lia).
    unfold Crc32.reference_bit.
    rewrite <- Z.bit0_odd, Z.shiftr_spec, Hlow by lia.
    rewrite Z.shiftr_shiftr by lia. f_equal. lia.
Qed.

Lemma table_get_reference k :
  0 <= k < 256 ->
  Crc32.table_get k = Nat.iter 8 Crc32.reference_bit k
  /\ JS.ToUint32 (Crc32.table_get k) = Crc32.table_get k.
Proof.
  intros Hk.
  assert (Hall : forallb
            (fun i => (Crc32.table_get (Z.of_nat i)
                       =? Nat.iter 8 Crc32.reference_bit (Z.of_nat i))
                      && (JS.ToUint32 (Crc32.table_get (Z.of_nat i))
                          =? Crc32.table_get (Z.of_nat i)))
            (seq 0 256) = true) by (vm_compute; reflexivity).
  rewrite forallb_forall in Hall.
  specialize (Hall (Z.to_nat k)).
  rewrite Z2Nat.id in Hall by lia.
  apply andb_prop in Hall.
  - destruct Hall as [H1 H2]. split; now apply Z.eqb_eq.
  - apply in_seq. lia.
Qed.

Lemma crc32_step_reference x b :
  JS.ToUint32 (Crc32.crc32_step x b)
  = Crc32.reference_byte (JS.ToUint32 x) b.
Proof.
  unfold Crc32.crc32_step, Crc32.reference_byte.
  pose proof (byte.unsigned_range b) as Hb.
  pose proof (ToUint32_range x) as Hr.
  set (r := JS.ToUint32 x) in *.
  set (v := Z.lxor r (byte.unsigned b)).
  assert (Hindex : JS.band (JS.bxor x (byte.unsigned b)) 0xff = Z.land v 255).
  { unfold JS.band.
    rewrite (ToInt32_small 255) by lia.
    assert (Hlow : Z.land (JS.ToInt32 (JS.bxor x (byte.unsigned b))) 255 = Z.land v 255).
    { apply Z.bits_inj'. intros i Hi. rewrite !Z.land_spec.
      change 255 with (Z.ones 8).
      destruct (Z.ltb_spec i 8).
      - rewrite ToInt32_testbit_low by lia.
        pose proof (ToUint32_testbit (JS.bxor x (byte.unsigned b)) i) as Ht.
        rewrite ToUint32_bxor in Ht. fold r in Ht.
        rewrite (ToUint32_small (byte.unsigned b)) in Ht by lia.
        fold v in Ht. replace (i <? 32) with true in Ht
          by (symmetry; apply Z.ltb_lt; lia).
        simpl in Ht. now rewrite Ht.
      - rewrite Z.ones_spec_high by lia. now rewrite !andb_false_r. }
    rewrite Hlow. apply ToInt32_small.
    change 255 with (Z.ones 8). rewrite Z.land_ones by lia.
    pose proof (Z.mod_pos_bound v (2 ^ 8) eq_refl). lia. }
  rewrite Hindex.
  assert (Hk : 0 <= Z.land v 255 < 256).
  { change 255 with (Z.ones 8). rewrite Z.land_ones by lia.
    apply Z.mod_pos_bound. reflexivity. }
  destruct (table_get_reference _ Hk) as [Htab Hu].
  rewrite ToUint32_bxor, Hu, Htab.
  assert (Hushr : JS.ushr x 8 = Z.shiftr r 8) by reflexivity.
  rewrite Hushr.
  assert (Hsmall : 0 <= Z.shiftr r 8 < 2 ^ 32).
  { rewrite Z.shiftr_div_pow2 by lia. split.
    - apply Z.div_pos; lia.
    - apply Z.div_lt_upper_bound; lia. }
  rewrite (ToUint32_small _ Hsmall).
  assert (Hsplit : v = Z.lxor (Z.land v 255) (Z.ldiff v 255)).
  { apply Z.bits_inj'. intros i Hi.
    rewrite Z.lxor_spec, Z.land_spec, Z.ldiff_spec.
    destruct (Z.testbit v i), (Z.testbit 255 i); reflexivity. }
  rewrite Hsplit at 2.
  rewrite reference_bits_lxor, Z.lxor_comm. f_equal.
  rewrite (reference_bits_shift 8).
  - apply Z.bits_inj'. intros i Hi.
    rewrite !Z.shiftr_spec, Z.ldiff_spec by assumption.
    unfold v. rewrite Z.lxor_spec.
    change 255 with (Z.ones 8). rewrite Z.ones_spec_high by lia.
    replace (Z.testbit (byte.unsigned b) (i + Z.of_nat 8)) with false.
    + now rewrite xorb_false_r, andb_true_r.
    + symmetry. apply Z.bits_above_log2; [lia|].
      destruct (Z.eq_dec (byte.unsigned b) 0) as [E | E].
      * rewrite E. simpl. lia.
      * apply Z.lt_le_trans with 8; [|lia].
        apply Z.log2_lt_pow2; lia.
  - intros i Hi. rewrite Z.ldiff_spec.
    change 255 with (Z.ones 8). rewrite Z.ones_spec_low by lia.
    apply andb_false_r.
Qed.

Lemma crc32_register_reference data x :
  JS.ToUint32 (fold_left Crc32.crc32_step data x)
  = fold_left Crc32.reference_byte data (JS.ToUint32 x).
Proof.
  revert x. induction data as [|b data IH]; intros x; simpl.
  - reflexivity.
  - now rewrite IH, crc32_step_reference.
Qed.

Lemma crc32_reference data :
  JS.ToUint32 (Crc32.crc32 0 data) = Crc32.reference_crc32 data.
Proof.
  unfold Crc32.crc32, Crc32.reference_crc32.
  rewrite ToUint32_bnot, crc32_register_reference. reflexivity.
Qed.

Lemma crc32_from_0 chunks :
  fold_left Crc32.crc32 chunks 0 = Crc32.crc32 0 (concat chunks).
Proof.
  rewrite <- (crc32_nil 0) at 1 by lia.
  apply crc32_chunks.
Qed.

(** C3: starting from 0 and folding [crc32] over the chunks of a byte sequence,
    in order, gives what one call on the concatenation of the chunks gives,
    whatever the chunking; that value is the CRC-32/ISO-HDLC checksum of the
    sequence (as the signed 32-bit number with the checksum's bit pattern). *)
Theorem crc32_chunking_invariant (chunks : list (list byte)) :
  fold_left Crc32.crc32 chunks 0 = Crc32.crc32 0 (concat chunks)
  /\ JS.ToUint32 (Crc32.crc32 0 (concat chunks))
     = Crc32.reference_crc32 (concat chunks).
Proof.
  split.
  - apply crc32_from_0.
  - apply crc32_reference.
Qed.

(** ** DataView *)

Lemma DataView_bytes_of_buffer b : DataView.bytes (DataView.of_buffer b) = b.
Proof.
  unfold DataView.bytes, DataView.of_buffer. simpl.
  rewrite Nat2Z.id. apply firstn_all.
Qed.

(** Reading [n] bytes at the start of a buffer that begins with [bs]. *)
Lemma getUint_at_0 n bs rest :
  length bs = n ->
  DataView.getUint n (DataView.of_buffer (bs ++ rest)) 0 = Ok (le_combine bs).
Proof.
  intros Hn. unfold DataView.getUint, DataView.in_range, DataView.read.
  cbn [DataView.of_buffer DataView.byteLength DataView.byteOffset DataView.buffer].
  rewrite length_app.
  replace (0 + Z.of_nat n <=? Z.of_nat (length bs + length rest)) with true
    by (symmetry; apply Z.leb_le; lia).
  simpl. rewrite <- Hn, firstn_app, firstn_all, Nat.sub_diag. simpl.
  now rewrite app_nil_r.
Qed.

(** Reading past a prefix is reading in the rest. *)
Lemma getUint_skip n pre rest offset :
  0 <= offset ->
  DataView.getUint n (DataView.of_buffer (pre ++ rest)) (Z.of_nat (length pre) + offset)
  = DataView.getUint n (DataView.of_buffer rest) offset.
Proof.
  intros Hoff. unfold DataView.getUint, DataView.in_range, DataView.read.
  cbn [DataView.of_buffer DataView.byteLength DataView.byteOffset DataView.buffer].
  rewrite length_app, Nat2Z.inj_add.
  replace (0 <=? Z.of_nat (length pre) + offset) with true
    by (symmetry; apply Z.leb_le; lia).
  replace (0 <=? offset) with true by (symmetry; apply Z.leb_le; lia).
  replace (Z.of_nat (length pre) + offset + Z.of_nat n
           <=? Z.of_nat (length pre) + Z.of_nat (length rest))
    with (offset + Z.of_nat n <=? Z.of_nat (length rest)).
  2:{ destruct (Z.leb_spec (offset + Z.of_nat n) (Z.of_nat (length rest)));
      symmetry; [apply Z.leb_le | apply Z.leb_gt]; lia. }
  assert (Hskip : skipn (Z.to_nat (0 + (Z.of_nat (length pre) + offset))) (pre ++ rest)
                  = skipn (Z.to_nat (0 + offset)) rest).
  { rewrite skipn_app, skipn_all2 by lia. simpl. f_equal. lia. }
  rewrite Hskip. reflexivity.
Qed.

(** ** write.ts: the layout of the three records *)

Lemma localHeader_layout e :
  Write.localHeader e = Ok (DataView.of_buffer (localHeaderBytes e)).
Proof. reflexivity. Qed.

Lemma directoryParts_layout e offset :
  Write.directoryParts e offset
  = Ok [Write.part_view (DataView.of_buffer (directoryHeaderBytes e offset));
        Write.part_bytes (Write.rawName e)].
Proof. reflexivity. Qed.

Lemma footerRecord_layout n dsz off :
  Write.footerRecord n dsz off = Ok (DataView.of_buffer (footerBytes n dsz off)).
Proof. reflexivity. Qed.

Lemma localHeaderBytes_length e : length (localHeaderBytes e) = 30%nat.
Proof. reflexivity. Qed.

Lemma directoryHeaderBytes_length e off : length (directoryHeaderBytes e off) = 46%nat.
Proof. reflexivity. Qed.

Lemma footerBytes_length n dsz off : length (footerBytes n dsz off) = 22%nat.
Proof. reflexivity. Qed.

(** ** write.ts: the entry pipeline *)

Lemma bind_ok {A B} (m : Write.M A) (k : A -> Write.M B) st st' b :
  Write.bind m k st = (st', inr b) ->
  exists a st1, m st = (st1, inr a) /\ k a st1 = (st', inr b).
Proof.
  unfold Write.bind. destruct (m st) as [st1 [e | a]]; intros H.
  - discriminate.
  - now exists a, st1.
Qed.

Lemma totalLength_cons c cs :
  totalLength (c :: cs) = Write.chunk_length c + totalLength cs.
Proof.
  unfold totalLength, Write.chunk_length. simpl. rewrite length_app. lia.
Qed.

Lemma sameIdentity_trans e1 e2 e3 :
  sameIdentity e1 e2 -> sameIdentity e2 e3 -> sameIdentity e1 e3.
Proof. unfold sameIdentity. intuition congruence. Qed.

Lemma measure_all_ok source : forall e st st' e',
  Write.measure_all e source st = (st', inr e') ->
  sameIdentity e e'
  /\ Write.compressedSize e' = Write.compressedSize e
  /\ Write.compressedStream e' = Write.compressedStream e
  /\ Write.uncompressedSize e' = Write.uncompressedSize e + totalLength source
  /\ Write.crc32 e' = fold_left Crc32.crc32 source (Write.crc32 e).
Proof.
  induction source as [|c source IH]; intros e st st' e' H.
  - inversion H; subst. unfold totalLength. simpl.
    repeat split; lia.
  - cbn [Write.measure_all] in H.
    apply bind_ok in H. destruct H as (e1 & st1 & Hm & Hrest).
    unfold Write.measure in Hm.
    apply bind_ok in Hm. destruct Hm as ([] & st2 & _ & Hret).
    inversion Hret; subst e1 st2; clear Hret.
    apply IH in Hrest. cbn in Hrest.
    destruct Hrest as (Hid & Hc & Hs & Hu & Hcrc).
    rewrite totalLength_cons. cbn.
    repeat split; try (apply Hid); try assumption; lia.
Qed.

Lemma account_all_spec out : forall e,
  let e' := fold_left Write.account out e in
  sameIdentity e e'
  /\ Write.compressedSize e' = Write.compressedSize e + totalLength out
  /\ Write.uncompressedSize e' = Write.uncompressedSize e
  /\ Write.crc32 e' = Write.crc32 e.
Proof.
  induction out as [|c out IH]; intros e; cbn.
  - unfold totalLength. simpl. repeat split; lia.
  - specialize (IH (Write.account e c)). cbn in IH.
    destruct IH as (Hid & Hc & Hu & Hcrc).
    rewrite totalLength_cons.
    repeat split; try (apply Hid); try assumption; lia.
Qed.

Section WriteFacts.
Context {host : Host}.

Lemma drain_ok e st st' e' data :
  Write.drain e st = (st', inr (e', data)) ->
  exists source deflate,
    Write.compressedStream e = Write.Pending source deflate
    /\ data = concat (pipelineOutput source deflate)
    /\ sameIdentity e e'
    /\ Write.compressedSize e'
       = Write.compressedSize e + totalLength (pipelineOutput source deflate)
    /\ Write.uncompressedSize e' = Write.uncompressedSize e + totalLength source
    /\ Write.crc32 e' = fold_left Crc32.crc32 source (Write.crc32 e)
    /\ Write.compressedStream e' = Write.Disturbed.
Proof.
  unfold Write.drain. intros H.
  destruct (Write.compressedStream e) as [source deflate|] eqn:Hs.
  2:{ discriminate. }
  exists source, deflate. split; [reflexivity|].
  apply bind_ok in H. destruct H as (e1 & st1 & Hm & Hret).
  inversion Hret; subst; clear Hret.
  apply measure_all_ok in Hm.
  destruct Hm as (Hid & Hc & _ & Hu & Hcrc).
  pose proof (account_all_spec (pipelineOutput source deflate) e1) as Ha.
  cbn in Ha. destruct Ha as (Hid' & Hc' & Hu' & Hcrc').
  fold (pipelineOutput source deflate).
  split; [reflexivity|]. split.
  { apply (sameIdentity_trans _ e1); [exact Hid|].
    apply (sameIdentity_trans _ (fold_left Write.account (pipelineOutput source deflate) e1));
      [exact Hid'|]. repeat split. }
  cbn [Write.set_compressedStream Write.compressedSize Write.uncompressedSize
       Write.crc32 Write.compressedStream].
  repeat split; congruence.
Qed.

Lemma entryParts_ok e st st' e' parts :
  Write.entryParts e st = (st', inr (e', parts)) ->
  exists data,
    Write.drain e st = (st', inr (e', data))
    /\ parts = [Write.part_view (DataView.of_buffer (localHeaderBytes e'));
                Write.part_bytes (Write.rawName e');
                Write.part_blob data].
Proof.
  unfold Write.entryParts. intros H.
  apply bind_ok in H. destruct H as ([e1 data] & st1 & Hd & H).
  apply bind_ok in H. destruct H as (header & st2 & Hh & Hret).
  rewrite localHeader_layout in Hh. unfold Write.lift in Hh.
  inversion Hh; subst; clear Hh.
  inversion Hret; subst; clear Hret.
  now exists data.
Qed.

End WriteFacts.

Lemma Blob_of_three_parts header name data :
  Write.Blob_of_parts [Write.part_view (DataView.of_buffer header);
                       Write.part_bytes name; Write.part_blob data]
  = header ++ name ++ data.
Proof.
  unfold Write.Blob_of_parts. simpl.
  now rewrite DataView_bytes_of_buffer, app_nil_r.
Qed.

(** A new entry with any progress callback installed, as [build] drains it. *)
Lemma fresh_entryParts {host : Host} name stream guess options callback st st' e' parts :
  Write.entryParts
    (Write.set_progressCallback (Write.newZipEntry name stream guess options) callback)
    st = (st', Ok (e', parts)) ->
  let deflate := match Write.method e' with 0 => false | _ => true end in
  let data := concat (pipelineOutput stream deflate) in
  parts = [Write.part_view (DataView.of_buffer (localHeaderBytes e'));
           Write.part_bytes (Write.rawName e'); Write.part_blob data]
  /\ Write.rawName e' = Write.toUtf8 name
  /\ Write.flags e' = 0x0800
  /\ Write.method e'
     = (if match options with
           | Some o => match Write.ZipEntryOptions.compressed o with
                       | Some b => b
                       | None => true
                       end
           | None => true
           end then 8 else 0)
  /\ Write.compressedSize e' = Z.of_nat (length data)
  /\ Write.uncompressedSize e' = totalLength stream
  /\ Write.crc32 e' = Crc32.crc32 0 (concat stream).
Proof.
  intros H.
  apply entryParts_ok in H. destruct H as (data0 & Hd & ->).
  apply drain_ok in Hd.
  destruct Hd as (source & dfl & Hs & -> & Hid & Hc & Hu & Hcrc & _).
  cbn in Hs. inversion Hs; subst source dfl; clear Hs.
  destruct Hid as (Hn & Hf & Hm & _). cbn in Hn, Hf, Hm, Hc, Hu, Hcrc.
  rewrite Hm.
  set (compressed := match options with
                     | Some o => match Write.ZipEntryOptions.compressed o with
                                 | Some b => b
                                 | None => true
                                 end
                     | None => true
                     end) in *.
  assert (Hdfl : match (if compressed then 8 else 0) with 0 => false | _ => true end
                 = compressed) by now destruct compressed.
  cbn zeta. rewrite Hdfl.
  split; [reflexivity|]. split; [exact Hn|]. split; [exact Hf|].
  split; [reflexivity|]. split; [|split].
  - rewrite Hc. unfold totalLength. lia.
  - rewrite Hu. lia.
  - rewrite Hcrc. apply crc32_from_0.
Qed.

(** C9: once the pipeline of a write-side entry has drained, [entryParts]
    returns three parts, the 30-byte local header, the raw name and the
    compressed data, whose lengths add up to
    [entrySize() = 30 + name length + compressedSize]. *)
Theorem entryParts_length_is_entrySize {host : Host}
        name stream guess options callback st st' e' parts :
  Write.entryParts
    (Write.set_progressCallback (Write.newZipEntry name stream guess options) callback)
    st = (st', Ok (e', parts)) ->
  exists header data,
    parts = [Write.part_view header; Write.part_bytes (Write.rawName e');
             Write.part_blob data]
    /\ Z.of_nat (length (DataView.bytes header)) = 30
    /\ Z.of_nat (length data) = Write.compressedSize e'
    /\ Z.of_nat (length (Write.Blob_of_parts parts)) = Write.entrySize e'
    /\ Write.entrySize e'
       = 30 + Z.of_nat (length (Write.rawName e')) + Write.compressedSize e'.
Proof.
  intros H. apply fresh_entryParts in H. cbn zeta in H.
  destruct H as (-> & _ & _ & _ & Hc & _).
  eexists. eexists. split; [reflexivity|].
  rewrite Blob_of_three_parts, DataView_bytes_of_buffer, !length_app.
  rewrite localHeaderBytes_length. unfold Write.entrySize.
  repeat split; lia.
Qed.

Lemma entryParts_length_is_entrySize_witness :
  exists st' e' parts,
    Write.entryParts (host := SmallHost.host)
      (Write.set_progressCallback (helloEntry None) None) freshState
    = (st', Ok (e', parts))
    /\ Z.of_nat (length (Write.Blob_of_parts parts)) = Write.entrySize e'.
Proof.
  assert (E : exists st' e' parts,
             Write.entryParts (host := SmallHost.host)
               (Write.set_progressCallback (helloEntry None) None) freshState
             = (st', Ok (e', parts)))
    by (vm_compute; do 3 eexists; reflexivity).
  destruct E as (st' & e' & parts & E).
  exists st', e', parts. split; [exact E|].
  destruct (entryParts_length_is_entrySize (host := SmallHost.host)
              "hello"%string [list_byte_of_string "World"] (Some 5) None None
              freshState st' e' parts E)
    as (header & data & _ & _ & _ & Hlen & _).
  exact Hlen.
Defined.

(** C8: an entry created with [compressed: false] has, once its pipeline has
    drained, [compressedSize = uncompressedSize] and method 0; the method
    bytes of its local header and of its directory header are zero. *)
Theorem stored_entry_sizes_and_method {host : Host}
        name stream guess callback st st' e' parts :
  Write.entryParts
    (Write.set_progressCallback
       (Write.newZipEntry name stream guess storedOption) callback)
    st = (st', Ok (e', parts)) ->
  Write.compressedSize e' = Write.uncompressedSize e'
  /\ Write.method e' = 0
  /\ firstn 2 (skipn 8 (Write.Blob_of_parts parts)) = [Byte.x00; Byte.x00]
  /\ forall offset, exists dparts,
        Write.directoryParts e' offset = Ok dparts
        /\ firstn 2 (skipn 10 (Write.Blob_of_parts dparts)) = [Byte.x00; Byte.x00].
Proof.
  intros H. apply fresh_entryParts in H. cbn zeta in H.
  destruct H as (-> & _ & _ & Hm & Hc & Hu & _).
  cbn in Hm. rewrite Hm in Hc. cbn in Hc.
  split; [|split; [|split]].
  - rewrite Hc, Hu. reflexivity.
  - exact Hm.
  - rewrite Blob_of_three_parts. unfold localHeaderBytes. rewrite Hm. reflexivity.
  - intros offset. eexists. split; [apply directoryParts_layout|].
    unfold Write.Blob_of_parts. cbn [map Write.BlobPart_bytes concat].
    rewrite DataView_bytes_of_buffer. unfold directoryHeaderBytes.
    rewrite Hm. reflexivity.
Qed.

Lemma stored_entry_sizes_and_method_witness :
  exists st' e' parts,
    Write.entryParts (host := SmallHost.host)
      (Write.set_progressCallback (helloEntry storedOption) None) freshState
    = (st', Ok (e', parts))
    /\ Write.compressedSize e' = Write.uncompressedSize e'
    /\ Write.method e' = 0.
Proof.
  assert (E : exists st' e' parts,
             Write.entryParts (host := SmallHost.host)
               (Write.set_progressCallback (helloEntry storedOption) None) freshState
             = (st', Ok (e', parts)))
    by (vm_compute; do 3 eexists; reflexivity).
  destruct E as (st' & e' & parts & E).
  exists st', e', parts. split; [exact E|].
  destruct (stored_entry_sizes_and_method (host := SmallHost.host)
              "hello"%string [list_byte_of_string "World"] (Some 5) None
              freshState st' e' parts E) as (H1 & H2 & _).
  split; assumption.
Defined.

(** ** read.ts: directory markers *)

(** C10: for a directory entry whose raw name is empty, the lookup of the last
    byte is out of range (it yields [undefined]) and [isDirectory()] is false,
    whatever the uncompressed size. *)
Theorem isDirectory_empty_name (e : Read.ZipDirectoryEntry.t) :
  Read.ZipDirectoryEntry.rawName e = [] ->
  Uint8Array_get (Read.ZipDirectoryEntry.rawName e)
                 (Z.of_nat (length (Read.ZipDirectoryEntry.rawName e)) - 1) = None
  /\ Read.ZipDirectoryEntry.isDirectory e = false.
Proof.
  intros H. unfold Read.ZipDirectoryEntry.isDirectory.
  rewrite H. split; reflexivity.
Qed.

Lemma isDirectory_empty_name_witness :
  Read.ZipDirectoryEntry.rawName namelessEntry = []
  /\ Read.ZipDirectoryEntry.uncompressedSize namelessEntry = 0
  /\ Read.ZipDirectoryEntry.isDirectory namelessEntry = false.
Proof.
  split; [reflexivity|]. split; [reflexivity|].
  exact (proj2 (isDirectory_empty_name namelessEntry eq_refl)).
Defined.

(** ** read.ts: the footer *)

Lemma Blob_slice_suffix src n :
  (n <= length src)%nat ->
  Blob_slice src (Z.of_nat (length src) - Z.of_nat n)
             (Z.of_nat (length src) - Z.of_nat n + Z.of_nat n)
  = lastBytes n src.
Proof.
  intros Hn. unfold Blob_slice, lastBytes.
  replace (Z.of_nat (length src) - Z.of_nat n <? 0) with false
    by (symmetry; apply Z.ltb_ge; lia).
  replace (Z.of_nat (length src) - Z.of_nat n + Z.of_nat n <? 0) with false
    by (symmetry; apply Z.ltb_ge; lia).
  replace (Z.to_nat (Z.min (Z.of_nat (length src) - Z.of_nat n) (Z.of_nat (length src))))
    with (length src - n)%nat by lia.
  apply firstn_all2. rewrite length_skipn. lia.
Qed.

Lemma footerView_last22 src :
  (22 <= length src)%nat ->
  Read.ZipFooter.footerView (Read.ZipData.mk src)
  = DataView.of_buffer (lastBytes 22 src).
Proof.
  intros H. unfold Read.ZipFooter.footerView, Read.ZipData.view, Read.ZipData.slice,
    Read.ZipData.size, Read.ZipFooter.SIZE. cbn [Read.ZipData.blob].
  f_equal. apply (Blob_slice_suffix src 22 H).
Qed.

Lemma lastBytes_length n src : (n <= length src)%nat -> length (lastBytes n src) = n.
Proof. intros H. unfold lastBytes. rewrite length_skipn. lia. Qed.

Lemma ZipFooter_new_bad_signature buffer :
  (4 <= length buffer)%nat ->
  le_combine (firstn 4 buffer) <> Read.ZipFooter.SIGNATURE ->
  Read.ZipFooter.new (DataView.of_buffer buffer)
  = Throw (JsError "Invalid ZIP footer signature").
Proof.
  intros Hlen Hsig. unfold Read.ZipFooter.new.
  rewrite <- (firstn_skipn 4 buffer) at 1.
  change (DataView.getUint32 ?v ?o) with (DataView.getUint 4 v o).
  rewrite getUint_at_0 by (rewrite length_firstn; lia).
  cbn [rbind Ok].
  apply Z.eqb_neq in Hsig. rewrite Hsig. reflexivity.
Qed.

(** C6: when the last 22 bytes of a byte source do not begin with the
    little-endian signature 0x06054B50, reading the footer throws the
    bad-signature error, no directory is returned and the reader yields no
    entry; the view the footer is decoded from is exactly the last 22 bytes
    of the source. *)
Theorem footer_bad_signature_rejected (src : list byte) :
  (22 <= length src)%nat ->
  le_combine (firstn 4 (lastBytes 22 src)) <> 0x06054b50 ->
  Read.ZipFooter.footerView (Read.ZipData.mk src) = DataView.of_buffer (lastBytes 22 src)
  /\ length (lastBytes 22 src) = 22%nat
  /\ Read.ZipFooter.read (Read.ZipData.mk src)
     = Throw (JsError "Invalid ZIP footer signature")
  /\ Read.ZipDirectory.read (Read.ZipData.mk src)
     = Throw (JsError "Invalid ZIP footer signature")
  /\ Read.ZipReader.entries (Read.ZipReader.new src)
     = Some {| Read.yielded := [];
               Read.thrown := Some (JsError "Invalid ZIP footer signature") |}.
Proof.
  intros Hlen Hsig.
  assert (Hread : Read.ZipFooter.read (Read.ZipData.mk src)
                  = Throw (JsError "Invalid ZIP footer signature")).
  { unfold Read.ZipFooter.read. rewrite footerView_last22 by assumption.
    apply ZipFooter_new_bad_signature.
    - rewrite lastBytes_length; lia.
    - exact Hsig. }
  split; [now apply footerView_last22|].
  split; [now apply lastBytes_length|].
  split; [exact Hread|].
  unfold Read.ZipReader.entries, Read.ZipReader.new, Read.ZipDirectory.read.
  cbn [Read.ZipReader.data]. rewrite Hread. split; reflexivity.
Qed.

Lemma footer_bad_signature_rejected_witness :
  (22 <= length zeroSource)%nat
  /\ le_combine (firstn 4 (lastBytes 22 zeroSource)) <> 0x06054b50
  /\ Read.ZipReader.entries (Read.ZipReader.new zeroSource)
     = Some {| Read.yielded := [];
               Read.thrown := Some (JsError "Invalid ZIP footer signature") |}.
Proof.
  assert (H1 : (22 <= length zeroSource)%nat) by (vm_compute; lia).
  assert (H2 : le_combine (firstn 4 (lastBytes 22 zeroSource)) <> 0x06054b50)
    by (vm_compute; discriminate).
  split; [exact H1|]. split; [exact H2|].
  exact (proj2 (proj2 (proj2 (proj2 (footer_bad_signature_rejected zeroSource H1 H2))))).
Defined.

(** A source shorter than a footer has no last 22 bytes: [slice] takes the
    negative start relative to the end of the blob.  With fewer than four
    bytes the signature read itself is out of range. *)
Lemma footer_of_short_source src :
  (length src < 4)%nat ->
  Read.ZipFooter.read (Read.ZipData.mk src) = Throw RangeError.
Proof.
  intros H.
  destruct src as [|b0 [|b1 [|b2 [|b3 src]]]]; try reflexivity.
  simpl in H. lia.
Qed.

(** ** read.ts: decoding inside a buffer *)

Lemma getUint_at_prefix_end n pre hd tl :
  (n <= length hd)%nat ->
  DataView.getUint n (DataView.of_buffer (pre ++ hd ++ tl)) (Z.of_nat (length pre))
  = Ok (field n hd 0).
Proof.
  intros Hn.
  rewrite <- (Z.add_0_r (Z.of_nat (length pre))).
  rewrite getUint_skip by lia.
  rewrite <- (firstn_skipn n hd) at 1. rewrite <- app_assoc.
  rewrite getUint_at_0 by (rewrite length_firstn; lia).
  reflexivity.
Qed.

Lemma getUint_within n pre hd tl k :
  0 <= k -> k + Z.of_nat n <= Z.of_nat (length hd) ->
  DataView.getUint n (DataView.of_buffer (pre ++ hd ++ tl)) (Z.of_nat (length pre) + k)
  = Ok (field n hd (Z.to_nat k)).
Proof.
  intros Hk Hn.
  rewrite <- (firstn_skipn (Z.to_nat k) hd) at 1.
  rewrite <- app_assoc, (app_assoc pre).
  replace (Z.of_nat (length pre) + k)
    with (Z.of_nat (length (pre ++ firstn (Z.to_nat k) hd))).
  2:{ rewrite length_app, length_firstn. lia. }
  apply getUint_at_prefix_end. rewrite length_skipn. lia.
Qed.

Lemma Uint8Array_view_middle buffer a b c z n :
  buffer = a ++ b ++ c ->
  z = Z.of_nat (length a) -> n = Z.of_nat (length b) ->
  Uint8Array_view buffer z n = Ok b.
Proof.
  intros -> -> ->. unfold Uint8Array_view.
  replace (0 <=? Z.of_nat (length a)) with true by (symmetry; apply Z.leb_le; lia).
  replace (0 <=? Z.of_nat (length b)) with true by (symmetry; apply Z.leb_le; lia).
  replace (Z.of_nat (length a) + Z.of_nat (length b)
           <=? Z.of_nat (length (a ++ b ++ c))) with true
    by (symmetry; apply Z.leb_le; rewrite !length_app; lia).
  simpl. rewrite !Nat2Z.id.
  rewrite skipn_app, skipn_all, Nat.sub_diag. simpl.
  rewrite firstn_app, firstn_all, Nat.sub_diag. simpl.
  now rewrite app_nil_r.
Qed.

Lemma Uint8Array_view_length buffer z n l :
  Uint8Array_view buffer z n = Ok l -> Z.of_nat (length l) = n.
Proof.
  unfold Uint8Array_view.
  destruct (Z.leb_spec 0 z); [|discriminate].
  destruct (Z.leb_spec 0 n); [|discriminate].
  destruct (Z.leb_spec (z + n) (Z.of_nat (length buffer))); [|discriminate].
  simpl. intros Heq. inversion Heq; subst.
  rewrite length_firstn, length_skipn. lia.
Qed.

Lemma ZipDirectoryEntry_new_at pre header name extra comment rest :
  length header = 46%nat ->
  field 4 header 0 = Read.ZipDirectoryEntry.SIGNATURE ->
  field 2 header 28 = Z.of_nat (length name) ->
  field 2 header 30 = Z.of_nat (length extra) ->
  field 2 header 32 = Z.of_nat (length comment) ->
  Read.ZipDirectoryEntry.new
    (DataView.of_buffer (pre ++ header ++ name ++ extra ++ comment ++ rest))
    (Z.of_nat (length pre))
  = Ok (decodeDirectoryEntry header name extra comment).
Proof.
  intros Hlen Hsig Hname Hextra Hcomment.
  unfold Read.ZipDirectoryEntry.new, DataView.getUint16, DataView.getUint32.
  rewrite getUint_at_prefix_end by lia.
  rewrite !getUint_within by lia.
  cbn [rbind Ok]. rewrite Hsig, Z.eqb_refl. cbn [negb].
  repeat match goal with
         | |- context [Z.to_nat ?k] =>
             let v := eval vm_compute in (Z.to_nat k) in
             change (Z.to_nat k) with v
         end.
  rewrite Hname, Hextra, Hcomment.
  cbn [DataView.of_buffer DataView.buffer DataView.byteOffset].
  rewrite (Uint8Array_view_middle _ (pre ++ header) name (extra ++ comment ++ rest));
    [| now rewrite <- app_assoc
     | rewrite length_app, Hlen; unfold Read.ZipDirectoryEntry.SIZE; lia
     | reflexivity].
  cbn [rbind Ok].
  rewrite (Uint8Array_view_middle _ (pre ++ header ++ name) extra (comment ++ rest));
    [| now rewrite <- !app_assoc
     | rewrite !length_app, Hlen; unfold Read.ZipDirectoryEntry.SIZE; lia
     | reflexivity].
  cbn [rbind Ok].
  rewrite (Uint8Array_view_middle _ (pre ++ header ++ name ++ extra) comment rest);
    [| now rewrite <- !app_assoc
     | rewrite !length_app, Hlen; unfold Read.ZipDirectoryEntry.SIZE; lia
     | reflexivity].
  reflexivity.
Qed.

(** Whatever the view and the cursor, an entry that the constructor returns
    has the three lengths that its header declares. *)
Lemma ZipDirectoryEntry_new_lengths data offset e :
  Read.ZipDirectoryEntry.new data offset = Ok e ->
  DataView.getUint32 data offset = Ok Read.ZipDirectoryEntry.SIGNATURE
  /\ DataView.getUint16 data (offset + 28)
     = Ok (Z.of_nat (length (Read.ZipDirectoryEntry.rawName e)))
  /\ DataView.getUint16 data (offset + 30)
     = Ok (Z.of_nat (length (Read.ZipDirectoryEntry.rawExtraField e)))
  /\ DataView.getUint16 data (offset + 32)
     = Ok (Z.of_nat (length (Read.ZipDirectoryEntry.rawComment e))).
Proof.
  intros H. unfold Read.ZipDirectoryEntry.new in H.
  unfold Ok, Throw in *.
  repeat match type of H with
         | rbind ?r _ = _ =>
             let E := fresh "E" in
             destruct r eqn:E; cbn [rbind] in H; [discriminate H|]
         | (if ?c then _ else _) = _ =>
             let E := fresh "E" in
             destruct c eqn:E; [discriminate H|]
         end.
  inversion H; subst e; clear H.
  cbn [Read.ZipDirectoryEntry.rawName Read.ZipDirectoryEntry.rawExtraField
       Read.ZipDirectoryEntry.rawComment].
  apply negb_false_iff, Z.eqb_eq in E0. subst.
  repeat match goal with
         | H : Uint8Array_view _ _ _ = inr _ |- _ =>
             apply Uint8Array_view_length in H
         end.
  repeat split; congruence.
Qed.

(** ** read.ts: iterating the central directory *)

Lemma directoryEntrySize_lower_bound e :
  46 <= Read.ZipDirectoryEntry.directoryEntrySize e.
Proof.
  unfold Read.ZipDirectoryEntry.directoryEntrySize, Read.ZipDirectoryEntry.SIZE. lia.
Qed.

(** The loop of [entries] never runs out of rounds. *)
Lemma entriesFrom_total fuel : forall data dataOffset,
  DataView.byteLength data - dataOffset <= Z.of_nat fuel ->
  Read.ZipDirectory.entriesFrom fuel data dataOffset <> None.
Proof.
  induction fuel as [|fuel IH]; intros data dataOffset Hfuel.
  - cbn [Read.ZipDirectory.entriesFrom].
    destruct (Z.ltb_spec dataOffset (DataView.byteLength data)); [lia | discriminate].
  - cbn [Read.ZipDirectory.entriesFrom].
    destruct (Z.ltb_spec dataOffset (DataView.byteLength data)); [|discriminate].
    destruct (Read.ZipDirectoryEntry.new data dataOffset) as [err | entry];
      [discriminate|].
    pose proof (directoryEntrySize_lower_bound entry).
    specialize (IH data (dataOffset + Read.ZipDirectoryEntry.directoryEntrySize entry)).
    destruct (Read.ZipDirectory.entriesFrom fuel data _); [discriminate|].
    exfalso. apply IH; [lia | reflexivity].
Qed.

Lemma entries_total dir : Read.ZipDirectory.entries dir <> None.
Proof. unfold Read.ZipDirectory.entries. apply entriesFrom_total. lia. Qed.

Lemma decodeDirectoryEntry_size header name extra comment :
  Read.ZipDirectoryEntry.directoryEntrySize (decodeDirectoryEntry header name extra comment)
  = 46 + Z.of_nat (length name) + Z.of_nat (length extra) + Z.of_nat (length comment).
Proof. reflexivity. Qed.

Lemma DirectoryLayout_length blob es :
  DirectoryLayout blob es -> cursorAfter es = Z.of_nat (length blob).
Proof.
  induction 1 as [|header name extra comment rest es Hlen _ _ _ _ _ IH].
  - reflexivity.
  - cbn [cursorAfter fold_right]. fold (cursorAfter es).
    rewrite IH, decodeDirectoryEntry_size, !length_app, Hlen. lia.
Qed.

Lemma entriesFrom_layout blob es :
  DirectoryLayout blob es ->
  forall pre fuel, (length blob <= fuel)%nat ->
  Read.ZipDirectory.entriesFrom fuel (DataView.of_buffer (pre ++ blob))
                                (Z.of_nat (length pre))
  = Some {| Read.yielded := es; Read.thrown := None |}.
Proof.
  induction 1 as [|header name extra comment rest es Hlen Hsig Hn He Hc _ IH];
    intros pre fuel Hfuel.
  - rewrite app_nil_r.
    assert (Hend : (Z.of_nat (length pre)
                    <? DataView.byteLength (DataView.of_buffer pre)) = false)
      by (apply Z.ltb_ge; cbn; lia).
    destruct fuel; cbn [Read.ZipDirectory.entriesFrom]; now rewrite Hend.
  - rewrite !length_app, Hlen in Hfuel.
    destruct fuel as [|fuel]; [lia|].
    cbn [Read.ZipDirectory.entriesFrom].
    assert (Hmore : (Z.of_nat (length pre)
                     <? DataView.byteLength
                          (DataView.of_buffer
                             (pre ++ header ++ name ++ extra ++ comment ++ rest))) = true).
    { apply Z.ltb_lt. cbn. rewrite !length_app, Hlen. lia. }
    rewrite Hmore, ZipDirectoryEntry_new_at by assumption.
    cbv beta iota delta [Ok].
    rewrite decodeDirectoryEntry_size.
    specialize (IH (pre ++ header ++ name ++ extra ++ comment) fuel).
    replace (Z.of_nat (length pre) + (46 + Z.of_nat (length name)
              + Z.of_nat (length extra) + Z.of_nat (length comment)))
      with (Z.of_nat (length (pre ++ header ++ name ++ extra ++ comment)))
      by (rewrite !length_app, Hlen; lia).
    replace (pre ++ header ++ name ++ extra ++ comment ++ rest)
      with ((pre ++ header ++ name ++ extra ++ comment) ++ rest)
      by (now rewrite <- !app_assoc).
    rewrite IH by lia. reflexivity.
Qed.

Lemma cursorAfter_nonneg es : 0 <= cursorAfter es.
Proof.
  induction es as [|e es IH]; cbn; [lia|].
  fold (cursorAfter es). pose proof (directoryEntrySize_lower_bound e). lia.
Qed.

Lemma cursorAfter_app es1 es2 :
  cursorAfter (es1 ++ es2) = cursorAfter es1 + cursorAfter es2.
Proof.
  induction es1 as [|e es1 IH]; cbn; [reflexivity|].
  fold (cursorAfter (es1 ++ es2)) (cursorAfter es1). lia.
Qed.

Lemma new_at_cursor blob es :
  DirectoryLayout blob es ->
  forall pre k e, nth_error es k = Some e ->
  Read.ZipDirectoryEntry.new (DataView.of_buffer (pre ++ blob))
                             (Z.of_nat (length pre) + cursorAfter (firstn k es))
  = Ok e.
Proof.
  induction 1 as [|header name extra comment rest es Hlen Hsig Hn He Hc _ IH];
    intros pre k e Hk.
  - destruct k; discriminate.
  - destruct k as [|k].
    + cbn in Hk. inversion Hk; subst e. cbn [firstn cursorAfter fold_right].
      rewrite Z.add_0_r. now apply ZipDirectoryEntry_new_at.
    + cbn in Hk. cbn [firstn cursorAfter fold_right]. fold (cursorAfter (firstn k es)).
      rewrite decodeDirectoryEntry_size.
      specialize (IH (pre ++ header ++ name ++ extra ++ comment) k e Hk).
      replace (pre ++ header ++ name ++ extra ++ comment ++ rest)
        with ((pre ++ header ++ name ++ extra ++ comment) ++ rest)
        by (now rewrite <- !app_assoc).
      rewrite <- IH. f_equal. rewrite !length_app, Hlen. lia.
Qed.

(** C5: on a well-formed central directory blob, [entries()] yields entries
    and ends without an exception; every entry's [directoryEntrySize()] is
    46 + name length + extra-field length + comment length, these being the
    lengths that the entry's header declares; entry [k] is decoded at the
    cursor obtained by adding up the sizes of the entries before it, it ends
    inside the blob, and the last cursor is exactly the length of the blob. *)
Theorem directory_iteration_is_exact (footer : Read.ZipFooter.t) (blob : list byte) :
  WellFormedDirectory blob ->
  exists es,
    Read.ZipDirectory.entries (Read.ZipDirectory.mk footer (DataView.of_buffer blob))
    = Some {| Read.yielded := es; Read.thrown := None |}
    /\ Forall (fun e =>
                 Read.ZipDirectoryEntry.directoryEntrySize e
                 = 46 + Z.of_nat (length (Read.ZipDirectoryEntry.rawName e))
                   + Z.of_nat (length (Read.ZipDirectoryEntry.rawExtraField e))
                   + Z.of_nat (length (Read.ZipDirectoryEntry.rawComment e))) es
    /\ (forall k e, nth_error es k = Some e ->
          let cursor := cursorAfter (firstn k es) in
          Read.ZipDirectoryEntry.new (DataView.of_buffer blob) cursor = Ok e
          /\ DataView.getUint16 (DataView.of_buffer blob) (cursor + 28)
             = Ok (Z.of_nat (length (Read.ZipDirectoryEntry.rawName e)))
          /\ DataView.getUint16 (DataView.of_buffer blob) (cursor + 30)
             = Ok (Z.of_nat (length (Read.ZipDirectoryEntry.rawExtraField e)))
          /\ DataView.getUint16 (DataView.of_buffer blob) (cursor + 32)
             = Ok (Z.of_nat (length (Read.ZipDirectoryEntry.rawComment e)))
          /\ cursor + Read.ZipDirectoryEntry.directoryEntrySize e
             <= Z.of_nat (length blob))
    /\ cursorAfter es = Z.of_nat (length blob).
Proof.
  intros [es Hlayout]. exists es.
  split; [|split; [|split]].
  - unfold Read.ZipDirectory.entries. cbn [Read.ZipDirectory.data].
    apply (entriesFrom_layout blob es Hlayout []). cbn. lia.
  - apply Forall_forall. intros e _. reflexivity.
  - intros k e Hk cursor.
    pose proof (new_at_cursor blob es Hlayout [] k e Hk) as Hnew.
    change (Read.ZipDirectoryEntry.new (DataView.of_buffer blob) cursor = Ok e) in Hnew.
    destruct (ZipDirectoryEntry_new_lengths _ _ _ Hnew) as (_ & Hn & Hx & Hc).
    repeat (split; [assumption|]). subst cursor.
    rewrite <- (DirectoryLayout_length blob es Hlayout).
    destruct (nth_error_split es k Hk) as (l1 & l2 & Hes & Hl1).
    subst es k. rewrite firstn_app, firstn_all, Nat.sub_diag, app_nil_r.
    rewrite cursorAfter_app. cbn [cursorAfter fold_right].
    fold (cursorAfter l2). pose proof (cursorAfter_nonneg l2). lia.
  - apply DirectoryLayout_length, Hlayout.
Qed.

Lemma snapshotDirectory_well_formed : WellFormedDirectory snapshotDirectory.
Proof.
  eexists. unfold snapshotDirectory.
  apply layout_entry; try (vm_compute; reflexivity).
  apply layout_end.
Qed.

Lemma directory_iteration_is_exact_witness :
  WellFormedDirectory snapshotDirectory
  /\ exists es,
      Read.ZipDirectory.entries
        (Read.ZipDirectory.mk anyFooter (DataView.of_buffer snapshotDirectory))
      = Some {| Read.yielded := es; Read.thrown := None |}
      /\ cursorAfter es = Z.of_nat (length snapshotDirectory).
Proof.
  split; [exact snapshotDirectory_well_formed|].
  destruct (directory_iteration_is_exact anyFooter snapshotDirectory
              snapshotDirectory_well_formed) as (es & H1 & _ & _ & H2).
  exists es. split; assumption.
Defined.

(** ** write.ts: [ZipSource.fromResponse] *)

Lemma fromResponse_cases {host : Host} (response : Write.Response) :
  match Write.ZipSource_fromResponse response with
  | inl _ => rejectedByFromResponse response
  | inr source =>
      ~ rejectedByFromResponse response
      /\ exists body_, Write.body response = Some body_
         /\ Write.stream source = body_
         /\ Write.expectedSize source
            = match Write.headers_get response "Content-Length"%string with
              | Some s => if String.eqb s "" then None else parseInt s
              | None => None
              end
  end.
Proof.
  unfold Write.ZipSource_fromResponse, rejectedByFromResponse.
  destruct (Write.body response) as [body_|]; [|now left].
  destruct (Write.headers_get response "Content-Length"%string) as [s|].
  2:{ split.
      - intros [H | (s & H & _)]; discriminate.
      - exists body_. repeat split. }
  destruct (String.eqb_spec s ""%string) as [-> | Hne]; cbn [negb].
  { split.
    - intros [H | (s & H & Hs & _)]; [discriminate|].
      inversion H; subst. now apply Hs.
    - exists body_. repeat split. }
  destruct (parseInt s) as [n|] eqn:Hparse.
  2:{ right. exists s. repeat split; auto. }
  destruct (Z.ltb_spec n 0).
  { right. exists s. repeat split; auto. right. now exists n. }
  split.
  - intros [H0 | (s' & H1 & _ & [H2 | (n' & H2 & H3)])]; try discriminate;
      inversion H1; subst s'; rewrite Hparse in H2; try discriminate.
    inversion H2; subst. lia.
  - exists body_. repeat split.
Qed.

(** C7, as the code has it: [ZipSource.fromResponse] raises exactly when the
    body is missing, or the Content-Length header is present, not empty, and
    [parseInt] gives NaN or a negative number for it; the status of the
    response is not looked at.  When it does not raise and the header is
    present, not empty, its parsed value is the source's expected size, and
    [addResponse] makes it the new entry's size hint. *)
Theorem fromResponse_raises_iff {host : Host} (response : Write.Response) :
  (raises (Write.ZipSource_fromResponse response) <-> rejectedByFromResponse response)
  /\ (forall body_ s n w name options,
        Write.body response = Some body_ ->
        Write.headers_get response "Content-Length"%string = Some s ->
        s <> ""%string -> parseInt s = Some n -> 0 <= n ->
        Write.ZipSource_fromResponse response
        = Ok {| Write.stream := body_; Write.expectedSize := Some n |}
        /\ exists w', Write.addResponse w name response options = Ok w'
           /\ exists e, Write.entries w' = Write.entries w ++ [e]
              /\ Write.streamSizeGuess e = n).
Proof.
  pose proof (fromResponse_cases response) as Hcases.
  split.
  - unfold raises. split.
    + intros [e He]. rewrite He in Hcases. exact Hcases.
    + intros Hrej. destruct (Write.ZipSource_fromResponse response) as [e | source].
      * now exists e.
      * now destruct Hcases.
  - intros body_ s n w name options Hbody Hheader Hne Hparse Hn.
    assert (Hok : Write.ZipSource_fromResponse response
                  = Ok {| Write.stream := body_; Write.expectedSize := Some n |}).
    { unfold Write.ZipSource_fromResponse. rewrite Hbody, Hheader.
      apply String.eqb_neq in Hne. rewrite Hne, Hparse. cbn [negb].
      destruct (Z.ltb_spec n 0); [lia | reflexivity]. }
    split; [exact Hok|].
    unfold Write.addResponse. rewrite Hok. cbn [rbind Ok].
    eexists. split; [reflexivity|].
    eexists. split; [reflexivity|]. reflexivity.
Qed.

Lemma fromResponse_raises_iff_witness :
  Write.body worldResponse = Some [list_byte_of_string "World"]
  /\ Write.headers_get worldResponse "Content-Length"%string = Some "5"%string
  /\ Write.ZipSource_fromResponse (host := SmallHost.host) worldResponse
     = Ok {| Write.stream := [list_byte_of_string "World"];
             Write.expectedSize := Some 5 |}.
Proof.
  split; [reflexivity|]. split; [reflexivity|].
  refine (proj1 (proj2 (fromResponse_raises_iff (host := SmallHost.host) worldResponse)
                   [list_byte_of_string "World"] "5"%string 5
                   empty_writer "w"%string None eq_refl eq_refl _ eq_refl _)).
  - discriminate.
  - lia.
Defined.

(** C7 as stated fails: a response that indicates failure is accepted. *)
Lemma fromResponse_accepts_failed_response :
  ~ (raises (Write.ZipSource_fromResponse (host := SmallHost.host) notFoundResponse)
     <-> specifiedToRaise (host := SmallHost.host) notFoundResponse).
Proof.
  intros [_ H].
  destruct H as [e He].
  - right. right. reflexivity.
  - discriminate He.
Qed.

(** ** write.ts: progress callbacks of [build] *)

(** With [progress] requested, the table exists and one invocation of an
    entry's callback reports to [entryProgress] (when it is given), stores the
    entry's latest counters and reports the sums over all entries. *)
Lemma buildProgressCallback_with_progress o index bytesWritten totalBytes table log0 :
  Write.BuildOptions.progress o = true ->
  (index < length table)%nat ->
  let table' := firstn index table
                  ++ Write.Progress.mk bytesWritten totalBytes
                  :: skipn (S index) table in
  Write.buildProgressCallback (Some o) index bytesWritten totalBytes
    {| Write.entryProgress := Some table; Write.calls := log0 |}
  = ({| Write.entryProgress := Some table';
        Write.calls :=
          (log0 ++ (if Write.BuildOptions.entryProgress o
                    then [Write.call_entryProgress index bytesWritten totalBytes]
                    else []))
          ++ [Write.call_progress
                (fold_left (fun sum p => sum + Write.Progress.bytesWritten p) table' 0)
                (fold_left (fun sum p => sum + Write.Progress.totalBytes p) table' 0)] |},
     Ok tt).
Proof.
  intros Hp Hindex table'.
  assert (Hnth : exists p, nth_error table index = Some p).
  { destruct (nth_error table index) eqn:E; [now eexists|].
    apply nth_error_None in E. lia. }
  destruct Hnth as [p Hnth].
  unfold Write.buildProgressCallback, Write.bind, Write.assignProgress,
    Write.progressTotals, Write.log, Write.ret.
  rewrite Hp.
  destruct (Write.BuildOptions.entryProgress o); cbn; rewrite Hnth; cbn.
  - reflexivity.
  - now rewrite app_nil_r.
Qed.

(** Without [progress] the table is [undefined]: the callback reports to
    [entryProgress] when it is given, and then throws. *)
Lemma buildProgressCallback_without_progress options index bytesWritten totalBytes log0 :
  Write.wants options Write.BuildOptions.progress = false ->
  Write.buildProgressCallback options index bytesWritten totalBytes
    {| Write.entryProgress := None; Write.calls := log0 |}
  = ({| Write.entryProgress := None;
        Write.calls :=
          log0 ++ (if Write.wants options Write.BuildOptions.entryProgress
                   then [Write.call_entryProgress index bytesWritten totalBytes]
                   else []) |},
     Throw TypeError).
Proof.
  intros Hp.
  unfold Write.buildProgressCallback, Write.bind, Write.assignProgress, Write.log,
    Write.ret.
  destruct options as [o|]; cbn in *.
  - destruct (Write.BuildOptions.entryProgress o); cbn.
    + reflexivity.
    + now rewrite app_nil_r.
  - now rewrite app_nil_r.
Qed.

(** C4 at [writer.addString("a", "x"); writer.build({ entryProgress })]:
    the callback is invoked once, with (0, 1, 1), and then [build] fails with a
    [TypeError], because the table [entryProgress] was only allocated for
    [progress]. *)
Theorem build_with_entryProgress_only_throws :
  Write.runBuild (host := SmallHost.host) oneEntryWriter entryProgressOnly
  = ({| Write.entryProgress := None;
        Write.calls := [Write.call_entryProgress 0 1 1] |},
     Throw TypeError).
Proof. vm_compute. reflexivity. Qed.

(** ** write.ts: what [build] assembles *)

Section BuildFacts.
Context {host : Host}.

Lemma writerOf_entries (items : list Item) :
  Write.entries (writerOf items) = map newEntryOf items.
Proof.
  unfold writerOf.
  assert (Hgen : forall w,
             Write.entries
               (fold_left (fun w it => Write.add w (item_name it) (item_source it)
                                                 (item_options it)) items w)
             = Write.entries w ++ map newEntryOf items).
  { induction items as [|it items IH]; intros w; cbn [fold_left map].
    - now rewrite app_nil_r.
    - rewrite IH. cbn [Write.add Write.entries]. now rewrite <- app_assoc. }
  apply Hgen.
Qed.

Lemma entryPartsLoop_ok options (items : list Item) :
  forall index st st' es parts,
  Write.entryPartsLoop options index (map newEntryOf items) st
  = (st', Ok (es, parts)) ->
  Forall2 drainedFrom items es
  /\ Write.Blob_of_parts parts = entriesBytes es (map itemData items).
Proof.
  induction items as [|it items IH]; intros index st st' es parts H.
  - inversion H; subst. split; [constructor | reflexivity].
  - cbn [map Write.entryPartsLoop] in H.
    apply bind_ok in H. destruct H as ([e ps] & st1 & Hparts & H).
    apply bind_ok in H. destruct H as ([rest parts'] & st2 & Hloop & Hret).
    inversion Hret; subst; clear Hret.
    apply IH in Hloop. destruct Hloop as (Hrest & Hbytes).
    assert (Hfresh : exists callback,
               Write.entryParts
                 (Write.set_progressCallback
                    (Write.newZipEntry (item_name it) (Write.stream (item_source it))
                                       (Write.expectedSize (item_source it))
                                       (item_options it)) callback) st
               = (st1, Ok (e, ps))).
    { destruct (Write.wants options Write.BuildOptions.progress
                || Write.wants options Write.BuildOptions.entryProgress).
      - eexists. exact Hparts.
      - exists None. exact Hparts. }
    destruct Hfresh as (callback & Hfresh).
    apply fresh_entryParts in Hfresh. cbn zeta in Hfresh.
    destruct Hfresh as (-> & Hn & Hf & Hm & Hc & Hu & Hcrc).
    assert (Hdfl : match Write.method e with 0 => false | _ => true end
                   = isCompressed (item_options it)).
    { rewrite Hm. fold (isCompressed (item_options it)).
      now destruct (isCompressed (item_options it)). }
    rewrite Hdfl in Hc. fold (itemData it) in Hc.
    split.
    + constructor; [|exact Hrest].
      unfold drainedFrom. repeat split; try assumption.
    + unfold Write.Blob_of_parts in *. rewrite map_app, concat_app, Hbytes.
      cbn [map concat Write.BlobPart_bytes entriesBytes].
      rewrite DataView_bytes_of_buffer, Hdfl, app_nil_r.
      fold (itemData it). now rewrite <- !app_assoc.
Qed.

Lemma directoryLoop_ok es : forall offset directorySize_,
  exists parts,
    Write.directoryLoop es offset directorySize_
    = Ok (parts, offset + sumEntrySize es, directorySize_ + sumDirectorySize es)
    /\ Write.Blob_of_parts parts = directoryBytes es offset.
Proof.
  induction es as [|e es IH]; intros offset directorySize_.
  - exists []. cbn. rewrite !Z.add_0_r. split; reflexivity.
  - destruct (IH (offset + Write.entrySize e) (directorySize_ + Write.directorySize e))
      as (parts & Hloop & Hbytes).
    eexists. cbn [Write.directoryLoop]. rewrite directoryParts_layout.
    cbn [rbind Ok]. rewrite Hloop. cbn [rbind Ok].
    split.
    + unfold Ok. f_equal. f_equal; [f_equal|]; cbn [sumEntrySize sumDirectorySize fold_right];
        fold (sumEntrySize es); fold (sumDirectorySize es); lia.
    + unfold Write.Blob_of_parts in *. cbn [app map concat Write.BlobPart_bytes].
      rewrite DataView_bytes_of_buffer, Hbytes.
      cbn [directoryBytes]. reflexivity.
Qed.

(** A successful [build] returns the archive laid out as [archiveBytes]. *)
Lemma build_ok (items : list Item) options st st' w' blob :
  Write.build (writerOf items) options st = (st', Ok (w', blob)) ->
  Forall2 drainedFrom items (Write.entries w')
  /\ blob = archiveBytes (Write.entries w') (map itemData items).
Proof.
  unfold Write.build. rewrite writerOf_entries. intros H.
  apply bind_ok in H. destruct H as ([es parts] & st1 & Hloop & H).
  apply entryPartsLoop_ok in Hloop. destruct Hloop as (Hes & Hparts).
  destruct (directoryLoop_ok es 0 0) as (dirParts & Hdir & Hdirbytes).
  apply bind_ok in H. destruct H as ([[dirParts' offset] dsz] & st2 & Hd & H).
  unfold Write.lift in Hd. rewrite Hdir in Hd.
  inversion Hd; subst; clear Hd.
  apply bind_ok in H. destruct H as (footer & st3 & Hf & H).
  unfold Write.lift in Hf. rewrite footerRecord_layout in Hf.
  inversion Hf; subst; clear Hf.
  inversion H; subst; clear H. cbn [Write.entries].
  split; [exact Hes|].
  unfold archiveBytes. unfold Write.Blob_of_parts in *.
  rewrite !map_app, !concat_app, Hparts, Hdirbytes.
  cbn [map concat Write.BlobPart_bytes].
  now rewrite DataView_bytes_of_buffer, app_nil_r.
Qed.

End BuildFacts.

(** ** write.ts: where the records sit in the archive *)

Lemma sumEntrySize_nonneg es datas :
  Forall2 sizedAs es datas -> 0 <= sumEntrySize es.
Proof.
  induction 1 as [|e d es datas He _ IH]; cbn; [lia|].
  fold (sumEntrySize es). unfold Write.entrySize, sizedAs in *. lia.
Qed.

Lemma sumEntrySize_firstn_le es datas k :
  Forall2 sizedAs es datas -> sumEntrySize (firstn k es) <= sumEntrySize es.
Proof.
  intros H. revert k. induction H as [|e d es datas He Hrest IH]; intros k.
  - destruct k; cbn; lia.
  - destruct k as [|k]; cbn [firstn sumEntrySize fold_right].
    + fold (sumEntrySize es). pose proof (sumEntrySize_nonneg es datas Hrest).
      unfold Write.entrySize, sizedAs in *. lia.
    + fold (sumEntrySize es) (sumEntrySize (firstn k es)). specialize (IH k). lia.
Qed.

Lemma entriesBytes_length es datas :
  Forall2 sizedAs es datas ->
  Z.of_nat (length (entriesBytes es datas)) = sumEntrySize es.
Proof.
  induction 1 as [|e d es datas He _ IH]; cbn [entriesBytes sumEntrySize fold_right].
  - reflexivity.
  - fold (sumEntrySize es). rewrite !length_app, localHeaderBytes_length.
    unfold Write.entrySize, sizedAs in *. lia.
Qed.

Lemma entriesBytes_at es datas :
  Forall2 sizedAs es datas ->
  forall k e, nth_error es k = Some e ->
  exists d pre post,
    nth_error datas k = Some d
    /\ entriesBytes es datas
       = pre ++ (localHeaderBytes e ++ Write.rawName e ++ d) ++ post
    /\ Z.of_nat (length pre) = sumEntrySize (firstn k es).
Proof.
  induction 1 as [|e0 d0 es datas He Hrest IH]; intros k e Hk.
  - destruct k; discriminate.
  - destruct k as [|k]; cbn in Hk.
    + inversion Hk; subst e0. exists d0, [], (entriesBytes es datas).
      repeat split.
    + destruct (IH k e Hk) as (d & pre & post & Hd & Hbytes & Hpre).
      exists d, ((localHeaderBytes e0 ++ Write.rawName e0 ++ d0) ++ pre), post.
      split; [exact Hd|]. split.
      * cbn [entriesBytes]. rewrite Hbytes. now rewrite <- !app_assoc.
      * cbn [firstn sumEntrySize fold_right]. fold (sumEntrySize (firstn k es)).
        rewrite !length_app, localHeaderBytes_length.
        unfold Write.entrySize, sizedAs in *. lia.
Qed.

Lemma directoryBytes_length es : forall offset,
  Z.of_nat (length (directoryBytes es offset)) = sumDirectorySize es.
Proof.
  induction es as [|e es IH]; intros offset;
    cbn [directoryBytes sumDirectorySize fold_right].
  - reflexivity.
  - fold (sumDirectorySize es).
    rewrite !length_app, directoryHeaderBytes_length, !Nat2Z.inj_add, IH.
    unfold Write.directorySize. lia.
Qed.

Lemma directoryBytes_at es :
  forall offset k e, nth_error es k = Some e ->
  exists pre post,
    directoryBytes es offset
    = pre ++ (directoryHeaderBytes e (offset + sumEntrySize (firstn k es))
              ++ Write.rawName e) ++ post
    /\ Z.of_nat (length pre) = sumDirectorySize (firstn k es).
Proof.
  induction es as [|e0 es IH]; intros offset k e Hk.
  - destruct k; discriminate.
  - destruct k as [|k]; cbn in Hk.
    + inversion Hk; subst e0.
      exists [], (directoryBytes es (offset + Write.entrySize e)).
      cbn [firstn sumEntrySize fold_right app directoryBytes].
      rewrite Z.add_0_r. split; [now rewrite <- app_assoc | reflexivity].
    + destruct (IH (offset + Write.entrySize e0) k e Hk) as (pre & post & Hbytes & Hpre).
      exists ((directoryHeaderBytes e0 offset ++ Write.rawName e0) ++ pre), post.
      split.
      * cbn [directoryBytes firstn sumEntrySize fold_right].
        fold (sumEntrySize (firstn k es)). rewrite Hbytes.
        rewrite <- !app_assoc. do 4 f_equal. f_equal. lia.
      * cbn [firstn sumDirectorySize fold_right].
        fold (sumDirectorySize (firstn k es)).
        rewrite !length_app, directoryHeaderBytes_length.
        unfold Write.directorySize. lia.
Qed.

Lemma drainedFrom_sizedAs {host : Host} (items : list Item) es :
  Forall2 drainedFrom items es -> Forall2 sizedAs es (map itemData items).
Proof.
  induction 1 as [|it e items es He _ IH]; cbn [map]; constructor.
  - apply He.
  - exact IH.
Qed.

Lemma firstn_skipn_middle {A} (pre mid post : list A) n m :
  n = length pre -> m = length mid ->
  firstn m (skipn n (pre ++ mid ++ post)) = mid.
Proof.
  intros -> ->.
  rewrite skipn_app, skipn_all, Nat.sub_diag. cbn [app skipn].
  rewrite firstn_app, firstn_all, Nat.sub_diag. cbn [firstn].
  apply app_nil_r.
Qed.

Lemma lastBytes_app pre suffix n :
  length suffix = n -> lastBytes n (pre ++ suffix) = suffix.
Proof.
  intros <-. unfold lastBytes. rewrite length_app.
  replace (length pre + length suffix - length suffix)%nat with (length pre) by lia.
  rewrite skipn_app, skipn_all, Nat.sub_diag. reflexivity.
Qed.

Lemma uint32_roundtrip v : le_combine (le_split 4 v) = v mod 2 ^ 32.
Proof. apply (le_combine_split 4 v). Qed.

Lemma uint16_roundtrip v : le_combine (le_split 2 v) = v mod 2 ^ 16.
Proof. apply (le_combine_split 2 v). Qed.

Lemma directoryHeader_offset_field e offset :
  field 4 (directoryHeaderBytes e offset) 42 = offset mod 2 ^ 32.
Proof. apply uint32_roundtrip. Qed.

Lemma footer_offset_field n dsz offset :
  DataView.getUint32 (DataView.of_buffer (footerBytes n dsz offset)) 16
  = Ok (offset mod 2 ^ 32).
Proof.
  rewrite <- uint32_roundtrip. reflexivity.
Qed.

Lemma footerView_of_archive es datas :
  Read.ZipFooter.footerView (Read.ZipData.mk (archiveBytes es datas))
  = DataView.of_buffer
      (footerBytes (Z.of_nat (length es)) (sumDirectorySize es) (sumEntrySize es)).
Proof.
  rewrite footerView_last22.
  - unfold archiveBytes. rewrite !app_assoc. now rewrite lastBytes_app.
  - unfold archiveBytes. rewrite !length_app, footerBytes_length. lia.
Qed.

Lemma Forall2_nth_error_r {A B} (R : A -> B -> Prop) l l' :
  Forall2 R l l' ->
  forall k b, nth_error l' k = Some b ->
  exists a, nth_error l k = Some a /\ R a b.
Proof.
  induction 1 as [|a0 b0 l l' HR _ IH]; intros k b Hk.
  - destruct k; discriminate.
  - destruct k as [|k]; cbn in Hk.
    + inversion Hk; subst. now exists a0.
    + apply IH, Hk.
Qed.


(** Where [build] puts an entry and its directory record, and what the
    32-bit offset fields hold: the sums of [entrySize], reduced modulo 2^32
    by [setUint32]. *)
Lemma recorded_offsets {host : Host} (items : list Item) options st st' w' blob :
  Write.build (writerOf items) options st = (st', Ok (w', blob)) ->
  let es := Write.entries w' in
  (forall k e, nth_error es k = Some e ->
     exists it,
       nth_error items k = Some it /\ drainedFrom it e
       /\ firstn (Z.to_nat (Write.entrySize e))
                 (skipn (Z.to_nat (sumEntrySize (firstn k es))) blob)
          = localHeaderBytes e ++ Write.rawName e ++ itemData it
       /\ firstn 46 (skipn (Z.to_nat (sumEntrySize es + sumDirectorySize (firstn k es)))
                           blob)
          = directoryHeaderBytes e (sumEntrySize (firstn k es))
       /\ DataView.getUint32 (DataView.of_buffer blob)
            (sumEntrySize es + sumDirectorySize (firstn k es) + 42)
          = Ok (sumEntrySize (firstn k es) mod 2 ^ 32))
  /\ DataView.getUint32 (Read.ZipFooter.footerView (Read.ZipData.mk blob)) 16
     = Ok (sumEntrySize es mod 2 ^ 32).
Proof.
  intros H es. apply build_ok in H. destruct H as (Hdrained & ->).
  fold es in Hdrained |- *.
  pose proof (drainedFrom_sizedAs items es Hdrained) as Hsized.
  split.
  - intros k e Hk.
    destruct (Forall2_nth_error_r _ _ _ Hdrained k e Hk) as (it & Hit & He).
    exists it. split; [exact Hit|]. split; [exact He|].
    destruct (entriesBytes_at es _ Hsized k e Hk) as (d & pre & post & Hd & Hbytes & Hpre).
    rewrite (map_nth_error itemData k items Hit) in Hd.
    inversion Hd; subst d; clear Hd.
    destruct (directoryBytes_at es 0 k e Hk) as (dpre & dpost & Hdir & Hdpre).
    rewrite Z.add_0_l in Hdir.
    pose proof (entriesBytes_length es _ Hsized) as Hlen.
    unfold archiveBytes.
    split; [|split].
    + rewrite Hbytes.
      assert (Hmid : Z.to_nat (Write.entrySize e)
                     = length (localHeaderBytes e ++ Write.rawName e ++ itemData it)).
      { rewrite !length_app, localHeaderBytes_length.
        destruct He as (_ & _ & _ & Hc & _). unfold Write.entrySize. lia. }
      set (mid := localHeaderBytes e ++ Write.rawName e ++ itemData it) in *.
      rewrite <- !app_assoc.
      apply firstn_skipn_middle; [lia | exact Hmid].
    + rewrite Hdir, <- !app_assoc.
      rewrite (app_assoc (entriesBytes es (map itemData items)) dpre).
      apply firstn_skipn_middle; [rewrite length_app; lia | reflexivity].
    + rewrite Hdir, <- !app_assoc.
      rewrite (app_assoc (entriesBytes es (map itemData items)) dpre).
      replace (sumEntrySize es + sumDirectorySize (firstn k es))
        with (Z.of_nat (length (entriesBytes es (map itemData items) ++ dpre)))
        by (rewrite length_app; lia).
      unfold DataView.getUint32.
      rewrite getUint_within by (rewrite ?directoryHeaderBytes_length; lia).
      change (Z.to_nat 42) with 42%nat.
      now rewrite directoryHeader_offset_field.
  - rewrite footerView_of_archive. apply footer_offset_field.
Qed.

(** ** write.ts: [build] without callbacks always completes *)

Section BuildTotal.
Context {host : Host}.

Lemma measure_all_no_callback source : forall e st,
  Write.progressCallback e = None ->
  exists e', Write.measure_all e source st = (st, Ok e')
             /\ Write.progressCallback e' = None
             /\ Write.compressedStream e' = Write.compressedStream e.
Proof.
  induction source as [|c source IH]; intros e st Hcb.
  - exists e. repeat split. exact Hcb.
  - cbn [Write.measure_all]. unfold Write.bind at 1.
    unfold Write.measure, Write.bind, Write.ret.
    cbn [Write.progressCallback Write.set_uncompressedSize]. rewrite Hcb.
    cbv beta iota delta [Ok].
    match goal with
    | |- context [Write.measure_all ?e1 source st] =>
        destruct (IH e1 st Hcb) as (e' & Hrun & Hcb' & Hs)
    end.
    exists e'. split; [exact Hrun|]. split; [exact Hcb'|]. exact Hs.
Qed.

Lemma bind_run {A B} (m : Write.M A) (k : A -> Write.M B) st st1 a :
  m st = (st1, inr a) -> Write.bind m k st = k a st1.
Proof. intros H. unfold Write.bind. now rewrite H. Qed.

Lemma drain_no_callback (it : Item) st :
  exists e data, Write.drain (newEntryOf it) st = (st, Ok (e, data)).
Proof.
  unfold Write.drain.
  cbn [newEntryOf Write.newZipEntry Write.compressedStream].
  match goal with
  | |- context [Write.measure_all ?e0 ?src] =>
      destruct (measure_all_no_callback src e0 st eq_refl) as (e' & Hrun & _ & _)
  end.
  rewrite (bind_run _ _ _ _ _ Hrun).
  eexists. eexists. reflexivity.
Qed.

Lemma entryParts_no_callback (it : Item) st :
  exists e ps, Write.entryParts (newEntryOf it) st = (st, Ok (e, ps)).
Proof.
  destruct (drain_no_callback it st) as (e & data & Hdrain).
  unfold Write.entryParts.
  rewrite (bind_run _ _ _ _ _ Hdrain).
  rewrite (bind_run _ _ st st (DataView.of_buffer (localHeaderBytes e)))
    by (unfold Write.lift; now rewrite localHeader_layout).
  eexists. eexists. reflexivity.
Qed.

Lemma entryPartsLoop_no_options (items : list Item) : forall index st,
  exists es parts,
    Write.entryPartsLoop None index (map newEntryOf items) st = (st, Ok (es, parts)).
Proof.
  induction items as [|it items IH]; intros index st.
  - exists [], []. reflexivity.
  - cbn [map Write.entryPartsLoop Write.wants orb].
    destruct (entryParts_no_callback it st) as (e & ps & He).
    destruct (IH (S index) st) as (es & parts & Hes).
    rewrite (bind_run _ _ _ _ _ He), (bind_run _ _ _ _ _ Hes).
    eexists. eexists. reflexivity.
Qed.

Lemma build_without_options_total (items : list Item) st :
  exists w' blob,
    Write.build (writerOf items) None st
    = ({| Write.entryProgress := None; Write.calls := Write.calls st |},
       Ok (w', blob)).
Proof.
  unfold Write.build. rewrite writerOf_entries. cbn [Write.wants].
  set (st0 := {| Write.entryProgress := None; Write.calls := Write.calls st |}).
  destruct (entryPartsLoop_no_options items 0 st0) as (es & parts & Hloop).
  destruct (directoryLoop_ok es 0 0) as (dirParts & Hdir & _).
  rewrite (bind_run _ _ _ _ _ Hloop).
  rewrite (bind_run _ _ st0 st0 (dirParts, 0 + sumEntrySize es, 0 + sumDirectorySize es))
    by (unfold Write.lift; now rewrite Hdir).
  rewrite (bind_run _ _ st0 st0
             (DataView.of_buffer
                (footerBytes (Z.of_nat (length es)) (0 + sumDirectorySize es)
                             (0 + sumEntrySize es))))
    by (unfold Write.lift; now rewrite footerRecord_layout).
  eexists. eexists. reflexivity.
Qed.

End BuildTotal.

(** ** write.ts: the offset invariant *)

Lemma sumEntrySize_firstn_nonneg es datas k :
  Forall2 sizedAs es datas -> 0 <= sumEntrySize (firstn k es).
Proof.
  intros H. revert k. induction H as [|e d es datas He _ IH]; intros k.
  - destruct k; cbn; lia.
  - destruct k as [|k]; cbn [firstn sumEntrySize fold_right]; [lia|].
    fold (sumEntrySize (firstn k es)). specialize (IH k).
    unfold Write.entrySize, sizedAs in *. lia.
Qed.

(** C1, within the range of the 32-bit fields: when [build] completes and the
    entries take less than 2^32 bytes together, entry [k] (local header, name,
    data) starts at byte [sum of entrySize(e_i), i < k] of the archive, in
    insertion order; the directory record of entry [k] holds that sum in its
    local-header offset field, and the footer holds the sum over all entries
    as the directory offset. *)
Theorem recorded_offsets_are_entrySize_sums {host : Host}
        (items : list Item) options st st' w' blob :
  Write.build (writerOf items) options st = (st', Ok (w', blob)) ->
  sumEntrySize (Write.entries w') < 2 ^ 32 ->
  let es := Write.entries w' in
  (forall k e, nth_error es k = Some e ->
     exists it,
       nth_error items k = Some it /\ drainedFrom it e
       /\ firstn (Z.to_nat (Write.entrySize e))
                 (skipn (Z.to_nat (sumEntrySize (firstn k es))) blob)
          = localHeaderBytes e ++ Write.rawName e ++ itemData it
       /\ firstn 46 (skipn (Z.to_nat (sumEntrySize es + sumDirectorySize (firstn k es)))
                           blob)
          = directoryHeaderBytes e (sumEntrySize (firstn k es))
       /\ DataView.getUint32 (DataView.of_buffer blob)
            (sumEntrySize es + sumDirectorySize (firstn k es) + 42)
          = Ok (sumEntrySize (firstn k es)))
  /\ DataView.getUint32 (Read.ZipFooter.footerView (Read.ZipData.mk blob)) 16
     = Ok (sumEntrySize es).
Proof.
  intros Hbuild Hsmall es.
  pose proof (recorded_offsets items options st st' w' blob Hbuild) as [Hentries Hfooter].
  apply build_ok in Hbuild. destruct Hbuild as (Hdrained & _).
  pose proof (drainedFrom_sizedAs items _ Hdrained) as Hsized.
  fold es in Hentries, Hfooter, Hsized, Hsmall.
  split.
  - intros k e Hk.
    destruct (Hentries k e Hk) as (it & H1 & H2 & H3 & H4 & H5).
    exists it. repeat (split; [assumption|]).
    rewrite H5. f_equal. apply Z.mod_small.
    pose proof (sumEntrySize_firstn_nonneg es _ k Hsized).
    pose proof (sumEntrySize_firstn_le es _ k Hsized). lia.
  - rewrite Hfooter. f_equal. apply Z.mod_small.
    pose proof (sumEntrySize_nonneg es _ Hsized). lia.
Qed.

Lemma recorded_offsets_are_entrySize_sums_witness :
  exists st' w' blob,
    Write.build (host := SmallHost.host) (writerOf twoFiles) None freshState
    = (st', Ok (w', blob))
    /\ sumEntrySize (Write.entries w') < 2 ^ 32
    /\ DataView.getUint32 (Read.ZipFooter.footerView (Read.ZipData.mk blob)) 16
       = Ok (sumEntrySize (Write.entries w')).
Proof.
  assert (E : Write.build (host := SmallHost.host) (writerOf twoFiles) None freshState
              = twoFilesBuilt) by (vm_compute; reflexivity).
  unfold twoFilesBuilt in E.
  eexists. eexists. eexists. split; [exact E|].
  assert (Hsmall : forall n, n = 106 -> n < 2 ^ 32) by (intros n ->; reflexivity).
  split; [apply Hsmall; vm_compute; reflexivity|].
  exact (proj2 (recorded_offsets_are_entrySize_sums (host := SmallHost.host)
                  twoFiles None freshState _ _ _ E (Hsmall _ eq_refl))).
Defined.

Lemma fourGiB_length : Z.of_nat (length fourGiB) = 4294967296.
Proof. unfold fourGiB. rewrite repeat_length. apply Z2Nat.id. lia. Qed.

#[local] Opaque fourGiB.

(** C1 as stated fails beyond the 32-bit range: when a stored entry of 2^32
    bytes named ["a"] comes first, the second entry starts at byte
    4294967327, and the offset field of its directory record holds 31. *)
Lemma offset_field_wraps_at_4GiB :
  exists st' w' blob,
    Write.build (host := SmallHost.host) (writerOf hugeItems) None freshState
    = (st', Ok (w', blob))
    /\ sumEntrySize (firstn 1 (Write.entries w')) = 4294967327
    /\ DataView.getUint32 (DataView.of_buffer blob)
         (sumEntrySize (Write.entries w')
          + sumDirectorySize (firstn 1 (Write.entries w')) + 42)
       = Ok 31.
Proof.
  destruct (build_without_options_total (host := SmallHost.host) hugeItems freshState)
    as (w' & blob & Hbuild).
  eexists. exists w', blob. split; [exact Hbuild|].
  pose proof (recorded_offsets hugeItems None _ _ w' blob Hbuild) as [Hentries _].
  apply build_ok in Hbuild. destruct Hbuild as (Hdrained & _).
  unfold hugeItems in Hdrained.
  inversion Hdrained as [|it0 e0 items0 es0 He0 Hrest]; subst.
  inversion Hrest as [|it1 e1 items1 es1 He1 Hrest1]; subst.
  inversion Hrest1; subst.
  match goal with H : _ = Write.entries w' |- _ => rewrite <- H in * end.
  assert (Hsum : sumEntrySize (firstn 1 [e0; e1]) = 4294967327).
  { cbn [firstn sumEntrySize fold_right]. unfold Write.entrySize.
    destruct He0 as (Hname & _ & _ & Hsize & _).
    rewrite Hname, Hsize.
    change (itemData (@mkItem SmallHost.host "a"%string
                        {| Write.stream := [fourGiB]; Write.expectedSize := None |}
                        storedOption))
      with (fourGiB ++ []).
    rewrite app_nil_r, fourGiB_length. reflexivity. }
  split; [exact Hsum|].
  destruct (Hentries 1%nat e1 eq_refl) as (it & _ & _ & _ & _ & Hfield).
  rewrite Hfield, Hsum. reflexivity.
Qed.

(** ** read.ts on an archive written by write.ts *)

Lemma Blob_slice_middle a b c :
  Blob_slice (a ++ b ++ c) (Z.of_nat (length a))
             (Z.of_nat (length a) + Z.of_nat (length b)) = b.
Proof.
  unfold Blob_slice. rewrite !length_app.
  replace (Z.of_nat (length a) <? 0) with false by (symmetry; apply Z.ltb_ge; lia).
  replace (Z.of_nat (length a) + Z.of_nat (length b) <? 0) with false
    by (symmetry; apply Z.ltb_ge; lia).
  apply firstn_skipn_middle; lia.
Qed.

Lemma ZipFooter_new_footerBytes n dsz offset :
  Read.ZipFooter.new (DataView.of_buffer (footerBytes n dsz offset))
  = Ok (Read.ZipFooter.mk 0 0 (n mod 2 ^ 16) (n mod 2 ^ 16)
                          (dsz mod 2 ^ 32) (offset mod 2 ^ 32) 0).
Proof.
  rewrite <- !uint16_roundtrip, <- !uint32_roundtrip. reflexivity.
Qed.

Lemma directoryBytes_layout es : forall offset,
  Forall (fun e => Z.of_nat (length (Write.rawName e)) < 2 ^ 16) es ->
  DirectoryLayout (directoryBytes es offset) (readBackAll es offset).
Proof.
  induction es as [|e es IH]; intros offset Hnames.
  - constructor.
  - inversion Hnames as [|e' es' Hname Hrest]; subst.
    cbn [directoryBytes readBackAll]. unfold readBack.
    apply (layout_entry (directoryHeaderBytes e offset) (Write.rawName e) [] []
                        (directoryBytes es (offset + Write.entrySize e))
                        (readBackAll es (offset + Write.entrySize e))).
    + reflexivity.
    + reflexivity.
    + change (field 2 (directoryHeaderBytes e offset) 28)
        with (le_combine (le_split 2 (Z.of_nat (length (Write.rawName e))))).
      rewrite uint16_roundtrip. apply Z.mod_small. lia.
    + reflexivity.
    + reflexivity.
    + apply IH, Hrest.
Qed.

Lemma readBack_relativeOffset e offset :
  Read.ZipDirectoryEntry.relativeOffset (readBack e offset) = offset mod 2 ^ 32.
Proof. apply uint32_roundtrip. Qed.

Lemma readBack_compressedSize e offset :
  Read.ZipDirectoryEntry.compressedSize (readBack e offset)
  = Write.compressedSize e mod 2 ^ 32.
Proof. apply uint32_roundtrip. Qed.

Lemma readBack_compressionMethod e offset :
  Read.ZipDirectoryEntry.compressionMethod (readBack e offset)
  = Write.method e mod 2 ^ 16.
Proof. apply uint16_roundtrip. Qed.

Section RoundTrip.
Context {host : Host} (laws : HostLaws host).

(** One entry: the reader finds the data that the writer put after the
    local header and the name, and decodes it to the source's bytes. *)
Lemma collectEntry_readBack (it : Item) e pre rest offset :
  drainedFrom it e -> nameFits it ->
  Z.of_nat (length pre) = offset ->
  offset + Write.entrySize e < 2 ^ 32 ->
  collectEntry
    (Read.ZipEntry.fromDirectoryEntry
       (Read.ZipData.mk
          (pre ++ (localHeaderBytes e ++ Write.rawName e ++ itemData it) ++ rest))
       (readBack e offset))
  = (item_name it, Some (itemContent it)).
Proof.
  intros (Hname & _ & Hmethod & Hsize & _) (Hutf8 & _) Hpre Hbound.
  unfold Write.entrySize in Hbound.
  unfold collectEntry, Read.ZipEntry.name, Read.ZipEntry.uncompressedStream,
    Read.ZipEntry.fromDirectoryEntry.
  cbn [Read.ZipEntry.rawName Read.ZipEntry.header Read.ZipEntry.compressedData
       Read.ZipLocalHeader.fromDirectoryEntry Read.ZipLocalHeader.method].
  rewrite readBack_relativeOffset, readBack_compressedSize, readBack_compressionMethod.
  change (Read.ZipDirectoryEntry.rawName (readBack e offset)) with (Write.rawName e).
  change (Read.ZipDirectoryEntry.rawExtraField (readBack e offset)) with (@nil byte).
  rewrite (Z.mod_small offset) by lia.
  rewrite (Z.mod_small (Write.compressedSize e)) by lia.
  assert (Hslice :
            Read.ZipData.slice
              (Read.ZipData.mk
                 (pre ++ (localHeaderBytes e ++ Write.rawName e ++ itemData it) ++ rest))
              (offset + Read.ZipLocalHeader.SIZE
               + Z.of_nat (length (Write.rawName e)) + Z.of_nat (length (@nil byte)))
              (Write.compressedSize e)
            = itemData it).
  { unfold Read.ZipData.slice. cbn [Read.ZipData.blob].
    replace (pre ++ (localHeaderBytes e ++ Write.rawName e ++ itemData it) ++ rest)
      with ((pre ++ localHeaderBytes e ++ Write.rawName e) ++ itemData it ++ rest)
      by (now rewrite <- !app_assoc).
    replace (offset + Read.ZipLocalHeader.SIZE
             + Z.of_nat (length (Write.rawName e)) + Z.of_nat (length (@nil byte)))
      with (Z.of_nat (length (pre ++ localHeaderBytes e ++ Write.rawName e)))
      by (rewrite !length_app, localHeaderBytes_length;
          unfold Read.ZipLocalHeader.SIZE; cbn [length]; lia).
    rewrite Hsize. apply Blob_slice_middle. }
  rewrite Hslice.
  unfold Read.fromUtf8. rewrite Hname. unfold Write.toUtf8. rewrite Hutf8.
  f_equal.
  rewrite Hmethod. unfold itemData, itemContent.
  destruct (isCompressed (item_options it)); cbn [pipelineOutput].
  - change (8 mod 2 ^ 16 =? 0) with false. cbv iota.
    destruct (inflate_deflate host laws (Write.stream (item_source it))
                (Blob_stream (concat (CompressionStream (Write.stream (item_source it))))))
      as (out & Hout & Hconcat).
    + apply (Blob_stream_concat host laws).
    + rewrite Hout. cbn [option_map]. now rewrite Hconcat.
  - change (0 mod 2 ^ 16 =? 0) with true. cbv iota. cbn [option_map].
    now rewrite (Blob_stream_concat host laws).
Qed.

Lemma collect_readBackAll (items : list Item) es :
  Forall2 drainedFrom items es -> Forall nameFits items ->
  forall pre rest offset,
  Z.of_nat (length pre) = offset ->
  offset + sumEntrySize es < 2 ^ 32 ->
  map (fun de =>
         collectEntry
           (Read.ZipEntry.fromDirectoryEntry
              (Read.ZipData.mk (pre ++ entriesBytes es (map itemData items) ++ rest))
              de))
      (readBackAll es offset)
  = written items.
Proof.
  induction 1 as [|it e items es He Hrest IH]; intros Hnames pre rest offset Hpre Hbound.
  - reflexivity.
  - inversion Hnames as [|it' items' Hfit Hfits]; subst it' items'.
    pose proof (drainedFrom_sizedAs items es Hrest) as Hsized.
    pose proof (sumEntrySize_nonneg es _ Hsized) as Hnonneg.
    cbn [sumEntrySize fold_right] in Hbound. fold (sumEntrySize es) in Hbound.
    cbn [map readBackAll entriesBytes written]. f_equal.
    + rewrite <- (app_assoc _ (entriesBytes es (map itemData items)) rest).
      apply collectEntry_readBack; try assumption. lia.
    + specialize (IH Hfits
                     (pre ++ localHeaderBytes e ++ Write.rawName e ++ itemData it)
                     rest (offset + Write.entrySize e)).
      replace (pre ++ ((localHeaderBytes e ++ Write.rawName e ++ itemData it)
                       ++ entriesBytes es (map itemData items)) ++ rest)
        with ((pre ++ localHeaderBytes e ++ Write.rawName e ++ itemData it)
                ++ entriesBytes es (map itemData items) ++ rest)
        by (now rewrite <- !app_assoc).
      apply IH.
      * rewrite !length_app, localHeaderBytes_length.
        destruct He as (_ & _ & _ & Hc & _). unfold Write.entrySize. lia.
      * lia.
Qed.

End RoundTrip.

Lemma archiveBytes_length es datas :
  Forall2 sizedAs es datas ->
  Z.of_nat (length (archiveBytes es datas))
  = sumEntrySize es + sumDirectorySize es + 22.
Proof.
  intros H. unfold archiveBytes.
  rewrite !length_app, footerBytes_length, !Nat2Z.inj_add.
  rewrite (entriesBytes_length es datas H), directoryBytes_length. lia.
Qed.

Lemma sumDirectorySize_nonneg es : 0 <= sumDirectorySize es.
Proof.
  induction es as [|e es IH]; cbn [sumDirectorySize fold_right]; [lia|].
  fold (sumDirectorySize es). unfold Write.directorySize. lia.
Qed.

Lemma drained_names_fit {host : Host} (items : list Item) es :
  Forall2 drainedFrom items es -> Forall nameFits items ->
  Forall (fun e => Z.of_nat (length (Write.rawName e)) < 2 ^ 16) es.
Proof.
  induction 1 as [|it e items es He _ IH]; intros Hfits.
  - constructor.
  - inversion Hfits as [|it' items' Hfit Hrest]; subst. constructor.
    + destruct He as (-> & _). apply Hfit.
    + apply IH, Hrest.
Qed.

Lemma view_directory es datas :
  Forall2 sizedAs es datas ->
  Read.ZipData.view (Read.ZipData.mk (archiveBytes es datas))
                    (sumEntrySize es) (sumDirectorySize es)
  = DataView.of_buffer (directoryBytes es 0).
Proof.
  intros Hsized.
  unfold Read.ZipData.view, Read.ZipData.slice, archiveBytes. cbn [Read.ZipData.blob].
  set (footer := footerBytes _ _ _).
  rewrite <- (entriesBytes_length es _ Hsized), <- (directoryBytes_length es 0).
  now rewrite Blob_slice_middle.
Qed.

(** Reading an archive that [build] returned, when it is smaller than 2^32
    bytes and every name fits its length field. *)
Lemma read_back_archive {host : Host} (laws : HostLaws host)
      (items : list Item) options st st' w' blob :
  Write.build (writerOf items) options st = (st', Ok (w', blob)) ->
  Forall nameFits items ->
  Z.of_nat (length blob) < 2 ^ 32 ->
  exists g, Read.ZipReader.entries (Read.ZipReader.new blob) = Some g
            /\ Read.thrown g = None
            /\ collected g = written items.
Proof.
  intros Hbuild Hfits Hsmall.
  apply build_ok in Hbuild. destruct Hbuild as (Hdrained & ->).
  set (es := Write.entries w') in *.
  pose proof (drainedFrom_sizedAs items es Hdrained) as Hsized.
  rewrite (archiveBytes_length es _ Hsized) in Hsmall.
  pose proof (sumEntrySize_nonneg es _ Hsized) as He0.
  pose proof (sumDirectorySize_nonneg es) as Hd0.
  pose proof (directoryBytes_layout es 0 (drained_names_fit items es Hdrained Hfits))
    as Hlayout.
  assert (Hdir : Read.ZipDirectory.read (Read.ZipData.mk (archiveBytes es (map itemData items)))
                 = Ok (Read.ZipDirectory.mk
                         (Read.ZipFooter.mk 0 0 (Z.of_nat (length es) mod 2 ^ 16)
                            (Z.of_nat (length es) mod 2 ^ 16)
                            (sumDirectorySize es) (sumEntrySize es) 0)
                         (DataView.of_buffer (directoryBytes es 0)))).
  { unfold Read.ZipDirectory.read, Read.ZipFooter.read.
    rewrite footerView_of_archive, ZipFooter_new_footerBytes.
    cbn [rbind Ok Read.ZipFooter.directoryOffset Read.ZipFooter.directorySize].
    rewrite (Z.mod_small (sumDirectorySize es)), (Z.mod_small (sumEntrySize es)) by lia.
    now rewrite (view_directory es _ Hsized). }
  eexists. split.
  - unfold Read.ZipReader.entries, Read.ZipReader.new. cbn [Read.ZipReader.data].
    rewrite Hdir. cbv beta iota delta [Ok].
    unfold Read.ZipDirectory.entries. cbn [Read.ZipDirectory.data].
    rewrite (entriesFrom_layout _ _ Hlayout [] _).
    + cbn [option_map Read.yielded Read.thrown]. reflexivity.
    + cbn [DataView.of_buffer DataView.byteLength]. lia.
  - split; [reflexivity|].
    unfold collected. cbn [Read.yielded]. rewrite map_map.
    apply (collect_readBackAll laws items es Hdrained Hfits [] _ 0);
      [reflexivity | lia].
Qed.

(** The sources that [addBlob] and [addString] build hold the blob's bytes
    and the string's UTF-8 bytes. *)
Lemma itemContent_fromBlob {host : Host} (laws : HostLaws host) name blob options :
  itemContent (@mkItem host name (Write.ZipSource_fromBlob blob) options) = blob.
Proof. apply (Blob_stream_concat host laws). Qed.

Lemma itemContent_fromString {host : Host} (laws : HostLaws host) name data options :
  itemContent (@mkItem host name (Write.ZipSource_fromString data) options)
  = TextEncoder_encode data.
Proof. apply (Blob_stream_concat host laws). Qed.

Lemma writerOf_snoc {host : Host} (items : list Item) it :
  writerOf (items ++ [it])
  = Write.add (writerOf items) (item_name it) (item_source it) (item_options it).
Proof. unfold writerOf. now rewrite fold_left_app. Qed.

(** C2, within the limits of the format: for every list of items whose names
    survive the host's UTF-8 codec and encode to fewer than 2^16 bytes,
    [build] returns an archive, and when that archive is smaller than 2^32
    bytes the reader yields, without an exception and in the same order,
    entries whose decoded names are the written names and whose uncompressed
    streams carry the written contents, given that the host's decompression
    inverts its compression. *)
Theorem write_then_read_round_trip {host : Host} (laws : HostLaws host)
        (items : list Item) :
  Forall nameFits items ->
  exists st' w' blob,
    Write.runBuild (writerOf items) None = (st', Ok (w', blob))
    /\ (Z.of_nat (length blob) < 2 ^ 32 ->
        exists g, Read.ZipReader.entries (Read.ZipReader.new blob) = Some g
                  /\ Read.thrown g = None
                  /\ collected g = written items).
Proof.
  intros Hfits. unfold Write.runBuild.
  destruct (build_without_options_total items
              {| Write.entryProgress := None; Write.calls := [] |})
    as (w' & blob & Hbuild).
  eexists. exists w', blob. split; [exact Hbuild|].
  intros Hsmall.
  exact (read_back_archive laws items None _ _ w' blob Hbuild Hfits Hsmall).
Qed.

Lemma SmallHost_laws : HostLaws SmallHost.host.
Proof.
  split.
  - intros b. destruct b; cbn; [reflexivity | now rewrite app_nil_r].
  - intros source compressed H. exists compressed. split; [reflexivity | exact H].
Qed.

Lemma twoFiles_fit : Forall nameFits twoFiles.
Proof.
  repeat constructor; vm_compute; reflexivity.
Qed.

Lemma write_then_read_round_trip_witness :
  Forall nameFits twoFiles
  /\ exists st' w' blob,
      Write.runBuild (host := SmallHost.host) (writerOf twoFiles) None
      = (st', Ok (w', blob))
      /\ Z.of_nat (length blob) < 2 ^ 32
      /\ exists g, Read.ZipReader.entries (Read.ZipReader.new blob) = Some g
                   /\ Read.thrown g = None
                   /\ collected (host := SmallHost.host) g = written twoFiles.
Proof.
  split; [exact twoFiles_fit|].
  destruct (write_then_read_round_trip SmallHost_laws twoFiles twoFiles_fit)
    as (st' & w' & blob & Hbuild & Hread).
  exists st', w', blob. split; [exact Hbuild|].
  assert (E : Write.runBuild (host := SmallHost.host) (writerOf twoFiles) None
              = twoFilesBuilt) by (vm_compute; reflexivity).
  rewrite E in Hbuild. unfold twoFilesBuilt in Hbuild.
  assert (Hsmall : Z.of_nat (length blob) < 2 ^ 32).
  { inversion Hbuild; subst blob.
    assert (Hlt : forall n, n = 238 -> n < 2 ^ 32) by (intros n ->; reflexivity).
    apply Hlt. vm_compute. reflexivity. }
  split; [exact Hsmall|]. exact (Hread Hsmall).
Defined.

(** C2 as stated fails for a name of 65536 bytes: [build] completes and the
    archive is far smaller than 2^32 bytes, but the name length is stored as
    0, so the reader yields one entry whose name is empty and then throws on
    the bytes of the name, which it takes for the next directory record. *)
Lemma long_name_breaks_round_trip :
  HostLaws SmallHost.host
  /\ Forall (fun it => TextDecoder_decode (Host := SmallHost.host)
                         (TextEncoder_encode (item_name it)) = item_name it)
            longNameItems
  /\ (exists st' w',
         Write.runBuild (host := SmallHost.host) (writerOf longNameItems) None
         = (st', Ok (w', longNameArchive)))
  /\ exists g,
       Read.ZipReader.entries (Read.ZipReader.new longNameArchive) = Some g
       /\ Read.thrown g = Some (JsError "Invalid ZIP directory entry signature at 46")
       /\ map fst (collected (host := SmallHost.host) g) = [""%string]
       /\ collected (host := SmallHost.host) g <> written longNameItems.
Proof.
  split; [exact SmallHost_laws|]. split; [|split].
  - repeat constructor.
  - unfold longNameArchive, Write.runBuild.
    destruct (build_without_options_total (host := SmallHost.host) longNameItems
                {| Write.entryProgress := None; Write.calls := [] |})
      as (w' & blob & Hbuild).
    rewrite Hbuild. cbn [snd]. eexists. exists w'. reflexivity.
  - assert (E : option_map (fun g => (Read.thrown g, map fst (collected (host := SmallHost.host) g)))
                  (Read.ZipReader.entries (Read.ZipReader.new longNameArchive))
                = Some (Some (JsError "Invalid ZIP directory entry signature at 46"),
                        [""%string]))
      by (vm_compute; reflexivity).
    destruct (Read.ZipReader.entries (Read.ZipReader.new longNameArchive)) as [g|];
      [|discriminate].
    cbn [option_map] in E. inversion E as [[Hthrown Hnames]].
    exists g. split; [reflexivity|]. split; [reflexivity|]. split; [reflexivity|].
    intros Heq. rewrite Heq in Hnames. discriminate Hnames.
Qed.

(** ** The repository's tests, run on the model *)

(** [write.test.ts]: one deflated entry ["hello"] with content ["World"]. *)
Example snapshot_test :
  snd (Write.runBuild (host := SnapshotHost.host)
         (Write.addString (host := SnapshotHost.host) empty_writer
                          "hello"%string "World"%string None) None)
  = Ok ({| Write.entries :=
             [ {| Write.rawName := list_byte_of_string "hello";
                  Write.flags := 0x0800;
                  Write.method := 8;
                  Write.compressedSize := 7;
                  Write.uncompressedSize := 5;
                  Write.streamSizeGuess := 5;
                  Write.crc32 := 0xfbb63e47 - 2 ^ 32;
                  Write.compressedStream := Write.Disturbed;
                  Write.progressCallback := None |} ] |},
        SnapshotHost.expected).
Proof. vm_compute. reflexivity. Qed.

(** [read.test.ts]: the fields of [localEntryBytes], decoded where the
    signature is. *)
Example fromData_test :
  Read.ZipLocalHeader.fromData (DataView.of_buffer localEntryBytes) 0
  = Ok (Read.ZipLocalHeader.mk 0x14 0 8 0x7d1c 0x354b 0x7d90e1a6 0x45 0x4a 5 21).
Proof. vm_compute. reflexivity. Qed.

(** [round-trip.test.ts] *)
Example round_trip_test :
  option_map (collected (host := SmallHost.host))
    (Read.ZipReader.entries
       (Read.ZipReader.new
          (match snd twoFilesBuilt with inr (_, blob) => blob | inl _ => [] end)))
  = Some [("file1.txt"%string, Some (list_byte_of_string "Hello, world!"));
          ("file2.txt"%string, Some (list_byte_of_string "Goodbye, world!"))].
Proof. vm_compute. reflexivity. Qed.

(** With both callbacks given, [build] on the writer of one entry ["a"] with
    content ["x"] completes and both callbacks are invoked. *)
Example build_with_both_callbacks :
  exists w' blob,
    Write.runBuild (host := SmallHost.host) oneEntryWriter
      (Some {| Write.BuildOptions.progress := true;
               Write.BuildOptions.entryProgress := true |})
    = ({| Write.entryProgress := Some [Write.Progress.mk 1 1];
          Write.calls := [Write.call_entryProgress 0 1 1; Write.call_progress 1 1] |},
       Ok (w', blob)).
Proof. vm_compute. eexists. eexists. reflexivity. Qed.

Lemma bind_throw {A B} (m : Write.M A) (k : A -> Write.M B) st st1 e :
  m st = (st1, inl e) -> Write.bind m k st = (st1, inl e).
Proof. intros H. unfold Write.bind. now rewrite H. Qed.

(** Whatever the host, [build] with only [entryProgress] throws as soon as
    the first entry's source delivers a chunk. *)
Lemma entryProgress_only_throws_on_first_chunk {host : Host}
      name c source guess options (items : list Item) :
  snd (Write.runBuild
         {| Write.entries :=
              Write.newZipEntry name (c :: source) guess options
              :: map newEntryOf items |}
         entryProgressOnly)
  = Throw TypeError.
Proof.
  unfold Write.runBuild, Write.build.
  cbn [Write.entries Write.wants entryProgressOnly Write.BuildOptions.progress
       Write.calls].
  set (st0 := {| Write.entryProgress := None; Write.calls := [] |}).
  set (e0 := Write.newZipEntry name (c :: source) guess options).
  assert (Hloop : exists st1,
             Write.entryPartsLoop entryProgressOnly 0 (e0 :: map newEntryOf items) st0
             = (st1, inl TypeError)).
  { cbn [Write.entryPartsLoop Write.wants entryProgressOnly
         Write.BuildOptions.progress Write.BuildOptions.entryProgress orb].
    eexists. apply bind_throw. unfold Write.entryParts. apply bind_throw.
    unfold Write.drain, e0.
    cbn [Write.set_progressCallback Write.newZipEntry Write.compressedStream].
    apply bind_throw. cbn [Write.measure_all]. apply bind_throw.
    unfold Write.measure. apply bind_throw.
    cbn [Write.progressCallback Write.set_uncompressedSize].
    unfold st0. apply buildProgressCallback_without_progress. reflexivity. }
  destruct Hloop as (st1 & Hloop).
  rewrite (bind_throw _ _ _ _ _ Hloop). reflexivity.
Qed.

(** * Further properties of the sources *)

(** ** crc32.ts *)

Lemma ToInt32_ToUint32 z : JS.ToInt32 (JS.ToUint32 z) = JS.ToInt32 z.
Proof.
  unfold JS.ToInt32, JS.ToUint32. now rewrite Z.mod_mod by lia.
Qed.

Lemma bnot_ToUint32 z : JS.bnot (JS.ToUint32 z) = JS.bnot z.
Proof. unfold JS.bnot. now rewrite ToInt32_ToUint32. Qed.

(** X1: [crc32] can be resumed from any accumulator: updating with [a] and
    then with [b] is updating with [a ++ b]; the result is a signed 32-bit
    number; no bytes leave the accumulator as it is (as a signed 32-bit
    number); and the accumulator may be given signed or unsigned. *)
Theorem crc32_resumes_from_any_accumulator (crc : Z) (a b : list byte) :
  Crc32.crc32 (Crc32.crc32 crc a) b = Crc32.crc32 crc (a ++ b)
  /\ - 2 ^ 31 <= Crc32.crc32 crc a < 2 ^ 31
  /\ Crc32.crc32 crc [] = JS.ToInt32 crc
  /\ Crc32.crc32 (JS.ToUint32 crc) a = Crc32.crc32 crc a.
Proof.
  split; [apply crc32_app|]. split; [apply bnot_range|]. split.
  - unfold Crc32.crc32. cbn [fold_left]. apply bnot_involutive.
  - unfold Crc32.crc32. now rewrite bnot_ToUint32.
Qed.

(** X2: the table holds, for every byte value, the unsigned 32-bit remainder
    that eight bit-steps of the reflected polynomial 0xEDB88320 leave of it. *)
Theorem crc32_table_is_the_byte_remainder (b : byte) :
  length Crc32.table = 256%nat
  /\ Crc32.table_get (byte.unsigned b)
     = Nat.iter 8 Crc32.reference_bit (byte.unsigned b)
  /\ 0 <= Crc32.table_get (byte.unsigned b) < 2 ^ 32.
Proof.
  pose proof (byte.unsigned_range b) as Hb.
  destruct (table_get_reference (byte.unsigned b)) as [H1 H2]; [lia|].
  split; [reflexivity|]. split; [exact H1|].
  rewrite <- H2. apply ToUint32_range.
Qed.

(** ** write.ts: what draining records in an entry *)

(** X3: whatever the chunking of the source and whether or not the entry is
    compressed, a drained entry holds the encoded name, the UTF-8 flag, the
    method (deflate unless [compressed: false] was given), the size hint it
    was given (0 without one), the number of bytes of the source as
    [uncompressedSize], and the CRC-32 of these bytes as [crc32]. *)
Theorem drained_entry_describes_its_source {host : Host}
        name stream guess options callback st st' e' parts :
  Write.entryParts
    (Write.set_progressCallback (Write.newZipEntry name stream guess options) callback)
    st = (st', Ok (e', parts)) ->
  Write.rawName e' = TextEncoder_encode name
  /\ Write.flags e' = 0x0800
  /\ Write.method e' = (if isCompressed options then 8 else 0)
  /\ Write.streamSizeGuess e' = match guess with Some n => n | None => 0 end
  /\ Write.uncompressedSize e' = Z.of_nat (length (concat stream))
  /\ Write.crc32 e' = Crc32.crc32 0 (concat stream)
  /\ JS.ToUint32 (Write.crc32 e') = Crc32.reference_crc32 (concat stream).
Proof.
  intros H.
  pose proof (fresh_entryParts _ _ _ _ _ _ _ _ _ H) as Hfresh. cbn zeta in Hfresh.
  destruct Hfresh as (_ & Hn & Hf & Hm & _ & Hu & Hcrc).
  apply entryParts_ok in H. destruct H as (data & Hd & _).
  apply drain_ok in Hd.
  destruct Hd as (source & dfl & _ & _ & (_ & _ & _ & Hg) & _).
  cbn in Hg.
  repeat split; try assumption.
  rewrite Hcrc. apply crc32_reference.
Qed.

Lemma drained_entry_describes_its_source_witness :
  exists st' e' parts,
    Write.entryParts (host := SmallHost.host)
      (Write.set_progressCallback (helloEntry storedOption) None) freshState
    = (st', Ok (e', parts))
    /\ Write.uncompressedSize e' = 5
    /\ JS.ToUint32 (Write.crc32 e') = 0xfbb63e47.
Proof.
  assert (E : exists st' e' parts,
             Write.entryParts (host := SmallHost.host)
               (Write.set_progressCallback (helloEntry storedOption) None) freshState
             = (st', Ok (e', parts)))
    by (vm_compute; do 3 eexists; reflexivity).
  destruct E as (st' & e' & parts & E).
  exists st', e', parts. split; [exact E|].
  destruct (drained_entry_describes_its_source (host := SmallHost.host)
              "hello"%string [list_byte_of_string "World"] (Some 5) storedOption None
              freshState st' e' parts E) as (_ & _ & _ & _ & Hu & _ & Hcrc).
  split; [exact Hu|]. rewrite Hcrc. vm_compute. reflexivity.
Defined.

(** ** write.ts: [build] *)

(** X4: without options [build] always completes, invokes no callback, keeps
    one entry per call of [add], in order, and returns an archive of
    [sum of entrySize + sum of directorySize + 22] bytes. *)
Theorem build_without_options_completes {host : Host} (items : list Item) :
  exists w' blob,
    Write.runBuild (writerOf items) None = (freshState, Ok (w', blob))
    /\ Forall2 drainedFrom items (Write.entries w')
    /\ length (Write.entries w') = length items
    /\ blob = archiveBytes (Write.entries w') (map itemData items)
    /\ Z.of_nat (length blob)
       = sumEntrySize (Write.entries w') + sumDirectorySize (Write.entries w') + 22.
Proof.
  unfold Write.runBuild.
  destruct (build_without_options_total items
              {| Write.entryProgress := None; Write.calls := [] |})
    as (w' & blob & Hbuild).
  exists w', blob. split; [exact Hbuild|].
  apply build_ok in Hbuild. destruct Hbuild as (Hdrained & ->).
  split; [exact Hdrained|]. split.
  - symmetry. apply (Forall2_length Hdrained).
  - split; [reflexivity|].
    apply archiveBytes_length, (drainedFrom_sizedAs items _ Hdrained).
Qed.

(** X5: on a writer without entries [build] returns, for every choice of
    options, the 22 bytes of an end-of-central-directory record with zero
    counts, size and offset; no callback is invoked, and the reader yields no
    entry from these bytes and ends without an exception. *)
Theorem build_of_empty_writer {host : Host} (options : option Write.BuildOptions.t) :
  exists st',
    Write.runBuild empty_writer options
    = (st', Ok (empty_writer, footerBytes 0 0 0))
    /\ Write.calls st' = []
    /\ length (footerBytes 0 0 0) = 22%nat
    /\ Read.ZipReader.entries (Read.ZipReader.new (footerBytes 0 0 0))
       = Some {| Read.yielded := []; Read.thrown := None |}.
Proof.
  eexists. split; [reflexivity|]. split; [reflexivity|].
  split; [reflexivity|]. vm_compute. reflexivity.
Qed.

(** X6: the footer of every archive that [build] returns decodes to disk
    numbers 0, the number of entries modulo 2^16 in both count fields, the
    sum of the entries' [directorySize] and the sum of their [entrySize], both
    modulo 2^32, and comment length 0. *)
Theorem footer_of_built_archive {host : Host} (items : list Item) options st st' w' blob :
  Write.build (writerOf items) options st = (st', Ok (w', blob)) ->
  Read.ZipFooter.read (Read.ZipData.mk blob)
  = Ok (Read.ZipFooter.mk 0 0
          (Z.of_nat (length items) mod 2 ^ 16) (Z.of_nat (length items) mod 2 ^ 16)
          (sumDirectorySize (Write.entries w') mod 2 ^ 32)
          (sumEntrySize (Write.entries w') mod 2 ^ 32) 0).
Proof.
  intros H. apply build_ok in H. destruct H as (Hdrained & ->).
  unfold Read.ZipFooter.read.
  rewrite footerView_of_archive, ZipFooter_new_footerBytes.
  now rewrite (Forall2_length Hdrained).
Qed.

Lemma footer_of_built_archive_witness :
  exists st' w' blob,
    Write.build (host := SmallHost.host) (writerOf twoFiles) None freshState
    = (st', Ok (w', blob))
    /\ Read.ZipFooter.read (Read.ZipData.mk blob)
       = Ok (Read.ZipFooter.mk 0 0 2 2 110 106 0).
Proof.
  assert (E : Write.build (host := SmallHost.host) (writerOf twoFiles) None freshState
              = twoFilesBuilt) by (vm_compute; reflexivity).
  unfold twoFilesBuilt in E.
  eexists. eexists. eexists. split; [exact E|].
  rewrite (footer_of_built_archive (host := SmallHost.host) twoFiles None
             freshState _ _ _ E).
  vm_compute. reflexivity.
Defined.

(** ** read.ts: the footer decoder *)

Lemma getUint_in_buffer n buffer k :
  0 <= k -> k + Z.of_nat n <= Z.of_nat (length buffer) ->
  DataView.getUint n (DataView.of_buffer buffer) k = Ok (field n buffer (Z.to_nat k)).
Proof.
  intros Hk Hn.
  pose proof (getUint_within n [] buffer [] k Hk Hn) as H.
  cbn [app length] in H. rewrite app_nil_r in H. exact H.
Qed.

Lemma ZipFooter_new_decodes bytes :
  length bytes = 22%nat ->
  Read.ZipFooter.new (DataView.of_buffer bytes)
  = if field 4 bytes 0 =? Read.ZipFooter.SIGNATURE
    then Ok (decodeFooter bytes)
    else Throw (JsError "Invalid ZIP footer signature").
Proof.
  intros Hlen.
  unfold Read.ZipFooter.new, DataView.getUint16, DataView.getUint32.
  rewrite !getUint_in_buffer by lia.
  cbn [rbind Ok].
  repeat match goal with
         | |- context [Z.to_nat ?k] =>
             let v := eval vm_compute in (Z.to_nat k) in
             change (Z.to_nat k) with v
         end.
  destruct (field 4 bytes 0 =? Read.ZipFooter.SIGNATURE); reflexivity.
Qed.

(** X7: on a source of at least 22 bytes, reading the footer depends on the
    signature alone: when the last 22 bytes begin with it, the seven fields
    are the little-endian values at bytes 4, 6, 8, 10, 12, 16 and 20,
    whatever they are (disk numbers, counts and comment length are not
    checked); otherwise the bad-signature error is thrown. *)
Theorem footer_read_checks_only_the_signature (src : list byte) :
  (22 <= length src)%nat ->
  Read.ZipFooter.read (Read.ZipData.mk src)
  = if field 4 (lastBytes 22 src) 0 =? 0x06054b50
    then Ok (decodeFooter (lastBytes 22 src))
    else Throw (JsError "Invalid ZIP footer signature").
Proof.
  intros Hlen. unfold Read.ZipFooter.read.
  rewrite footerView_last22 by assumption.
  apply ZipFooter_new_decodes, lastBytes_length, Hlen.
Qed.

Lemma footer_read_checks_only_the_signature_witness :
  (22 <= length oddFooter)%nat
  /\ Read.ZipFooter.read (Read.ZipData.mk oddFooter)
     = Ok (Read.ZipFooter.mk 7 9 3 5 1000 2000 11).
Proof.
  assert (H : (22 <= length oddFooter)%nat) by (vm_compute; lia).
  split; [exact H|].
  rewrite (footer_read_checks_only_the_signature oddFooter H).
  vm_compute. reflexivity.
Defined.

(** ** read.ts: directory markers *)

Lemma Uint8Array_get_last prefix b :
  Uint8Array_get (prefix ++ [b]) (Z.of_nat (length (prefix ++ [b])) - 1) = Some b.
Proof.
  unfold Uint8Array_get. rewrite length_app. cbn [length].
  replace (Z.of_nat (length prefix + 1) - 1 <? 0) with false
    by (symmetry; apply Z.ltb_ge; lia).
  replace (Z.to_nat (Z.of_nat (length prefix + 1) - 1)) with (length prefix) by lia.
  rewrite nth_error_app2 by lia. now rewrite Nat.sub_diag.
Qed.

(** X8: [isDirectory()] holds exactly for the entries whose raw name ends with
    the byte 0x2f (a slash) and whose uncompressed size is 0. *)
Theorem isDirectory_iff (e : Read.ZipDirectoryEntry.t) :
  Read.ZipDirectoryEntry.isDirectory e = true
  <-> (exists prefix, Read.ZipDirectoryEntry.rawName e = prefix ++ [Byte.x2f])
      /\ Read.ZipDirectoryEntry.uncompressedSize e = 0.
Proof.
  unfold Read.ZipDirectoryEntry.isDirectory.
  destruct (Read.ZipDirectoryEntry.rawName e) as [|b0 l0] eqn:Hname0.
  - cbn. split; [discriminate|].
    intros [[prefix Hp] _]. destruct prefix; discriminate.
  - destruct (@exists_last _ (b0 :: l0)) as (prefix & b & Hname); [discriminate|].
    rewrite Hname, Uint8Array_get_last.
    rewrite andb_true_iff, !Z.eqb_eq. split.
    + intros [Hb Hsize]. split; [|exact Hsize].
      exists prefix. f_equal. f_equal. now apply byte.unsigned_inj.
    + intros [[prefix' Hp] Hsize]. split; [|exact Hsize].
      apply app_inj_tail in Hp. destruct Hp as [_ ->]. reflexivity.
Qed.

(** ** read.ts on a written archive: the central directory *)

Lemma ZipDirectory_read_archive es datas :
  Forall2 sizedAs es datas ->
  sumEntrySize es + sumDirectorySize es + 22 < 2 ^ 32 ->
  Read.ZipDirectory.read (Read.ZipData.mk (archiveBytes es datas))
  = Ok (Read.ZipDirectory.mk
          (Read.ZipFooter.mk 0 0 (Z.of_nat (length es) mod 2 ^ 16)
             (Z.of_nat (length es) mod 2 ^ 16)
             (sumDirectorySize es) (sumEntrySize es) 0)
          (DataView.of_buffer (directoryBytes es 0))).
Proof.
  intros Hsized Hsmall.
  pose proof (sumEntrySize_nonneg es _ Hsized) as He0.
  pose proof (sumDirectorySize_nonneg es) as Hd0.
  unfold Read.ZipDirectory.read, Read.ZipFooter.read.
  rewrite footerView_of_archive, ZipFooter_new_footerBytes.
  cbn [rbind Ok Read.ZipFooter.directoryOffset Read.ZipFooter.directorySize].
  rewrite (Z.mod_small (sumDirectorySize es)), (Z.mod_small (sumEntrySize es)) by lia.
  now rewrite (view_directory es _ Hsized).
Qed.

Lemma ZipDirectory_entries_archive es footer :
  Forall (fun e => Z.of_nat (length (Write.rawName e)) < 2 ^ 16) es ->
  Read.ZipDirectory.entries
    (Read.ZipDirectory.mk footer (DataView.of_buffer (directoryBytes es 0)))
  = Some {| Read.yielded := readBackAll es 0; Read.thrown := None |}.
Proof.
  intros Hnames.
  unfold Read.ZipDirectory.entries. cbn [Read.ZipDirectory.data].
  apply (entriesFrom_layout _ _ (directoryBytes_layout es 0 Hnames) []).
  cbn [DataView.of_buffer DataView.byteLength]. lia.
Qed.

Lemma readBack_catalogues {host : Host} (it : Item) e offset :
  drainedFrom it e -> nameIsShort it -> Write.compressedSize e < 2 ^ 32 ->
  catalogues it (readBack e offset).
Proof.
  intros (Hname & Hflags & Hmethod & Hsize & Hu & Hcrc) Hshort Hc.
  unfold catalogues.
  split; [reflexivity|]. split; [reflexivity|].
  split.
  { change (Read.ZipDirectoryEntry.flags (readBack e offset))
      with (le_combine (le_split 2 (Write.flags e))).
    rewrite uint16_roundtrip, Hflags. reflexivity. }
  split.
  { rewrite readBack_compressionMethod, Hmethod.
    now destruct (isCompressed (item_options it)). }
  split; [reflexivity|]. split; [reflexivity|].
  split.
  { change (Read.ZipDirectoryEntry.crc32 (readBack e offset))
      with (le_combine (le_split 4 (Write.crc32 e))).
    rewrite uint32_roundtrip, Hcrc. apply crc32_reference. }
  split.
  { rewrite readBack_compressedSize, Hsize. apply Z.mod_small. lia. }
  split.
  { change (Read.ZipDirectoryEntry.uncompressedSize (readBack e offset))
      with (le_combine (le_split 4 (Write.uncompressedSize e))).
    now rewrite uint32_roundtrip, Hu. }
  split; [reflexivity|]. split; [reflexivity|]. split; [reflexivity|].
  split; [exact Hname|]. split; reflexivity.
Qed.

Lemma readBackAll_catalogues {host : Host} (items : list Item) es :
  Forall2 drainedFrom items es -> Forall nameIsShort items ->
  sumEntrySize es < 2 ^ 32 ->
  forall offset, Forall2 catalogues items (readBackAll es offset).
Proof.
  induction 1 as [|it e items es He Hrest IH]; intros Hshort Hsmall offset.
  - constructor.
  - inversion Hshort as [|it' items' Hs Hss]; subst.
    pose proof (drainedFrom_sizedAs items es Hrest) as Hsized.
    pose proof (sumEntrySize_nonneg es _ Hsized) as Hnonneg.
    cbn [sumEntrySize fold_right] in Hsmall. fold (sumEntrySize es) in Hsmall.
    assert (Hc : 0 <= Write.compressedSize e)
      by (destruct He as (_ & _ & _ & -> & _); lia).
    unfold Write.entrySize in Hsmall.
    cbn [readBackAll]. constructor.
    + apply readBack_catalogues; try assumption. lia.
    + apply IH; [assumption | lia].
Qed.

Lemma short_names_of_drained {host : Host} (items : list Item) es :
  Forall2 drainedFrom items es -> Forall nameIsShort items ->
  Forall (fun e => Z.of_nat (length (Write.rawName e)) < 2 ^ 16) es.
Proof.
  induction 1 as [|it e items es He _ IH]; intros Hshort.
  - constructor.
  - inversion Hshort as [|it' items' Hs Hss]; subst. constructor.
    + destruct He as (-> & _). exact Hs.
    + apply IH, Hss.
Qed.

(** X9: when [build] completes, every name encodes to fewer than 2^16 bytes
    and the archive is smaller than 2^32 bytes, the reader decodes the central
    directory without an exception into one entry per item, in order, with:
    versions 20, the UTF-8 flag alone, method 8 or 0 as the item was
    compressed or not, zero time, date, disk number and attributes, the
    CRC-32 of the item's content, the length of its compressed data, the
    length of its content modulo 2^32, the encoded name, and empty extra
    field and comment. *)
Theorem directory_of_built_archive {host : Host}
        (items : list Item) options st st' w' blob :
  Write.build (writerOf items) options st = (st', Ok (w', blob)) ->
  Forall nameIsShort items ->
  Z.of_nat (length blob) < 2 ^ 32 ->
  exists dir ds,
    Read.ZipDirectory.read (Read.ZipData.mk blob) = Ok dir
    /\ Read.ZipDirectory.entries dir
       = Some {| Read.yielded := ds; Read.thrown := None |}
    /\ Forall2 catalogues items ds.
Proof.
  intros Hbuild Hshort Hsmall.
  apply build_ok in Hbuild. destruct Hbuild as (Hdrained & ->).
  set (es := Write.entries w') in *.
  pose proof (drainedFrom_sizedAs items es Hdrained) as Hsized.
  rewrite (archiveBytes_length es _ Hsized) in Hsmall.
  pose proof (sumDirectorySize_nonneg es) as Hd0.
  eexists. exists (readBackAll es 0).
  split; [apply (ZipDirectory_read_archive es _ Hsized Hsmall)|].
  split.
  - apply ZipDirectory_entries_archive, (short_names_of_drained items es Hdrained Hshort).
  - apply readBackAll_catalogues; try assumption. lia.
Qed.

Lemma twoFiles_short : Forall nameIsShort twoFiles.
Proof. repeat constructor. Qed.

Lemma directory_of_built_archive_witness :
  exists st' w' blob,
    Write.build (host := SmallHost.host) (writerOf twoFiles) None freshState
    = (st', Ok (w', blob))
    /\ Forall nameIsShort twoFiles
    /\ Z.of_nat (length blob) < 2 ^ 32
    /\ exists dir ds,
         Read.ZipDirectory.read (Read.ZipData.mk blob) = Ok dir
         /\ Read.ZipDirectory.entries dir
            = Some {| Read.yielded := ds; Read.thrown := None |}
         /\ Forall2 (catalogues (host := SmallHost.host)) twoFiles ds.
Proof.
  assert (E : Write.build (host := SmallHost.host) (writerOf twoFiles) None freshState
              = twoFilesBuilt) by (vm_compute; reflexivity).
  unfold twoFilesBuilt in E.
  assert (Hlt : forall n, n = 238 -> n < 2 ^ 32) by (intros n ->; reflexivity).
  eexists. eexists. eexists. split; [exact E|].
  split; [exact twoFiles_short|].
  assert (Hsmall : forall blob : list byte, Z.of_nat (length blob) = 238 ->
                                Z.of_nat (length blob) < 2 ^ 32)
    by (intros b Hb; apply Hlt, Hb).
  split; [apply Hsmall; vm_compute; reflexivity|].
  refine (directory_of_built_archive (host := SmallHost.host) twoFiles None
            freshState _ _ _ E twoFiles_short _).
  apply Hsmall. vm_compute. reflexivity.
Defined.

(** ** read.ts on a written archive: local headers *)

Lemma ZipLocalHeader_fromData_at pre e rest :
  Read.ZipLocalHeader.fromData
    (DataView.of_buffer (pre ++ localHeaderBytes e ++ rest)) (Z.of_nat (length pre))
  = Ok (localHeaderOf e).
Proof.
  pose proof (localHeaderBytes_length e) as Hlen.
  unfold Read.ZipLocalHeader.fromData, DataView.getUint16, DataView.getUint32.
  rewrite getUint_at_prefix_end by lia.
  rewrite !getUint_within by lia.
  cbn [rbind Ok].
  change (field 4 (localHeaderBytes e) 0) with Read.ZipLocalHeader.SIGNATURE.
  rewrite Z.eqb_refl. cbn [negb].
  unfold localHeaderOf.
  rewrite <- !uint16_roundtrip, <- !uint32_roundtrip. reflexivity.
Qed.

Lemma fromDirectoryEntry_readBack e offset :
  Z.of_nat (length (Write.rawName e)) < 2 ^ 16 ->
  Read.ZipLocalHeader.fromDirectoryEntry (readBack e offset) = localHeaderOf e.
Proof.
  intros Hshort. unfold localHeaderOf.
  rewrite (Z.mod_small (Z.of_nat (length (Write.rawName e)))) by lia.
  rewrite <- !uint16_roundtrip, <- !uint32_roundtrip. reflexivity.
Qed.

(** X10: in the archive of a completed [build], [ZipLocalHeader.fromData] at
    the sum of the sizes of the entries before entry [k] decodes the local
    header of entry [k] without an exception: version 20, the entry's flags
    and method, zero time and date, the CRC-32 as an unsigned number, the
    sizes modulo 2^32, the name length modulo 2^16 and no extra field.  When
    the name is shorter than 2^16 bytes this is the header that
    [ZipLocalHeader.fromDirectoryEntry] derives from the entry's central
    directory record. *)
Theorem local_header_of_built_archive {host : Host}
        (items : list Item) options st st' w' blob k e :
  Write.build (writerOf items) options st = (st', Ok (w', blob)) ->
  nth_error (Write.entries w') k = Some e ->
  Read.ZipLocalHeader.fromData (DataView.of_buffer blob)
                               (sumEntrySize (firstn k (Write.entries w')))
  = Ok (localHeaderOf e)
  /\ Read.ZipLocalHeader.crc32 (localHeaderOf e) = JS.ToUint32 (Write.crc32 e)
  /\ (Z.of_nat (length (Write.rawName e)) < 2 ^ 16 ->
      Read.ZipLocalHeader.fromDirectoryEntry
        (readBack e (sumEntrySize (firstn k (Write.entries w'))))
      = localHeaderOf e).
Proof.
  intros Hbuild Hk.
  apply build_ok in Hbuild. destruct Hbuild as (Hdrained & ->).
  pose proof (drainedFrom_sizedAs items _ Hdrained) as Hsized.
  destruct (entriesBytes_at _ _ Hsized k e Hk) as (d & pre & post & _ & Hbytes & Hpre).
  split; [|split].
  - unfold archiveBytes. rewrite Hbytes, <- Hpre, <- !app_assoc.
    apply ZipLocalHeader_fromData_at.
  - reflexivity.
  - apply fromDirectoryEntry_readBack.
Qed.

Lemma local_header_of_built_archive_witness :
  exists st' w' blob e,
    Write.build (host := SmallHost.host) (writerOf twoFiles) None freshState
    = (st', Ok (w', blob))
    /\ nth_error (Write.entries w') 1 = Some e
    /\ Read.ZipLocalHeader.fromData (DataView.of_buffer blob)
         (sumEntrySize (firstn 1 (Write.entries w')))
       = Ok (localHeaderOf e).
Proof.
  assert (E : Write.build (host := SmallHost.host) (writerOf twoFiles) None freshState
              = twoFilesBuilt) by (vm_compute; reflexivity).
  unfold twoFilesBuilt in E.
  eexists. eexists. eexists. eexists. split; [exact E|].
  split; [reflexivity|].
  exact (proj1 (local_header_of_built_archive (host := SmallHost.host)
                  twoFiles None freshState _ _ _ 1%nat _ E eq_refl)).
Defined.

Lemma Blob_slice_at a c (n : nat) :
  (n <= length c)%nat ->
  Blob_slice (a ++ c) (Z.of_nat (length a)) (Z.of_nat (length a) + Z.of_nat n)
  = firstn n c.
Proof.
  intros Hn.
  pose proof (Blob_slice_middle a (firstn n c) (skipn n c)) as H.
  rewrite firstn_skipn, length_firstn, Nat.min_l in H by lia.
  exact H.
Qed.

Lemma Blob_slice_empty blob offset : Blob_slice blob offset (offset + 0) = [].
Proof.
  unfold Blob_slice. rewrite Z.add_0_r, Z.sub_diag. reflexivity.
Qed.

(** X11: in the archive of a completed [build], for an entry whose name is
    shorter than 2^16 bytes and whose data is shorter than 2^32 bytes,
    [ZipEntry.fromHeader] at the entry's offset with the header decoded
    there returns the entry's compressed data and an empty extra field; its
    [rawName] is the first [fileNameLength] bytes that start at the entry's
    offset, that is, bytes of the 30-byte local header followed by bytes of
    the name (the name is read at [relativeOffset], and the data at
    [relativeOffset + header.size()]). *)
Theorem fromHeader_of_built_archive {host : Host}
        (items : list Item) options st st' w' blob k e :
  Write.build (writerOf items) options st = (st', Ok (w', blob)) ->
  nth_error (Write.entries w') k = Some e ->
  Z.of_nat (length (Write.rawName e)) < 2 ^ 16 ->
  Write.compressedSize e < 2 ^ 32 ->
  exists it header,
    nth_error items k = Some it
    /\ Read.ZipLocalHeader.fromData (DataView.of_buffer blob)
         (sumEntrySize (firstn k (Write.entries w')))
       = Ok header
    /\ Read.ZipEntry.fromHeader (Read.ZipData.mk blob)
         (sumEntrySize (firstn k (Write.entries w'))) header
       = Read.ZipEntry.mk header
           (firstn (length (Write.rawName e)) (localHeaderBytes e ++ Write.rawName e))
           [] (itemData it).
Proof.
  intros Hbuild Hk Hshort Hsmall.
  apply build_ok in Hbuild. destruct Hbuild as (Hdrained & ->).
  pose proof (drainedFrom_sizedAs items _ Hdrained) as Hsized.
  destruct (Forall2_nth_error_r _ _ _ Hdrained k e Hk) as (it & Hit & He).
  destruct (entriesBytes_at _ _ Hsized k e Hk) as (d & pre & post & Hd & Hbytes & Hpre).
  rewrite (map_nth_error itemData k items Hit) in Hd.
  inversion Hd; subst d; clear Hd.
  pose proof (localHeaderBytes_length e) as Hlen.
  destruct He as (_ & _ & _ & Hc & _).
  exists it, (localHeaderOf e). split; [exact Hit|].
  unfold archiveBytes. rewrite Hbytes, <- Hpre, <- !app_assoc.
  split; [apply ZipLocalHeader_fromData_at|].
  set (tail := post ++ directoryBytes _ _ ++ footerBytes _ _ _).
  unfold Read.ZipEntry.fromHeader, Read.ZipData.bytes, Read.ZipData.slice,
    Read.ZipLocalHeader.size, Read.ZipLocalHeader.SIZE.
  cbn [Read.ZipData.blob localHeaderOf Read.ZipLocalHeader.fileNameLength
       Read.ZipLocalHeader.extraFieldLength Read.ZipLocalHeader.compressedSize].
  rewrite (Z.mod_small (Z.of_nat (length (Write.rawName e)))) by lia.
  rewrite (Z.mod_small (Write.compressedSize e)) by lia.
  f_equal.
  - rewrite (Blob_slice_at pre _ (length (Write.rawName e)))
      by (rewrite !length_app; lia).
    rewrite (app_assoc (localHeaderBytes e)).
    rewrite firstn_app.
    replace (length (Write.rawName e) - length (localHeaderBytes e ++ Write.rawName e))%nat
      with 0%nat by (rewrite length_app; lia).
    cbn [firstn]. now rewrite app_nil_r.
  - apply Blob_slice_empty.
  - rewrite Hc.
    rewrite (app_assoc pre), (app_assoc (pre ++ localHeaderBytes e)).
    replace (Z.of_nat (length pre) + (30 + Z.of_nat (length (Write.rawName e)) + 0))
      with (Z.of_nat (length ((pre ++ localHeaderBytes e) ++ Write.rawName e)))
      by (rewrite !length_app; lia).
    apply Blob_slice_middle.
Qed.

Lemma fromHeader_of_built_archive_witness :
  exists st' w' blob e,
    Write.build (host := SmallHost.host) (writerOf twoFiles) None freshState
    = (st', Ok (w', blob))
    /\ nth_error (Write.entries w') 1 = Some e
    /\ Z.of_nat (length (Write.rawName e)) < 2 ^ 16
    /\ Write.compressedSize e < 2 ^ 32
    /\ exists it header,
         nth_error twoFiles 1 = Some it
         /\ Read.ZipLocalHeader.fromData (DataView.of_buffer blob)
              (sumEntrySize (firstn 1 (Write.entries w')))
            = Ok header
         /\ Read.ZipEntry.fromHeader (Read.ZipData.mk blob)
              (sumEntrySize (firstn 1 (Write.entries w'))) header
            = Read.ZipEntry.mk header
                (firstn (length (Write.rawName e))
                        (localHeaderBytes e ++ Write.rawName e))
                [] (itemData (host := SmallHost.host) it).
Proof.
  assert (E : Write.build (host := SmallHost.host) (writerOf twoFiles) None freshState
              = twoFilesBuilt) by (vm_compute; reflexivity).
  unfold twoFilesBuilt in E.
  assert (H9 : forall n, n = 9 -> n < 2 ^ 16) by (intros n ->; reflexivity).
  assert (H15 : forall n, n = 15 -> n < 2 ^ 32) by (intros n ->; reflexivity).
  eexists. eexists. eexists. eexists. split; [exact E|].
  split; [reflexivity|].
  split; [apply H9; reflexivity|].
  split; [apply H15; reflexivity|].
  exact (fromHeader_of_built_archive (host := SmallHost.host)
           twoFiles None freshState _ _ _ 1%nat _ E eq_refl
           (H9 _ eq_refl) (H15 _ eq_refl)).
Defined.

(** ** read.ts: what the directory iteration accepts and where it stops *)

Lemma getUint_throws n v offset err :
  DataView.getUint n v offset = inl err -> err = RangeError.
Proof.
  unfold DataView.getUint. destruct (DataView.in_range v offset n); [discriminate|].
  intros H. now inversion H.
Qed.

Lemma getUint_ok_in_range n v offset z :
  DataView.getUint n v offset = inr z -> DataView.in_range v offset n = true.
Proof.
  unfold DataView.getUint. destruct (DataView.in_range v offset n);
    [reflexivity | discriminate].
Qed.

Lemma Uint8Array_view_throws buffer z n err :
  Uint8Array_view buffer z n = inl err -> err = RangeError.
Proof.
  unfold Uint8Array_view. destruct (_ && _); [discriminate|].
  intros H. now inversion H.
Qed.

Lemma Uint8Array_view_inv buffer a c z n l :
  Uint8Array_view buffer z n = Ok l ->
  buffer = a ++ c -> z = Z.of_nat (length a) ->
  n = Z.of_nat (length l) /\ exists c', c = l ++ c'.
Proof.
  intros H -> ->.
  split; [symmetry; apply (Uint8Array_view_length _ _ _ _ H)|].
  unfold Uint8Array_view in H.
  destruct (Z.leb_spec 0 (Z.of_nat (length a))); [|discriminate].
  destruct (Z.leb_spec 0 n); [|discriminate].
  destruct (Z.leb_spec (Z.of_nat (length a) + n) (Z.of_nat (length (a ++ c))));
    [|discriminate].
  cbn [andb] in H. unfold Ok in H. inversion H as [Hl]; clear H.
  rewrite Nat2Z.id, skipn_app, skipn_all, Nat.sub_diag.
  cbn [app skipn].
  exists (skipn (Z.to_nat n) c). now rewrite firstn_skipn.
Qed.

(** The constructor throws a [RangeError], or the signature error after it
    has read a number that is not the signature. *)
Lemma ZipDirectoryEntry_new_throws data offset err :
  Read.ZipDirectoryEntry.new data offset = Throw err ->
  err = RangeError
  \/ exists s, DataView.getUint32 data offset = Ok s
               /\ s <> Read.ZipDirectoryEntry.SIGNATURE
               /\ err = JsError ("Invalid ZIP directory entry signature at "
                                   ++ Number_toString offset)%string.
Proof.
  intros H. unfold Read.ZipDirectoryEntry.new in H.
  unfold Ok, Throw in *.
  destruct (DataView.getUint32 data offset) as [e0 | s] eqn:Es; cbn [rbind] in H.
  { left. inversion H; subst. eapply getUint_throws, Es. }
  destruct (Z.eqb_spec s Read.ZipDirectoryEntry.SIGNATURE) as [Hs | Hs]; cbn [negb] in H.
  2:{ right. exists s. inversion H. repeat split; assumption. }
  left.
  repeat match type of H with
         | rbind ?r _ = _ =>
             let E := fresh "E" in
             destruct r eqn:E; cbn [rbind] in H;
             [inversion H; subst;
              first [eapply getUint_throws, E | eapply Uint8Array_view_throws, E]|]
         end.
  discriminate H.
Qed.

(** An entry that the constructor returns is a complete record of the
    buffer at the cursor. *)
Lemma ZipDirectoryEntry_new_inv pre blob e :
  Read.ZipDirectoryEntry.new (DataView.of_buffer (pre ++ blob)) (Z.of_nat (length pre))
  = Ok e ->
  exists header name extra comment rest,
    blob = header ++ name ++ extra ++ comment ++ rest
    /\ length header = 46%nat
    /\ field 4 header 0 = Read.ZipDirectoryEntry.SIGNATURE
    /\ field 2 header 28 = Z.of_nat (length name)
    /\ field 2 header 30 = Z.of_nat (length extra)
    /\ field 2 header 32 = Z.of_nat (length comment)
    /\ e = decodeDirectoryEntry header name extra comment.
Proof.
  intros H.
  assert (Hlong : (46 <= length blob)%nat).
  { pose proof H as H'. unfold Read.ZipDirectoryEntry.new in H'.
    unfold Ok, Throw in *.
    repeat match type of H' with
           | rbind ?r _ = _ =>
               let E := fresh "E" in
               destruct r eqn:E; cbn [rbind] in H'; [discriminate H'|]
           | (if ?c then _ else _) = _ =>
               let E := fresh "E" in
               destruct c eqn:E; [discriminate H'|]
           end.
    match goal with
    | E : DataView.getUint32 _ (_ + 42) = inr _ |- _ =>
        apply getUint_ok_in_range in E; unfold DataView.in_range in E;
        apply andb_prop in E; destruct E as (_ & E); apply Z.leb_le in E;
        cbn [DataView.of_buffer DataView.byteLength] in E;
        rewrite length_app in E
    end.
    lia. }
  remember (skipn 46 blob) as rest1 eqn:Hrest1.
  remember (firstn 46 blob) as header eqn:Hheader.
  assert (Hblob : blob = header ++ rest1) by (subst; now rewrite firstn_skipn).
  assert (Hlen : length header = 46%nat) by (subst header; rewrite length_firstn; lia).
  clear Hrest1 Hheader Hlong. subst blob.
  unfold Read.ZipDirectoryEntry.new, DataView.getUint16, DataView.getUint32 in H.
  rewrite getUint_at_prefix_end in H by lia.
  rewrite !getUint_within in H by lia.
  cbn [rbind Ok] in H.
  destruct (Z.eqb_spec (field 4 header 0) Read.ZipDirectoryEntry.SIGNATURE)
    as [Hsig | Hsig]; cbn [negb] in H; [|discriminate H].
  repeat match type of H with
         | context [Z.to_nat ?k] =>
             let v := eval vm_compute in (Z.to_nat k) in
             change (Z.to_nat k) with v in H
         end.
  cbn [DataView.of_buffer DataView.buffer DataView.byteOffset] in H.
  unfold Ok, Throw in *.
  destruct (Uint8Array_view _ _ (field 2 header 28)) as [|name] eqn:Vn;
    [discriminate H|]. cbn [rbind] in H.
  apply (Uint8Array_view_inv _ (pre ++ header) rest1) in Vn;
    [| now rewrite <- !app_assoc
     | rewrite length_app, Hlen; unfold Read.ZipDirectoryEntry.SIZE; lia].
  destruct Vn as (Hn & rest2 & ->).
  destruct (Uint8Array_view _ _ (field 2 header 30)) as [|extra] eqn:Vx;
    [discriminate H|]. cbn [rbind] in H.
  apply (Uint8Array_view_inv _ (pre ++ header ++ name) rest2) in Vx;
    [| now rewrite <- !app_assoc
     | rewrite !length_app, Hlen, Hn; unfold Read.ZipDirectoryEntry.SIZE; lia].
  destruct Vx as (Hx & rest3 & ->).
  destruct (Uint8Array_view _ _ (field 2 header 32)) as [|comment] eqn:Vc;
    [discriminate H|]. cbn [rbind] in H.
  apply (Uint8Array_view_inv _ (pre ++ header ++ name ++ extra) rest3) in Vc;
    [| now rewrite <- !app_assoc
     | rewrite !length_app, Hlen, Hn, Hx; unfold Read.ZipDirectoryEntry.SIZE; lia].
  destruct Vc as (Hc & rest & ->).
  inversion H; subst e; clear H.
  exists header, name, extra, comment, rest.
  repeat split; assumption.
Qed.

Lemma field_of_prefix n header k rest :
  (k + n <= length header)%nat ->
  field n (header ++ rest) k = field n header k.
Proof.
  intros H. unfold field. f_equal.
  rewrite skipn_app, firstn_app.
  replace (k - length header)%nat with 0%nat by lia.
  rewrite length_skipn.
  replace (n - (length header - k))%nat with 0%nat by lia.
  cbn [firstn skipn]. now rewrite app_nil_r.
Qed.

Lemma recordFits_record header name extra comment rest :
  length header = 46%nat ->
  field 4 header 0 = Read.ZipDirectoryEntry.SIGNATURE ->
  field 2 header 28 = Z.of_nat (length name) ->
  field 2 header 30 = Z.of_nat (length extra) ->
  field 2 header 32 = Z.of_nat (length comment) ->
  recordFits (header ++ name ++ extra ++ comment ++ rest) = true.
Proof.
  intros Hlen Hsig Hn Hx Hc. unfold recordFits.
  rewrite !field_of_prefix by lia.
  rewrite Hsig, Hn, Hx, Hc, Z.eqb_refl, !length_app, Hlen.
  apply andb_true_intro; split; [apply andb_true_intro; split|];
    try reflexivity; apply Z.leb_le; lia.
Qed.

Lemma recordFits_split bytes :
  recordFits bytes = true ->
  exists header name extra comment rest,
    bytes = header ++ name ++ extra ++ comment ++ rest
    /\ length header = 46%nat
    /\ field 4 header 0 = Read.ZipDirectoryEntry.SIGNATURE
    /\ field 2 header 28 = Z.of_nat (length name)
    /\ field 2 header 30 = Z.of_nat (length extra)
    /\ field 2 header 32 = Z.of_nat (length comment).
Proof.
  unfold recordFits. intros H.
  apply andb_prop in H. destruct H as (H & Hall).
  apply andb_prop in H. destruct H as (Hlong & Hsig).
  apply Z.leb_le in Hlong, Hall. apply Z.eqb_eq in Hsig.
  assert (Hf : forall n k, 0 <= field n bytes k)
    by (intros n k; unfold field; apply le_combine_bound).
  pose proof (Hf 2%nat 28%nat). pose proof (Hf 2%nat 30%nat). pose proof (Hf 2%nat 32%nat).
  set (n := Z.to_nat (field 2 bytes 28)) in *.
  set (x := Z.to_nat (field 2 bytes 30)) in *.
  set (c := Z.to_nat (field 2 bytes 32)) in *.
  set (r1 := skipn 46 bytes).
  set (r2 := skipn n r1).
  set (r3 := skipn x r2).
  exists (firstn 46 bytes), (firstn n r1), (firstn x r2), (firstn c r3), (skipn c r3).
  assert (Hh : length (firstn 46 bytes) = 46%nat) by (rewrite length_firstn; lia).
  assert (Hb : bytes = firstn 46 bytes ++ r1) by (subst r1; now rewrite firstn_skipn).
  assert (Hr1 : length r1 = (length bytes - 46)%nat) by (subst r1; apply length_skipn).
  assert (Hr2 : length r2 = (length r1 - n)%nat) by (subst r2; apply length_skipn).
  assert (Hr3 : length r3 = (length r2 - x)%nat) by (subst r3; apply length_skipn).
  split.
  { subst r3 r2. now rewrite !firstn_skipn. }
  split; [exact Hh|].
  rewrite Hb in Hsig.
  rewrite field_of_prefix in Hsig by lia.
  split; [exact Hsig|].
  rewrite !length_firstn.
  repeat split.
  - transitivity (field 2 bytes 28); [|lia].
    rewrite Hb at 2. now rewrite field_of_prefix by lia.
  - transitivity (field 2 bytes 30); [|lia].
    rewrite Hb at 2. now rewrite field_of_prefix by lia.
  - transitivity (field 2 bytes 32); [|lia].
    rewrite Hb at 2. now rewrite field_of_prefix by lia.
Qed.

(** What the constructor does at bytes that hold no complete record. *)
Lemma ZipDirectoryEntry_new_unfit pre bad :
  bad <> [] -> recordFits bad = false ->
  Read.ZipDirectoryEntry.new (DataView.of_buffer (pre ++ bad)) (Z.of_nat (length pre))
  = Throw (recordError (Z.of_nat (length pre)) bad).
Proof.
  intros Hbad Hfit. unfold recordError.
  destruct (Z.leb_spec 4 (Z.of_nat (length bad))) as [H4 | H4]; cbn [andb].
  - assert (Hsig : DataView.getUint32 (DataView.of_buffer (pre ++ bad))
                                      (Z.of_nat (length pre))
                   = Ok (field 4 bad 0)).
    { rewrite <- (app_nil_r bad) at 1. apply getUint_at_prefix_end. lia. }
    destruct (Z.eqb_spec (field 4 bad 0) Read.ZipDirectoryEntry.SIGNATURE)
      as [Hs | Hs]; cbn [negb].
    + destruct (Read.ZipDirectoryEntry.new (DataView.of_buffer (pre ++ bad))
                                           (Z.of_nat (length pre)))
        as [err | e] eqn:Hnew.
      * destruct (ZipDirectoryEntry_new_throws _ _ _ Hnew)
          as [-> | (s & Hs' & Hne & _)]; [reflexivity|].
        rewrite Hsig in Hs'. inversion Hs'. congruence.
      * destruct (ZipDirectoryEntry_new_inv _ _ _ Hnew)
          as (header & name & extra & comment & rest & -> & Hl & Hg & Hn & Hx & Hc & _).
        rewrite (recordFits_record _ _ _ _ _ Hl Hg Hn Hx Hc) in Hfit. discriminate.
    + unfold Read.ZipDirectoryEntry.new. rewrite Hsig. cbn [rbind Ok].
      destruct (Z.eqb_spec (field 4 bad 0) Read.ZipDirectoryEntry.SIGNATURE);
        [contradiction | reflexivity].
  - unfold Read.ZipDirectoryEntry.new, DataView.getUint32, DataView.getUint,
      DataView.in_range.
    cbn [DataView.of_buffer DataView.byteLength].
    replace (Z.of_nat (length pre) + Z.of_nat 4 <=? Z.of_nat (length (pre ++ bad)))
      with false by (symmetry; apply Z.leb_gt; rewrite length_app; lia).
    rewrite andb_false_r. reflexivity.
Qed.

Lemma entriesFrom_layout_then_unfit good es :
  DirectoryLayout good es ->
  forall pre bad fuel, (length good < fuel)%nat ->
  bad <> [] -> recordFits bad = false ->
  Read.ZipDirectory.entriesFrom fuel (DataView.of_buffer (pre ++ good ++ bad))
                                (Z.of_nat (length pre))
  = Some {| Read.yielded := es;
            Read.thrown := Some (recordError (Z.of_nat (length pre)
                                              + Z.of_nat (length good)) bad) |}.
Proof.
  induction 1 as [|header name extra comment rest es Hlen Hsig Hn He Hc _ IH];
    intros pre bad fuel Hfuel Hbad Hfit.
  - destruct fuel as [|fuel]; [cbn in Hfuel; lia|].
    cbn [app Read.ZipDirectory.entriesFrom].
    assert (Hmore : (Z.of_nat (length pre)
                     <? DataView.byteLength (DataView.of_buffer (pre ++ bad))) = true).
    { apply Z.ltb_lt. cbn. rewrite length_app.
      destruct bad; [contradiction | cbn [length]; lia]. }
    rewrite Hmore, ZipDirectoryEntry_new_unfit by assumption.
    cbn [length]. now rewrite Z.add_0_r.
  - rewrite !length_app, Hlen in Hfuel.
    destruct fuel as [|fuel]; [lia|].
    cbn [Read.ZipDirectory.entriesFrom].
    rewrite <- !app_assoc.
    assert (Hmore : (Z.of_nat (length pre)
                     <? DataView.byteLength
                          (DataView.of_buffer
                             (pre ++ header ++ name ++ extra ++ comment ++ rest ++ bad)))
                    = true).
    { apply Z.ltb_lt. cbn. rewrite !length_app, Hlen. lia. }
    rewrite Hmore, ZipDirectoryEntry_new_at by assumption.
    cbv beta iota delta [Ok].
    rewrite decodeDirectoryEntry_size.
    specialize (IH (pre ++ header ++ name ++ extra ++ comment) bad fuel).
    replace (Z.of_nat (length pre) + (46 + Z.of_nat (length name)
              + Z.of_nat (length extra) + Z.of_nat (length comment)))
      with (Z.of_nat (length (pre ++ header ++ name ++ extra ++ comment)))
      by (rewrite !length_app, Hlen; lia).
    replace (pre ++ header ++ name ++ extra ++ comment ++ rest ++ bad)
      with ((pre ++ header ++ name ++ extra ++ comment) ++ rest ++ bad)
      by (now rewrite <- !app_assoc).
    rewrite IH by (assumption || lia).
    unfold Read.yield. cbn [option_map Read.yielded Read.thrown].
    do 4 f_equal. rewrite !length_app, Hlen. lia.
Qed.

Lemma entriesFrom_inv fuel : forall pre blob g,
  Read.ZipDirectory.entriesFrom fuel (DataView.of_buffer (pre ++ blob))
                                (Z.of_nat (length pre)) = Some g ->
  exists good bad,
    blob = good ++ bad
    /\ DirectoryLayout good (Read.yielded g)
    /\ match Read.thrown g with
       | None => bad = []
       | Some err =>
           bad <> [] /\ recordFits bad = false
           /\ err = recordError (Z.of_nat (length pre) + Z.of_nat (length good)) bad
       end.
Proof.
  induction fuel as [|fuel IH]; intros pre blob g H.
  - cbn [Read.ZipDirectory.entriesFrom] in H.
    destruct (Z.ltb_spec (Z.of_nat (length pre))
                (DataView.byteLength (DataView.of_buffer (pre ++ blob)))) as [Hlt | Hge];
      [discriminate H|].
    inversion H; subst g; clear H.
    cbn in Hge. rewrite length_app in Hge.
    exists [], []. destruct blob; [|cbn [length] in Hge; lia].
    repeat split. constructor.
  - cbn [Read.ZipDirectory.entriesFrom] in H.
    destruct (Z.ltb_spec (Z.of_nat (length pre))
                (DataView.byteLength (DataView.of_buffer (pre ++ blob)))) as [Hlt | Hge].
    2:{ inversion H; subst g; clear H.
        cbn in Hge. rewrite length_app in Hge.
        exists [], []. destruct blob; [|cbn [length] in Hge; lia].
        repeat split. constructor. }
    assert (Hne : blob <> []).
    { intros ->. cbn in Hlt. rewrite length_app in Hlt. cbn in Hlt. lia. }
    destruct (Read.ZipDirectoryEntry.new (DataView.of_buffer (pre ++ blob))
                                         (Z.of_nat (length pre)))
      as [err | entry] eqn:Hnew.
    + inversion H; subst g; clear H.
      exists [], blob. cbn [Read.yielded Read.thrown app length].
      split; [reflexivity|]. split; [constructor|].
      split; [exact Hne|].
      destruct (recordFits blob) eqn:Hfit.
      * destruct (recordFits_split _ Hfit)
          as (header & name & extra & comment & rest & -> & Hl & Hg & Hn & Hx & Hc).
        rewrite (ZipDirectoryEntry_new_at pre header name extra comment rest)
          in Hnew by assumption.
        discriminate Hnew.
      * split; [reflexivity|].
        rewrite (ZipDirectoryEntry_new_unfit pre blob Hne Hfit) in Hnew.
        rewrite Z.add_0_r. now inversion Hnew.
    + destruct (ZipDirectoryEntry_new_inv _ _ _ Hnew)
        as (header & name & extra & comment & rest & -> & Hl & Hg & Hn & Hx & Hc & ->).
      rewrite decodeDirectoryEntry_size in H.
      replace (Z.of_nat (length pre) + (46 + Z.of_nat (length name)
                + Z.of_nat (length extra) + Z.of_nat (length comment)))
        with (Z.of_nat (length (pre ++ header ++ name ++ extra ++ comment))) in H
        by (rewrite !length_app, Hl; lia).
      replace (pre ++ header ++ name ++ extra ++ comment ++ rest)
        with ((pre ++ header ++ name ++ extra ++ comment) ++ rest) in H
        by (now rewrite <- !app_assoc).
      destruct (Read.ZipDirectory.entriesFrom fuel _ _) as [g'|] eqn:Hrec;
        [|discriminate H].
      cbn [option_map] in H. inversion H; subst g; clear H.
      destruct (IH _ _ _ Hrec) as (good & bad & -> & Hlayout & Hthrown).
      exists (header ++ name ++ extra ++ comment ++ good), bad.
      split; [now rewrite <- !app_assoc|].
      cbn [Read.yield Read.yielded Read.thrown].
      split; [now constructor|].
      destruct (Read.thrown g') as [err|]; [|exact Hthrown].
      destruct Hthrown as (Hb & Hf & ->).
      repeat split; try assumption.
      f_equal. rewrite !length_app, Hl. lia.
Qed.

(** X12: for every blob of directory data, the iteration yields the entries
    [es] and ends without an exception if and only if the blob is exactly
    the concatenation of the records of [es]: 46-byte headers that start
    with the signature, each followed by a name, an extra field and a
    comment of the lengths that the header declares. *)
Theorem directory_iteration_succeeds_iff_layout
        (footer : Read.ZipFooter.t) (blob : list byte) es :
  Read.ZipDirectory.entries (Read.ZipDirectory.mk footer (DataView.of_buffer blob))
  = Some {| Read.yielded := es; Read.thrown := None |}
  <-> DirectoryLayout blob es.
Proof.
  unfold Read.ZipDirectory.entries. cbn [Read.ZipDirectory.data].
  split.
  - intros H.
    destruct (entriesFrom_inv _ [] blob _ H) as (good & bad & -> & Hlayout & Hbad).
    cbn [Read.thrown Read.yielded] in *. subst bad.
    now rewrite app_nil_r.
  - intros Hlayout.
    apply (entriesFrom_layout blob es Hlayout []). cbn. lia.
Qed.

(** X13: when directory data consists of the records of [es] followed by
    bytes that hold no complete record, the iteration yields [es] and then
    throws: the signature error with the offset of the bad bytes when at
    least four bytes are left and they are not the signature, and a
    RangeError when fewer than four bytes are left or the record that
    starts there is cut short. *)
Theorem directory_iteration_stops_at_first_bad_record
        (footer : Read.ZipFooter.t) (good bad : list byte) es :
  DirectoryLayout good es ->
  bad <> [] ->
  recordFits bad = false ->
  Read.ZipDirectory.entries
    (Read.ZipDirectory.mk footer (DataView.of_buffer (good ++ bad)))
  = Some {| Read.yielded := es;
            Read.thrown := Some (recordError (Z.of_nat (length good)) bad) |}.
Proof.
  intros Hlayout Hbad Hfit.
  unfold Read.ZipDirectory.entries. cbn [Read.ZipDirectory.data].
  apply (entriesFrom_layout_then_unfit good es Hlayout [] bad); try assumption.
  cbn. rewrite length_app. destruct bad; [contradiction|]. cbn [length]. lia.
Qed.

Lemma snapshotDirectory_layout :
  DirectoryLayout snapshotDirectory
    [decodeDirectoryEntry snapshotDirectoryHeader (list_byte_of_string "hello") [] []].
Proof.
  unfold snapshotDirectory.
  apply layout_entry; try (vm_compute; reflexivity).
  apply layout_end.
Qed.

Lemma directory_iteration_stops_at_first_bad_record_witness :
  DirectoryLayout snapshotDirectory
    [decodeDirectoryEntry snapshotDirectoryHeader (list_byte_of_string "hello") [] []]
  /\ cutRecord <> []
  /\ recordFits cutRecord = false
  /\ Read.ZipDirectory.entries
       (Read.ZipDirectory.mk anyFooter
          (DataView.of_buffer (snapshotDirectory ++ cutRecord)))
     = Some {| Read.yielded :=
                 [decodeDirectoryEntry snapshotDirectoryHeader
                    (list_byte_of_string "hello") [] []];
               Read.thrown := Some RangeError |}.
Proof.
  split; [exact snapshotDirectory_layout|].
  split; [discriminate|].
  split; [reflexivity|].
  exact (directory_iteration_stops_at_first_bad_record anyFooter
           snapshotDirectory cutRecord _ snapshotDirectory_layout
           ltac:(discriminate) eq_refl).
Defined.

(** X14: for every blob of directory data the iteration ends, and the blob
    splits into the records of the entries it yields and the bytes left:
    no bytes are left exactly when it ends without an exception;
    otherwise the bytes left hold no complete record and the exception is
    the one that the constructor throws at their offset. *)
Theorem directory_iteration_always_splits
        (footer : Read.ZipFooter.t) (blob : list byte) :
  exists g good bad,
    Read.ZipDirectory.entries (Read.ZipDirectory.mk footer (DataView.of_buffer blob))
    = Some g
    /\ blob = good ++ bad
    /\ DirectoryLayout good (Read.yielded g)
    /\ cursorAfter (Read.yielded g) = Z.of_nat (length good)
    /\ match Read.thrown g with
       | None => bad = []
       | Some err =>
           bad <> [] /\ recordFits bad = false
           /\ err = recordError (Z.of_nat (length good)) bad
       end.
Proof.
  destruct (Read.ZipDirectory.entries
              (Read.ZipDirectory.mk footer (DataView.of_buffer blob))) as [g|] eqn:H.
  2:{ exfalso. exact (entries_total _ H). }
  unfold Read.ZipDirectory.entries in H. cbn [Read.ZipDirectory.data] in H.
  destruct (entriesFrom_inv _ [] blob _ H) as (good & bad & Hblob & Hlayout & Hthrown).
  exists g, good, bad.
  split; [reflexivity|]. split; [exact Hblob|]. split; [exact Hlayout|].
  split; [apply DirectoryLayout_length, Hlayout|].
  exact Hthrown.
Qed.

(** ** write.ts: [build] with a [progress] callback *)

Lemma setProgress_length index p table :
  (index < length table)%nat -> length (setProgress index p table) = length table.
Proof.
  intros H. unfold setProgress.
  rewrite length_app, length_firstn. cbn [length]. rewrite length_skipn. lia.
Qed.

Section BuildProgress.
Context {host : Host}.
Variable o : Write.BuildOptions.t.
Hypothesis Hprogress : Write.BuildOptions.progress o = true.

Lemma measure_all_reports index source : forall e table log0,
  Write.progressCallback e = Some (Write.buildProgressCallback (Some o) index) ->
  (index < length table)%nat ->
  exists e',
    Write.measure_all e source
      {| Write.entryProgress := Some table; Write.calls := log0 |}
    = ({| Write.entryProgress :=
            Some (snd (chunkReports o index (Write.streamSizeGuess e)
                                    (Write.uncompressedSize e) table source));
          Write.calls :=
            log0 ++ fst (chunkReports o index (Write.streamSizeGuess e)
                                      (Write.uncompressedSize e) table source) |},
       Ok e')
    /\ Write.compressedStream e' = Write.compressedStream e
    /\ length (snd (chunkReports o index (Write.streamSizeGuess e)
                                 (Write.uncompressedSize e) table source))
       = length table.
Proof.
  induction source as [|c source IH]; intros e table log0 Hcb Hindex.
  - exists e. cbn [chunkReports fst snd Write.measure_all]. rewrite app_nil_r.
    repeat split.
  - cbn [Write.measure_all chunkReports fst snd]. unfold Write.bind at 1.
    unfold Write.measure, Write.bind, Write.ret.
    cbn [Write.progressCallback Write.set_uncompressedSize Write.streamSizeGuess
         Write.uncompressedSize].
    rewrite Hcb.
    rewrite (buildProgressCallback_with_progress o index _ _ table log0 Hprogress Hindex).
    cbv beta iota zeta delta [Ok].
    unfold JS.Math_max.
    fold (setProgress index
            (Write.Progress.mk (Write.uncompressedSize e + Write.chunk_length c)
               (Z.max (Write.streamSizeGuess e)
                      (Write.uncompressedSize e + Write.chunk_length c))) table).
    set (table1 := setProgress index _ table).
    fold (writtenSum table1). fold (expectedSum table1).
    match goal with
    | |- context [Write.measure_all ?e1 source ?st1] =>
        match st1 with
        | {| Write.entryProgress := _; Write.calls := ?log1 |} =>
            destruct (IH e1 table1 log1) as (e' & Hrun & Hs & Hl);
            [exact Hcb
            | unfold table1; rewrite setProgress_length; assumption
            | ]
        end
    end.
    cbn [Write.set_crc32 Write.set_uncompressedSize Write.streamSizeGuess
         Write.uncompressedSize Write.compressedStream] in Hrun, Hs, Hl.
    exists e'. split; [|split].
    + unfold Ok in Hrun. rewrite Hrun. f_equal. f_equal.
      rewrite <- !app_assoc. reflexivity.
    + exact Hs.
    + rewrite Hl. unfold table1. now apply setProgress_length.
Qed.

Lemma entryParts_reports index (it : Item) table log0 :
  (index < length table)%nat ->
  exists e ps,
    Write.entryParts
      (Write.set_progressCallback (newEntryOf it)
         (Some (Write.buildProgressCallback (Some o) index)))
      {| Write.entryProgress := Some table; Write.calls := log0 |}
    = ({| Write.entryProgress :=
            Some (snd (chunkReports o index (guessOf it) 0 table
                                    (Write.stream (item_source it))));
          Write.calls :=
            log0 ++ fst (chunkReports o index (guessOf it) 0 table
                                      (Write.stream (item_source it))) |},
       Ok (e, ps)).
Proof.
  intros Hindex.
  unfold Write.entryParts, Write.drain.
  cbn [newEntryOf Write.newZipEntry Write.set_progressCallback Write.compressedStream].
  match goal with
  | |- context [Write.measure_all ?e0 ?src] =>
      destruct (measure_all_reports index src e0 table log0 eq_refl Hindex)
        as (e' & Hrun & _ & _)
  end.
  cbn [Write.streamSizeGuess Write.uncompressedSize] in Hrun.
  fold (guessOf it) in Hrun.
  rewrite (bind_run _ _ _ _ _ (bind_run _ _ _ _ _ Hrun)).
  unfold Write.ret.
  match goal with
  | |- context [Write.lift (Write.localHeader ?e1)] =>
      rewrite (bind_run (Write.lift (Write.localHeader e1)) _ _ _
                        (DataView.of_buffer (localHeaderBytes e1)))
        by (unfold Write.lift; now rewrite localHeader_layout)
  end.
  eexists. eexists. reflexivity.
Qed.

Lemma entryPartsLoop_reports (items : list Item) : forall index table log0,
  length table = (index + length items)%nat ->
  exists es parts table',
    Write.entryPartsLoop (Some o) index (map newEntryOf items)
      {| Write.entryProgress := Some table; Write.calls := log0 |}
    = ({| Write.entryProgress := Some table';
          Write.calls := log0 ++ itemReports o index table items |},
       Ok (es, parts)).
Proof.
  induction items as [|it items IH]; intros index table log0 Hlen.
  - exists [], [], table. cbn. now rewrite app_nil_r.
  - cbn [length] in Hlen.
    cbn [map Write.entryPartsLoop Write.wants itemReports]. rewrite Hprogress.
    cbn [orb].
    destruct (entryParts_reports index it table log0 ltac:(lia)) as (e & ps & He).
    rewrite (bind_run _ _ _ _ _ He).
    assert (Hl : length (snd (chunkReports o index (guessOf it) 0 table
                                           (Write.stream (item_source it))))
                 = length table).
    { match goal with
      | _ : context [Write.set_progressCallback ?e0 ?cb] |- _ =>
          destruct (measure_all_reports index (Write.stream (item_source it))
                      (Write.set_progressCallback e0 cb) table log0 eq_refl
                      ltac:(lia)) as (_ & _ & _ & Hl)
      end.
      exact Hl. }
    destruct (IH (S index) _ (log0 ++ fst (chunkReports o index (guessOf it) 0 table
                                             (Write.stream (item_source it))))
                 ltac:(rewrite Hl; lia))
      as (es & parts & table' & Hes).
    rewrite (bind_run _ _ _ _ _ Hes).
    eexists. eexists. exists table'. unfold Write.ret.
    rewrite <- app_assoc. reflexivity.
Qed.

Lemma build_reports (items : list Item) st :
  exists st' w' blob,
    Write.build (writerOf items) (Some o) st = (st', Ok (w', blob))
    /\ Write.calls st' = Write.calls st ++ progressReports o items.
Proof.
  unfold Write.build. rewrite writerOf_entries. cbn [Write.wants].
  rewrite Hprogress, map_map.
  destruct (entryPartsLoop_reports items 0
              (map (fun it => Write.Progress.mk 0 (guessOf it)) items)
              (Write.calls st) ltac:(now rewrite length_map))
    as (es & parts & table' & Hloop).
  change (fun x : Item => Write.Progress.mk 0 (Write.streamSizeGuess (newEntryOf x)))
    with (fun it : Item => Write.Progress.mk 0 (guessOf it)).
  destruct (directoryLoop_ok es 0 0) as (dirParts & Hdir & _).
  rewrite (bind_run _ _ _ _ _ Hloop).
  match goal with
  | |- context [Write.bind (Write.lift (Write.directoryLoop es 0 0)) _ ?st1] =>
      rewrite (bind_run _ _ st1 st1
                 (dirParts, 0 + sumEntrySize es, 0 + sumDirectorySize es))
        by (unfold Write.lift; now rewrite Hdir);
      rewrite (bind_run _ _ st1 st1
                 (DataView.of_buffer
                    (footerBytes (Z.of_nat (length es)) (0 + sumDirectorySize es)
                                 (0 + sumEntrySize es))))
        by (unfold Write.lift; now rewrite footerRecord_layout)
  end.
  eexists. eexists. eexists. split; reflexivity.
Qed.

End BuildProgress.




(** ** write.ts: the progress of entries added from blobs and strings *)














Section BlobProgress.
Context {host : Host}.
Variable laws : HostLaws host.
Variable o : Write.BuildOptions.t.




Lemma contentSize_nonneg (items : list Item) : 0 <= contentSize items.
Proof.
  induction items as [|it items IH]; cbn [contentSize fold_right]; [lia|].
  fold (contentSize items). lia.
Qed.


End BlobProgress.




(** ** write.ts: the builds that fail *)

Section BuildFails.
Context {host : Host}.

Lemma entryParts_empty_stream (it : Item) callback st :
  Write.stream (item_source it) = [] ->
  exists e ps,
    Write.entryParts (Write.set_progressCallback (newEntryOf it) callback) st
    = (st, Ok (e, ps)).
Proof.
  intros Hempty.
  unfold Write.entryParts, Write.drain.
  cbn [newEntryOf Write.newZipEntry Write.set_progressCallback Write.compressedStream].
  rewrite Hempty.
  match goal with
  | |- context [Write.measure_all ?e0 []] =>
      assert (Hrun : Write.measure_all e0 [] st = (st, inr e0)) by reflexivity
  end.
  rewrite (bind_run _ _ _ _ _ (bind_run _ _ _ _ _ Hrun)).
  unfold Write.ret.
  match goal with
  | |- context [Write.lift (Write.localHeader ?e1)] =>
      rewrite (bind_run (Write.lift (Write.localHeader e1)) _ _ _
                        (DataView.of_buffer (localHeaderBytes e1)))
        by (unfold Write.lift; now rewrite localHeader_layout)
  end.
  eexists. eexists. reflexivity.
Qed.

Lemma entryParts_without_table (it : Item) options index c source log0 :
  Write.wants options Write.BuildOptions.progress = false ->
  Write.stream (item_source it) = c :: source ->
  exists st1,
    Write.entryParts
      (Write.set_progressCallback (newEntryOf it)
         (Some (Write.buildProgressCallback options index)))
      {| Write.entryProgress := None; Write.calls := log0 |}
    = (st1, inl TypeError).
Proof.
  intros Hp Hsrc.
  eexists. unfold Write.entryParts. apply bind_throw.
  unfold Write.drain.
  cbn [newEntryOf Write.set_progressCallback Write.newZipEntry Write.compressedStream].
  rewrite Hsrc.
  apply bind_throw. cbn [Write.measure_all]. apply bind_throw.
  unfold Write.measure. apply bind_throw.
  cbn [Write.progressCallback Write.set_uncompressedSize].
  apply buildProgressCallback_without_progress. exact Hp.
Qed.

Lemma entryPartsLoop_without_table options (items : list Item) :
  Write.wants options Write.BuildOptions.progress = false ->
  forall index log0,
  if Write.wants options Write.BuildOptions.entryProgress && existsb hasChunk items
  then exists st1,
         Write.entryPartsLoop options index (map newEntryOf items)
           {| Write.entryProgress := None; Write.calls := log0 |}
         = (st1, inl TypeError)
  else exists es parts,
         Write.entryPartsLoop options index (map newEntryOf items)
           {| Write.entryProgress := None; Write.calls := log0 |}
         = ({| Write.entryProgress := None; Write.calls := log0 |}, Ok (es, parts)).
Proof.
  intros Hp.
  induction items as [|it items IH]; intros index log0.
  - rewrite andb_false_r. exists [], []. reflexivity.
  - cbn [map Write.entryPartsLoop existsb]. rewrite Hp. cbn [orb].
    specialize (IH (S index) log0).
    destruct (Write.wants options Write.BuildOptions.entryProgress) eqn:He;
      cbn [andb] in IH |- *.
    + unfold hasChunk at 1.
      destruct (Write.stream (item_source it)) as [|c source] eqn:Hsrc; cbn [orb].
      * destruct (entryParts_empty_stream it
                    (Some (Write.buildProgressCallback options index))
                    {| Write.entryProgress := None; Write.calls := log0 |} Hsrc)
          as (e & ps & Hparts).
        destruct (existsb hasChunk items).
        -- destruct IH as (st1 & Hloop). exists st1.
           rewrite (bind_run _ _ _ _ _ Hparts).
           now rewrite (bind_throw _ _ _ _ _ Hloop).
        -- destruct IH as (es & parts & Hloop).
           rewrite (bind_run _ _ _ _ _ Hparts), (bind_run _ _ _ _ _ Hloop).
           eexists. eexists. reflexivity.
      * destruct (entryParts_without_table it options index c source log0 Hp Hsrc)
          as (st1 & Hthrow).
        exists st1. now rewrite (bind_throw _ _ _ _ _ Hthrow).
    + destruct (entryParts_no_callback it
                  {| Write.entryProgress := None; Write.calls := log0 |})
        as (e & ps & Hparts).
      destruct IH as (es & parts & Hloop).
      rewrite (bind_run _ _ _ _ _ Hparts), (bind_run _ _ _ _ _ Hloop).
      eexists. eexists. reflexivity.
Qed.

Lemma build_without_progress (items : list Item) options st :
  Write.wants options Write.BuildOptions.progress = false ->
  if Write.wants options Write.BuildOptions.entryProgress && existsb hasChunk items
  then snd (Write.build (writerOf items) options st) = Throw TypeError
  else exists w' blob,
         Write.build (writerOf items) options st
         = ({| Write.entryProgress := None; Write.calls := Write.calls st |},
            Ok (w', blob)).
Proof.
  intros Hp.
  pose proof (entryPartsLoop_without_table options items Hp 0 (Write.calls st)) as Hloop.
  unfold Write.build. rewrite writerOf_entries, Hp.
  set (st0 := {| Write.entryProgress := None; Write.calls := Write.calls st |}) in *.
  destruct (Write.wants options Write.BuildOptions.entryProgress && existsb hasChunk items).
  - destruct Hloop as (st1 & Hloop).
    now rewrite (bind_throw _ _ _ _ _ Hloop).
  - destruct Hloop as (es & parts & Hloop).
    destruct (directoryLoop_ok es 0 0) as (dirParts & Hdir & _).
    rewrite (bind_run _ _ _ _ _ Hloop).
    rewrite (bind_run _ _ st0 st0 (dirParts, 0 + sumEntrySize es, 0 + sumDirectorySize es))
      by (unfold Write.lift; now rewrite Hdir).
    rewrite (bind_run _ _ st0 st0
               (DataView.of_buffer
                  (footerBytes (Z.of_nat (length es)) (0 + sumDirectorySize es)
                               (0 + sumEntrySize es))))
      by (unfold Write.lift; now rewrite footerRecord_layout).
    eexists. eexists. reflexivity.
Qed.

End BuildFails.

(** X17: [build] fails in exactly one situation: [entryProgress] is given
    without [progress] and the source of some entry delivers a chunk; it
    then throws a TypeError.  In every other case (no options, [progress]
    given, neither callback given, or no source delivers a chunk) it returns
    an archive. *)
Theorem build_fails_exactly_when {host : Host}
        (items : list Item) (options : option Write.BuildOptions.t) st :
  match snd (Write.build (writerOf items) options st) with
  | inl err => err = TypeError /\ buildFails options items = true
  | inr _ => buildFails options items = false
  end.
Proof.
  unfold buildFails.
  destruct (Write.wants options Write.BuildOptions.progress) eqn:Hp.
  - destruct options as [o|]; [|discriminate Hp]. cbn [Write.wants] in Hp.
    destruct (build_reports o Hp items st) as (st' & w' & blob & Hbuild & _).
    rewrite Hbuild. reflexivity.
  - pose proof (build_without_progress items options st Hp) as H.
    cbn [negb andb].
    destruct (Write.wants options Write.BuildOptions.entryProgress
              && existsb hasChunk items).
    + rewrite H. split; reflexivity.
    + destruct H as (w' & blob & ->). reflexivity.
Qed.

(** ** write.ts: a writer is built once *)

Section BuildOnce.
Context {host : Host}.

Lemma entryPartsLoop_disturbs options : forall es index st st' es' parts,
  Write.entryPartsLoop options index es st = (st', Ok (es', parts)) ->
  length es' = length es
  /\ Forall (fun e => Write.compressedStream e = Write.Disturbed) es'.
Proof.
  induction es as [|e es IH]; intros index st st' es' parts H.
  - inversion H; subst. split; [reflexivity | constructor].
  - cbn [Write.entryPartsLoop] in H.
    apply bind_ok in H. destruct H as ([e1 ps] & st1 & Hparts & H).
    apply bind_ok in H. destruct H as ([rest parts'] & st2 & Hloop & Hret).
    inversion Hret; subst; clear Hret.
    apply entryParts_ok in Hparts. destruct Hparts as (data & Hdrain & _).
    apply drain_ok in Hdrain.
    destruct Hdrain as (source & deflate & _ & _ & _ & _ & _ & _ & Hs).
    apply IH in Hloop. destruct Hloop as (Hlen & Hrest).
    split; [cbn [length]; now rewrite Hlen|].
    constructor; assumption.
Qed.

Lemma build_disturbs w options st st' w' blob :
  Write.build w options st = (st', Ok (w', blob)) ->
  length (Write.entries w') = length (Write.entries w)
  /\ Forall (fun e => Write.compressedStream e = Write.Disturbed) (Write.entries w').
Proof.
  unfold Write.build. intros H.
  apply bind_ok in H. destruct H as ([es parts] & st1 & Hloop & H).
  apply entryPartsLoop_disturbs in Hloop.
  apply bind_ok in H. destruct H as ([[dirParts offset] dsz] & st2 & _ & H).
  apply bind_ok in H. destruct H as (footer & st3 & _ & H).
  inversion H; subst; clear H. exact Hloop.
Qed.

Lemma build_of_disturbed e es options st :
  Write.compressedStream e = Write.Disturbed ->
  snd (Write.build {| Write.entries := e :: es |} options st) = Throw TypeError
  /\ Write.calls (fst (Write.build {| Write.entries := e :: es |} options st))
     = Write.calls st.
Proof.
  intros Hs. unfold Write.build.
  cbn [Write.entries Write.entryPartsLoop].
  set (e1 := if Write.wants options Write.BuildOptions.progress
                || Write.wants options Write.BuildOptions.entryProgress
             then Write.set_progressCallback e
                    (Some (Write.buildProgressCallback options 0))
             else e).
  assert (Hs1 : Write.compressedStream e1 = Write.Disturbed).
  { unfold e1.
    destruct (Write.wants options Write.BuildOptions.progress
              || Write.wants options Write.BuildOptions.entryProgress); exact Hs. }
  match goal with
  | |- context [Write.bind (Write.bind (Write.entryParts e1) ?k1) ?k2 ?st0] =>
      assert (Hthrow : Write.entryParts e1 st0 = (st0, inl TypeError))
  end.
  { unfold Write.entryParts. apply bind_throw.
    unfold Write.drain. rewrite Hs1. reflexivity. }
  rewrite (bind_throw _ _ _ _ _ (bind_throw _ _ _ _ _ Hthrow)).
  split; reflexivity.
Qed.

End BuildOnce.

(** X18: a writer can be built once.  After [build] has returned an archive
    for at least one entry, every further [build] of the same writer,
    whatever the options, throws a TypeError before any callback is
    called, because the streams of the entries have been read. *)
Theorem build_twice_throws {host : Host}
        (items : list Item) options st st' w' blob options' st'' :
  Write.build (writerOf items) options st = (st', Ok (w', blob)) ->
  items <> [] ->
  snd (Write.build w' options' st'') = Throw TypeError
  /\ Write.calls (fst (Write.build w' options' st'')) = Write.calls st''.
Proof.
  intros Hbuild Hne.
  apply build_disturbs in Hbuild. destruct Hbuild as (Hlen & Hall).
  rewrite writerOf_entries, length_map in Hlen.
  destruct w' as [es]. cbn [Write.entries] in *.
  destruct es as [|e es].
  - destruct items; [contradiction | discriminate Hlen].
  - inversion Hall; subst. now apply build_of_disturbed.
Qed.

Lemma build_twice_throws_witness :
  exists st' w' blob,
    Write.build (host := SmallHost.host) (writerOf twoFiles) None freshState
    = (st', Ok (w', blob))
    /\ twoFiles <> []
    /\ snd (Write.build (host := SmallHost.host) w' None freshState) = Throw TypeError.
Proof.
  assert (E : Write.build (host := SmallHost.host) (writerOf twoFiles) None freshState
              = twoFilesBuilt) by (vm_compute; reflexivity).
  unfold twoFilesBuilt in E.
  eexists. eexists. eexists. split; [exact E|].
  split; [discriminate|].
  exact (proj1 (build_twice_throws (host := SmallHost.host) twoFiles None freshState
                  _ _ _ None freshState E ltac:(discriminate))).
Defined.

(** ** write.ts: progress never runs past the total *)




Section ProgressBounds.
Context {host : Host}.
Variable o : Write.BuildOptions.t.



End ProgressBounds.





(** ** examples: createZip.ts *)

Section CreateZipFacts.
Context {host : Host}.
Variable fetch : jsstring -> Result Write.Response.
Variable failedToFetch : jsstring -> Write.Response -> string.

Lemma addEntry_fetched w e :
  fetched fetch e ->
  CreateZip.addEntry fetch failedToFetch w e
  = Ok (Write.add w (item_name (itemOfEntry fetch e))
                  (item_source (itemOfEntry fetch e))
                  (item_options (itemOfEntry fetch e))).
Proof.
  destruct e as [id path [blob|] c | id path content c | id path url c];
    cbn [fetched]; intros H; try reflexivity.
  destruct H as (res & source & Hfetch & Hok & Hsrc).
  cbn [CreateZip.addEntry itemOfEntry item_name item_source item_options
       entryPath entrySource entryCompressed].
  unfold Ok in *. rewrite Hfetch. cbn [rbind]. rewrite Hok. cbn [negb].
  unfold Write.addResponse. rewrite Hsrc. reflexivity.
Qed.

Lemma addEntries_fetched entries : forall w,
  Forall (fetched fetch) entries ->
  CreateZip.addEntries fetch failedToFetch w entries
  = Ok (fold_left (fun w it => Write.add w (item_name it) (item_source it)
                                         (item_options it))
                  (map (itemOfEntry fetch) entries) w).
Proof.
  induction entries as [|e entries IH]; intros w Hall.
  - reflexivity.
  - inversion Hall as [|e' entries' He Hrest]; subst.
    cbn [CreateZip.addEntries map fold_left].
    rewrite (addEntry_fetched w e He). cbn [rbind Ok]. now apply IH.
Qed.

Lemma addEntries_app before after : forall w,
  CreateZip.addEntries fetch failedToFetch w (before ++ after)
  = rbind (CreateZip.addEntries fetch failedToFetch w before)
          (fun w' => CreateZip.addEntries fetch failedToFetch w' after).
Proof.
  induction before as [|e before IH]; intros w.
  - reflexivity.
  - cbn [app CreateZip.addEntries].
    destruct (CreateZip.addEntry fetch failedToFetch w e) as [err | w1];
      cbn [rbind]; [reflexivity | apply IH].
Qed.

Lemma addEntry_rejected w id path url compressed err :
  rejectedWith fetch failedToFetch url err ->
  CreateZip.addEntry fetch failedToFetch w (CreateZip.UrlEntry id path url compressed)
  = Throw err.
Proof.
  unfold rejectedWith. cbn [CreateZip.addEntry].
  destruct (fetch url) as [e | res]; cbn [rbind].
  - now intros ->.
  - destruct (Write.ok res); cbn [negb].
    + intros H. unfold Write.addResponse. now rewrite H.
    + now intros ->.
Qed.

Lemma entryContent_item (laws : HostLaws host) e :
  fetched fetch e ->
  itemContent (itemOfEntry fetch e) = entryContent fetch e.
Proof.
  unfold itemContent.
  destruct e as [id path [blob|] c | id path content c | id path url c];
    cbn [fetched itemOfEntry item_source entrySource entryContent]; intros H;
    try apply (Blob_stream_concat host laws).
  destruct H as (res & source & Hfetch & _ & Hsrc).
  unfold Ok in *. rewrite Hfetch, Hsrc.
  pose proof (fromResponse_cases res) as Hcases.
  unfold Ok in *. rewrite Hsrc in Hcases.
  destruct Hcases as (_ & body_ & Hbody & Hstream & _).
  now rewrite Hbody, Hstream.
Qed.

End CreateZipFacts.

(** X20: [createZip] stops at the first URL entry that cannot be added.
    When the entries before it are added and the URL is rejected, because
    [fetch] rejects, or the response is not ok, or [ZipSource.fromResponse]
    throws for it, [createZip] throws that exception (for a response that is
    not ok: the "Failed to fetch" error), whatever entries follow and
    whatever the options; no archive is built and no callback is called. *)
Theorem createZip_rejects_at_first_failed_url {host : Host}
        (fetch : jsstring -> Result Write.Response)
        (failedToFetch : jsstring -> Write.Response -> string)
        before id path url compressed after options st err :
  Forall (fetched fetch) before ->
  rejectedWith fetch failedToFetch url err ->
  CreateZip.createZip fetch failedToFetch
    (before ++ CreateZip.UrlEntry id path url compressed :: after) options st
  = (st, Throw err).
Proof.
  intros Hbefore Hrejected.
  unfold CreateZip.createZip.
  rewrite addEntries_app, (addEntries_fetched fetch failedToFetch before _ Hbefore).
  cbn [rbind Ok CreateZip.addEntries].
  rewrite (addEntry_rejected fetch failedToFetch _ id path url compressed err Hrejected).
  reflexivity.
Qed.

Lemma createZip_rejects_at_first_failed_url_witness :
  Forall (fetched (host := SmallHost.host) fetchNotFound)
         [CreateZip.TextEntry (host := SmallHost.host) 1 "a.txt"%string "hello"%string true]
  /\ rejectedWith (host := SmallHost.host) fetchNotFound sampleMessage "/world"%string
                  (JsError "Failed to fetch /world: Not Found")
  /\ CreateZip.createZip (host := SmallHost.host) fetchNotFound sampleMessage
       sampleEntries (Some bothCallbacks) freshState
     = (freshState, Throw (JsError "Failed to fetch /world: Not Found")).
Proof.
  assert (Hbefore : Forall (fetched (host := SmallHost.host) fetchNotFound)
                      [CreateZip.TextEntry (host := SmallHost.host) 1 "a.txt"%string
                         "hello"%string true])
    by (repeat constructor).
  assert (Hrejected : rejectedWith (host := SmallHost.host) fetchNotFound sampleMessage
                        "/world"%string (JsError "Failed to fetch /world: Not Found"))
    by reflexivity.
  split; [exact Hbefore|]. split; [exact Hrejected|].
  exact (createZip_rejects_at_first_failed_url (host := SmallHost.host)
           fetchNotFound sampleMessage
           [CreateZip.TextEntry (host := SmallHost.host) 1 "a.txt"%string
              "hello"%string true;
            CreateZip.FileEntry (host := SmallHost.host) 2 "b.bin"%string None false]
           3 "c.txt"%string "/world"%string true [] (Some bothCallbacks) freshState
           _ ltac:(repeat constructor) Hrejected).
Defined.

(** X21: when every URL is fetched with an ok response that the writer
    accepts, every path survives the host's UTF-8 codec and encodes to fewer
    than 2^16 bytes, [createZip] without options returns an archive, and
    when that archive is smaller than 2^32 bytes [ZipReader.entries] yields,
    in order and without an exception, one entry per entry given, named by
    its path, whose uncompressed stream carries the bytes of the file (none
    for a missing file), the encoded text, or the body of the response --
    given that the host's decompression inverts its compression and a blob
    streams as chunks that concatenate to it. *)
Theorem createZip_round_trip {host : Host} (laws : HostLaws host)
        (fetch : jsstring -> Result Write.Response)
        (failedToFetch : jsstring -> Write.Response -> string)
        (entries : list CreateZip.Entry) st :
  Forall (fetched fetch) entries ->
  Forall nameFits (map (itemOfEntry fetch) entries) ->
  exists st' blob,
    CreateZip.createZip fetch failedToFetch entries None st = (st', Ok blob)
    /\ (Z.of_nat (length blob) < 2 ^ 32 ->
        exists g, Read.ZipReader.entries (Read.ZipReader.new blob) = Some g
                  /\ Read.thrown g = None
                  /\ collected g
                     = map (fun e => (entryPath e, Some (entryContent fetch e)))
                           entries).
Proof.
  intros Hfetched Hfits.
  unfold CreateZip.createZip.
  rewrite (addEntries_fetched fetch failedToFetch entries _ Hfetched).
  fold (writerOf (map (itemOfEntry fetch) entries)).
  destruct (build_without_options_total (map (itemOfEntry fetch) entries) st)
    as (w' & blob & Hbuild).
  cbv beta iota delta [Ok]. unfold Ok in Hbuild. rewrite Hbuild.
  eexists. exists blob. split; [reflexivity|].
  intros Hsmall.
  destruct (read_back_archive laws _ None _ _ w' blob Hbuild Hfits Hsmall)
    as (g & Hg & Hthrown & Hcollected).
  exists g. split; [exact Hg|]. split; [exact Hthrown|].
  rewrite Hcollected. unfold written. rewrite map_map.
  clear - laws Hfetched.
  induction Hfetched as [|e entries He _ IH]; [reflexivity|].
  cbn [map]. rewrite IH. f_equal. f_equal.
  f_equal. apply (entryContent_item fetch laws e He).
Qed.

Lemma sampleEntries_fetched :
  Forall (fetched (host := SmallHost.host) fetchWorld) sampleEntries.
Proof.
  repeat constructor. eexists. eexists. repeat split.
Qed.

Lemma sampleEntries_fit :
  Forall (nameFits (host := SmallHost.host))
         (map (itemOfEntry (host := SmallHost.host) fetchWorld) sampleEntries).
Proof.
  repeat constructor.
Qed.

Lemma createZip_round_trip_witness :
  Forall (fetched (host := SmallHost.host) fetchWorld) sampleEntries
  /\ Forall (nameFits (host := SmallHost.host))
            (map (itemOfEntry (host := SmallHost.host) fetchWorld) sampleEntries)
  /\ exists st' blob,
       CreateZip.createZip (host := SmallHost.host) fetchWorld sampleMessage
                           sampleEntries None freshState
       = (st', Ok blob).
Proof.
  split; [exact sampleEntries_fetched|]. split; [exact sampleEntries_fit|].
  destruct (createZip_round_trip SmallHost_laws fetchWorld sampleMessage sampleEntries
              freshState sampleEntries_fetched sampleEntries_fit)
    as (st' & blob & H & _).
  exists st', blob. exact H.
Defined.

(** ** read.ts: sources too short for a footer *)

Lemma Blob_slice_length blob start end_ :
  (length (Blob_slice blob start end_) <= length blob)%nat.
Proof.
  unfold Blob_slice. rewrite length_firstn, length_skipn. lia.
Qed.

Lemma ZipFooter_new_short view :
  DataView.byteLength view < 22 ->
  exists err,
    Read.ZipFooter.new view = Throw err
    /\ (err = RangeError \/ err = JsError "Invalid ZIP footer signature").
Proof.
  intros Hshort. unfold Read.ZipFooter.new.
  unfold Ok, Throw.
  destruct (DataView.getUint32 view 0) as [e0 | s] eqn:Es; cbn [rbind].
  { exists e0. split; [reflexivity|]. left. eapply getUint_throws, Es. }
  destruct (negb (s =? Read.ZipFooter.SIGNATURE)).
  { eexists. split; [reflexivity|]. right. reflexivity. }
  repeat match goal with
         | |- exists err, rbind ?r _ = _ /\ _ =>
             let E := fresh "E" in
             destruct r eqn:E; cbn [rbind];
             [eexists; split; [reflexivity|]; left; eapply getUint_throws, E|]
         end.
  exfalso.
  match goal with
  | E : DataView.getUint16 view 20 = inr _ |- _ =>
      apply getUint_ok_in_range in E; unfold DataView.in_range in E;
      apply andb_prop in E; destruct E as (_ & E); apply Z.leb_le in E
  end.
  lia.
Qed.

(** X22: a source of fewer than 22 bytes is never taken for an archive:
    [ZipFooter.read] throws a RangeError or the footer signature error, and
    [ZipReader.entries] yields no entry and throws the same exception. *)
Theorem short_source_is_rejected (src : list byte) :
  (length src < 22)%nat ->
  exists err,
    Read.ZipFooter.read (Read.ZipData.mk src) = Throw err
    /\ (err = RangeError \/ err = JsError "Invalid ZIP footer signature")
    /\ Read.ZipReader.entries (Read.ZipReader.new src)
       = Some {| Read.yielded := []; Read.thrown := Some err |}.
Proof.
  intros Hshort.
  destruct (ZipFooter_new_short (Read.ZipFooter.footerView (Read.ZipData.mk src)))
    as (err & Hnew & Herr).
  { unfold Read.ZipFooter.footerView, Read.ZipData.view, Read.ZipData.slice.
    cbn [DataView.of_buffer DataView.byteLength].
    eapply Z.le_lt_trans; [apply Nat2Z.inj_le, Blob_slice_length|].
    cbn [Read.ZipData.blob]. lia. }
  exists err. split; [exact Hnew|]. split; [exact Herr|].
  unfold Read.ZipReader.entries, Read.ZipReader.new, Read.ZipDirectory.read.
  cbn [Read.ZipReader.data].
  unfold Read.ZipFooter.read. unfold Throw in Hnew. rewrite Hnew. reflexivity.
Qed.

Lemma short_source_is_rejected_witness :
  (length cutRecord < 22)%nat
  /\ exists err,
       Read.ZipFooter.read (Read.ZipData.mk cutRecord) = Throw err
       /\ (err = RangeError \/ err = JsError "Invalid ZIP footer signature")
       /\ Read.ZipReader.entries (Read.ZipReader.new cutRecord)
          = Some {| Read.yielded := []; Read.thrown := Some err |}.
Proof.
  assert (H : (length cutRecord < 22)%nat) by (cbn; lia).
  split; [exact H|].
  exact (short_source_is_rejected cutRecord H).
Defined.
